(** * gungnir::List — an immutable singly-linked list with structural sharing

    A shallow embedding of [include/gungnir/List.hpp] and the properties of
    its specification.

    - [std::size_t] is a 64-bit unsigned integer: a [Z] with its wrap-around
      written out ([wrap]).
    - [std::shared_ptr<const T>] is a possibly-null pointer.  A pointer to an
      element owns an immutable value and is never compared by address in the
      operations below, so [Ptr<A>] is [option A].  A pointer to a node is a
      possibly-null address into a store of nodes; node identity is address
      equality.
    - [Node::create] allocates: the store is a list of nodes, a new node is
      appended and its address is its index.  Every field of a node is
      [const], so nodes already in the store never change.
    - A call either returns, throws [std::out_of_range], or has undefined
      behaviour (a null pointer is dereferenced).  Loops that follow [tail]
      pointers until a Nil node take fuel. *)

From Stdlib Require Import String.
From Stdlib Require Import List ZArith Lia Bool Arith Permutation Sorted.
Import ListNotations.

(** ** std::size_t *)

Definition size_t_modulus : Z := (2 ^ 64)%Z.

Definition wrap (z : Z) : Z := (z mod size_t_modulus)%Z.

Definition is_size_t (z : Z) : Prop := (0 <= z < size_t_modulus)%Z.

(** ** Outcomes of a call *)

Inductive exn : Type :=
| out_of_range (what : string).

Inductive outcome (X : Type) : Type :=
| Ok (x : X)
| Throw (e : exn)
| Undefined
| OutOfFuel.

Arguments Ok {X} x.
Arguments Throw {X} e.
Arguments Undefined {X}.
Arguments OutOfFuel {X}.

Definition bind {X Y : Type} (m : outcome X) (k : X -> outcome Y) : outcome Y :=
  match m with
  | Ok x => k x
  | Throw e => Throw e
  | Undefined => Undefined
  | OutOfFuel => OutOfFuel
  end.

Declare Scope outcome_scope.
Delimit Scope outcome_scope with outcome.
Notation "x <- m ;; k" := (bind m (fun x => k))
  (at level 100, m at next level, right associativity) : outcome_scope.
Notation "' p <- m ;; k" := (bind m (fun p => k))
  (at level 100, p pattern, m at next level, right associativity) : outcome_scope.
Open Scope outcome_scope.

(** The spec names two kinds of error; the code throws [std::out_of_range]
    for both and tells them apart by the message. *)
Definition IndexOutOfRange : exn := out_of_range "index out of range".

Definition EmptyCollection (op : string) : exn :=
  out_of_range (String.append op " empty list").

(** ** Nodes and the store *)

Definition addr : Type := nat.

Module Node.

(** [const Ptr<A> head; const Ptr<Node> tail;]  The Nil node has both null. *)
Record t (A : Type) : Type := mk { head : option A; tail : option addr }.

Arguments mk {A} head tail.
Arguments head {A} _.
Arguments tail {A} _.

End Node.

Definition heap (A : Type) : Type := list (Node.t A).

Module NodeOps.

(** [Node::create()] *)
Definition create {A : Type} (h : heap A) : option addr * heap A :=
  (Some (length h), h ++ [Node.mk None None]).

(** [Node::create(head, tail)] *)
Definition create2 {A : Type} (head : option A) (tail : option addr)
    (h : heap A) : option addr * heap A :=
  (Some (length h), h ++ [Node.mk head tail]).

End NodeOps.

(** [*p] for a node pointer [p]. *)
Definition load {A : Type} (h : heap A) (p : option addr) : outcome (Node.t A) :=
  match p with
  | None => Undefined
  | Some a =>
      match nth_error h a with
      | Some nd => Ok nd
      | None => Undefined
      end
  end.

(** [*p] for an element pointer [p]. *)
Definition deref {A : Type} (p : option A) : outcome A :=
  match p with
  | Some x => Ok x
  | None => Undefined
  end.

(** Fuel that suffices for any walk along [tail] pointers in [h]. *)
Definition fuel_of {A : Type} (h : heap A) : nat := S (length h).

(** The standard algorithms [sorted] calls. *)
Record StdAlgorithm (A : Type) : Type := mkStd {
  std_sort : (A -> A -> bool) -> list A -> list A;
  std_stable_sort : (A -> A -> bool) -> list A -> list A
}.

Arguments mkStd {A} _ _.
Arguments std_sort {A} _ _ _.
Arguments std_stable_sort {A} _ _ _.

(** What an [InputIt] allows: a range that can be walked again, or one that
    is consumed by the walk. *)
Inductive iterator_category : Type := multi_pass | single_pass.

(** ** The list handle and its operations *)

Module gungnir.

(** [std::size_t size_; Ptr<Node> node_;] and the private constructor
    [List(size, node)]. *)
Record List (A : Type) : Type := mkList { size_ : Z; node_ : option addr }.

Arguments mkList {A} size_ node_.
Arguments size_ {A} _.
Arguments node_ {A} _.

Section Handle.

Context {A : Type}.

(** [foreachImpl]: [for (n = node_.get(); n->head; n = n->tail.get()) f(n->head)].
    The closure [f] captures state by reference: it is a transition on that
    state.  The guard makes the pointer handed to [f] non-null, so [f] takes
    the pointee.  Nodes are read from the store as it was at the call, which
    is what they still are when [f] has allocated. *)
Fixpoint foreachImpl {St : Type} (fuel : nat) (h : heap A)
    (f : A -> St -> outcome St) (n : option addr) (s : St) : outcome St :=
  match fuel with
  | O => OutOfFuel
  | S k =>
      nd <- load h n ;;
      match Node.head nd with
      | None => Ok s
      | Some x => s' <- f x s ;; foreachImpl k h f (Node.tail nd) s'
      end
  end.

(** The closure [[&buf](const Ptr<A>& x) { buf.emplace_back(x); }]. *)
Definition push_back (x : A) (buf : list A) : outcome (list A) :=
  Ok (buf ++ [x]).

(** [toList(size, rbegin, rend, head)]: the loop prepends, in the order the
    reverse iterators yield. *)
Fixpoint toList_loop (rs : list (option A)) (head : option addr) (h : heap A)
    : option addr * heap A :=
  match rs with
  | [] => (head, h)
  | x :: rs' =>
      let (head', h') := NodeOps.create2 x head h in
      toList_loop rs' head' h'
  end.

Definition toList_from (size : Z) (rs : list (option A)) (head : option addr)
    (h : heap A) : List A * heap A :=
  let (head', h') := toList_loop rs head h in
  (mkList size head', h').

(** [toList(size, rbegin, rend)] with the default [head = Node::create()]. *)
Definition toList (size : Z) (rs : list (option A)) (h : heap A)
    : List A * heap A :=
  let (nil, h0) := NodeOps.create h in
  toList_from size rs nil h0.

(** [List()] *)
Definition List_empty (h : heap A) : List A * heap A :=
  let (nil, h0) := NodeOps.create h in
  (mkList 0 nil, h0).

(** [List(A x)] *)
Definition List_single (x : A) (h : heap A) : List A * heap A :=
  let (nil, h0) := NodeOps.create h in
  let (n, h1) := NodeOps.create2 (Some x) nil h0 in
  (mkList 1 n, h1).

(** [List(A head, List tail)] *)
Definition List_head_tail (head : A) (tail : List A) (h : heap A)
    : List A * heap A :=
  let (n, h') := NodeOps.create2 (Some head) (node_ tail) h in
  (mkList (wrap (size_ tail + 1)) n, h').

(** [List(A head, Args&&... tail)]: [List(head, List(tail...))]; with one
    argument left, overload resolution picks [List(A x)]. *)
Fixpoint List_variadic (head : A) (tail : list A) (h : heap A)
    : List A * heap A :=
  match tail with
  | [] => List_single head h
  | y :: ys =>
      let (t, h') := List_variadic y ys h in
      List_head_tail head t h'
  end.

(** [std::distance(first, last)] walks a copy of [first] up to [last].  A
    multi-pass range is still whole afterwards.  A single-pass range
    ([std::istream_iterator]) has been read to its end by the copy: [first]
    is left with the one value it had already read, and its next increment
    makes it equal to [last]. *)
Definition after_distance (c : iterator_category) (input : list A) : list A :=
  match c with
  | multi_pass => input
  | single_pass => firstn 1 input
  end.

(** [List(InputIt first, InputIt last)]: [buf.reserve(std::distance(first,
    last))], then the loop over what is left of the range. *)
Definition List_range (c : iterator_category) (input : list A) (h : heap A)
    : List A * heap A :=
  let buf := List.map Some (after_distance c input) in
  toList (Z.of_nat (length buf)) (rev buf) h.

(** [List(const List&) = default] *)
Definition List_copy (that : List A) : List A :=
  mkList (size_ that) (node_ that).

(** [List(List&&) = default]: [size_] is copied and [node_] is moved, which
    leaves the pointer of the source null.  The result is the new list and
    the source as the call leaves it. *)
Definition List_move (that : List A) : List A * List A :=
  (mkList (size_ that) (node_ that), mkList (size_ that) None).

(** [operator=(const List&) = default]: the list assigned to, after the
    call. *)
Definition assign_copy (this that : List A) : List A :=
  mkList (size_ that) (node_ that).

(** [operator=(List&&) = default]: the list assigned to and the source,
    after the call.  Moving a [shared_ptr] into itself leaves it as it
    was. *)
Definition assign_move (same_object : bool) (this that : List A)
    : List A * List A :=
  if same_object then (that, that)
  else (mkList (size_ that) (node_ that), mkList (size_ that) None).

Definition isEmpty (xs : List A) : bool := (size_ xs =? 0)%Z.

Definition size (xs : List A) : Z := size_ xs.

Definition head (xs : List A) (h : heap A) : outcome A :=
  if isEmpty xs then Throw (out_of_range "head of empty list")
  else nd <- load h (node_ xs) ;; deref (Node.head nd).

Definition tail (xs : List A) (h : heap A) : outcome (List A) :=
  if isEmpty xs then Throw (out_of_range "tail of empty list")
  else nd <- load h (node_ xs) ;;
       Ok (mkList (wrap (size xs - 1)) (Node.tail nd)).

Definition uncons (xs : List A) (h : heap A) : outcome (A * List A) :=
  if isEmpty xs then Throw (out_of_range "uncons on empty list")
  else x <- head xs h ;; t <- tail xs h ;; Ok (x, t).

(** The loop of [operator[]] and of [drop]: [k] times [n = n->tail]. *)
Fixpoint advance (h : heap A) (k : nat) (n : option addr)
    : outcome (option addr) :=
  match k with
  | O => Ok n
  | S k' => nd <- load h n ;; advance h k' (Node.tail nd)
  end.

(** [operator[]] *)
Definition op_index (xs : List A) (index : Z) (h : heap A) : outcome A :=
  if (index >=? size xs)%Z then Throw (out_of_range "index out of range")
  else n <- advance h (Z.to_nat index) (node_ xs) ;;
       nd <- load h n ;; deref (Node.head nd).

Definition last (xs : List A) (h : heap A) : outcome A :=
  if isEmpty xs then Throw (out_of_range "last of empty list")
  else op_index xs (wrap (size xs - 1)) h.

(** The loop of [take]: [n] times, push [nd->head] and step. *)
Fixpoint take_loop (h : heap A) (n : nat) (nd : option addr)
    (buf : list (option A)) : outcome (list (option A)) :=
  match n with
  | O => Ok buf
  | S n' =>
      node <- load h nd ;;
      take_loop h n' (Node.tail node) (buf ++ [Node.head node])
  end.

Definition take (xs : List A) (n : Z) (h : heap A)
    : outcome (List A * heap A) :=
  let n := Z.min n (size xs) in
  buf <- take_loop h (Z.to_nat n) (node_ xs) [] ;;
  Ok (toList (Z.of_nat (length buf)) (rev buf) h).

Definition init (xs : List A) (h : heap A) : outcome (List A * heap A) :=
  if isEmpty xs then Throw (out_of_range "init of empty list")
  else take xs (wrap (size xs - 1)) h.

Definition filter (p : A -> bool) (xs : List A) (h : heap A)
    : outcome (List A * heap A) :=
  buf <- foreachImpl (fuel_of h) h
           (fun x buf => Ok (if p x then buf ++ [x] else buf))
           (node_ xs) [] ;;
  Ok (toList (Z.of_nat (length buf)) (rev (List.map Some buf)) h).

Definition filterNot (p : A -> bool) (xs : List A) (h : heap A)
    : outcome (List A * heap A) :=
  filter (fun x => negb (p x)) xs h.

Definition reverse (xs : List A) (h : heap A) : outcome (List A * heap A) :=
  '(hd, h') <- foreachImpl (fuel_of h) h
                 (fun x (s : option addr * heap A) =>
                    Ok (NodeOps.create2 (Some x) (fst s) (snd s)))
                 (node_ xs) (NodeOps.create h) ;;
  Ok (mkList (size xs) hd, h').

Definition drop (xs : List A) (n : Z) (h : heap A)
    : outcome (List A * heap A) :=
  if (n >=? size xs)%Z then Ok (List_empty h)
  else pn <- advance h (Z.to_nat n) (node_ xs) ;;
       Ok (mkList (wrap (size xs - n)) pn, h).

Definition takeRight (xs : List A) (n : Z) (h : heap A)
    : outcome (List A * heap A) :=
  drop xs (wrap (size xs - Z.min n (size xs))) h.

Definition dropRight (xs : List A) (n : Z) (h : heap A)
    : outcome (List A * heap A) :=
  take xs (wrap (size xs - Z.min n (size xs))) h.

Fixpoint takeWhile_loop (fuel : nat) (h : heap A) (p : A -> bool)
    (n : option addr) (buf : list (option A)) : outcome (list (option A)) :=
  match fuel with
  | O => OutOfFuel
  | S k =>
      nd <- load h n ;;
      match Node.head nd with
      | None => Ok buf
      | Some x =>
          if p x then takeWhile_loop k h p (Node.tail nd) (buf ++ [Node.head nd])
          else Ok buf
      end
  end.

Definition takeWhile (p : A -> bool) (xs : List A) (h : heap A)
    : outcome (List A * heap A) :=
  buf <- takeWhile_loop (fuel_of h) h p (node_ xs) [] ;;
  Ok (toList (Z.of_nat (length buf)) (rev buf) h).

Fixpoint dropWhile_loop (fuel : nat) (h : heap A) (p : A -> bool)
    (s : Z) (pn : option addr) : outcome (Z * option addr) :=
  match fuel with
  | O => OutOfFuel
  | S k =>
      nd <- load h pn ;;
      match Node.head nd with
      | None => Ok (s, pn)
      | Some x =>
          if p x then dropWhile_loop k h p (wrap (s - 1)) (Node.tail nd)
          else Ok (s, pn)
      end
  end.

Definition dropWhile (p : A -> bool) (xs : List A) (h : heap A)
    : outcome (List A * heap A) :=
  '(s, pn) <- dropWhile_loop (fuel_of h) h p (size xs) (node_ xs) ;;
  Ok (mkList s pn, h).

Definition slice (xs : List A) (from until : Z) (h : heap A)
    : outcome (List A * heap A) :=
  if (from >=? until)%Z then Ok (List_empty h)
  else '(d, h') <- drop xs from h ;; take d (wrap (until - from)) h'.

(** [prepend(args...)]: [x] is the value constructed from [args]. *)
Definition prepend (xs : List A) (x : A) (h : heap A) : List A * heap A :=
  let (n, h') := NodeOps.create2 (Some x) (node_ xs) h in
  (mkList (wrap (size xs + 1)) n, h').

Definition concat (xs that : List A) (h : heap A)
    : outcome (List A * heap A) :=
  if isEmpty xs then Ok (that, h)
  else if isEmpty that then Ok (xs, h)
  else
    buf <- foreachImpl (fuel_of h) h push_back (node_ xs) [] ;;
    Ok (toList_from (wrap (size xs + size that)) (rev (List.map Some buf))
          (node_ that) h).

(** The loop of [updated]: [index] times, push [n->head] and step. *)
Fixpoint updated_loop (h : heap A) (index : nat) (n : option addr)
    (buf : list (option A)) : outcome (list (option A) * option addr) :=
  match index with
  | O => Ok (buf, n)
  | S i =>
      nd <- load h n ;;
      updated_loop h i (Node.tail nd) (buf ++ [Node.head nd])
  end.

(** [updated(index, args...)]: [v] is the value constructed from [args]. *)
Definition updated (xs : List A) (index : Z) (v : A) (h : heap A)
    : outcome (List A * heap A) :=
  if (index >=? size xs)%Z then Throw (out_of_range "index out of range")
  else
    '(buf, n) <- updated_loop h (Z.to_nat index) (node_ xs) [] ;;
    nd <- load h n ;;
    let (hd, h') := NodeOps.create2 (Some v) (Node.tail nd) h in
    Ok (toList_from (size xs) (rev buf) hd h').

Definition foldLeft {B : Type} (z : B) (op : B -> A -> B) (xs : List A)
    (h : heap A) : outcome B :=
  foreachImpl (fuel_of h) h (fun x z => Ok (op z x)) (node_ xs) z.

Definition fold (z : A) (op : A -> A -> A) (xs : List A) (h : heap A)
    : outcome A :=
  foldLeft z op xs h.

Definition foldRight {B : Type} (z : B) (op : A -> B -> B) (xs : List A)
    (h : heap A) : outcome B :=
  buf <- foreachImpl (fuel_of h) h push_back (node_ xs) [] ;;
  Ok (fold_left (fun z x => op x z) (rev buf) z).

Definition reduceLeft (op : A -> A -> A) (xs : List A) (h : heap A)
    : outcome A :=
  if isEmpty xs then Throw (out_of_range "reduceLeft on empty list")
  else t <- tail xs h ;; x <- head xs h ;; foldLeft x op t h.

Definition reduce (op : A -> A -> A) (xs : List A) (h : heap A)
    : outcome A :=
  if isEmpty xs then Throw (out_of_range "reduce on empty list")
  else reduceLeft op xs h.

(** [buf.back()] of an empty vector is undefined. *)
Definition reduceRight (op : A -> A -> A) (xs : List A) (h : heap A)
    : outcome A :=
  if isEmpty xs then Throw (out_of_range "reduceRight on empty list")
  else
    buf <- foreachImpl (fuel_of h) h push_back (node_ xs) [] ;;
    match rev buf with
    | [] => Undefined
    | acc :: rs => Ok (fold_left (fun acc x => op x acc) rs acc)
    end.

(** [sorted(lt, stable)]; [std::sort] and [std::stable_sort] come from the
    standard library.  The buffer holds the non-null pointers [foreachImpl]
    hands out, and [comp] compares their pointees with [lt]. *)
Definition sorted (alg : StdAlgorithm A) (lt : A -> A -> bool) (stable : bool)
    (xs : List A) (h : heap A) : outcome (List A * heap A) :=
  buf <- foreachImpl (fuel_of h) h push_back (node_ xs) [] ;;
  let buf' := if stable then std_stable_sort alg lt buf
              else std_sort alg lt buf in
  Ok (toList (size xs) (rev (List.map Some buf')) h).

(** [sorted(stable)]: the comparator is [A]'s [operator<]. *)
Definition sorted_default (alg : StdAlgorithm A) (A_lt : A -> A -> bool)
    (stable : bool) (xs : List A) (h : heap A) : outcome (List A * heap A) :=
  sorted alg A_lt stable xs h.

(** [exists] and [forall].  The predicate is user code and may have effects
    of its own (on a state [U]), so that it shows whether it was applied. *)
Fixpoint exists_loop {U : Type} (fuel : nat) (h : heap A)
    (p : A -> U -> bool * U) (n : option addr) (u : U) : outcome (bool * U) :=
  match fuel with
  | O => OutOfFuel
  | S k =>
      nd <- load h n ;;
      match Node.head nd with
      | None => Ok (false, u)
      | Some x =>
          let (b, u') := p x u in
          if b then Ok (true, u') else exists_loop k h p (Node.tail nd) u'
      end
  end.

Definition exists_ {U : Type} (p : A -> U -> bool * U) (xs : List A) (u : U)
    (h : heap A) : outcome (bool * U) :=
  exists_loop (fuel_of h) h p (node_ xs) u.

Fixpoint forall_loop {U : Type} (fuel : nat) (h : heap A)
    (p : A -> U -> bool * U) (n : option addr) (u : U) : outcome (bool * U) :=
  match fuel with
  | O => OutOfFuel
  | S k =>
      nd <- load h n ;;
      match Node.head nd with
      | None => Ok (true, u)
      | Some x =>
          let (b, u') := p x u in
          if negb b then Ok (false, u') else forall_loop k h p (Node.tail nd) u'
      end
  end.

Definition forall_ {U : Type} (p : A -> U -> bool * U) (xs : List A) (u : U)
    (h : heap A) : outcome (bool * U) :=
  forall_loop (fuel_of h) h p (node_ xs) u.

(** A predicate without effects. *)
Definition pure_pred (p : A -> bool) : A -> unit -> bool * unit :=
  fun x u => (p x, u).

(** [operator==]; [A_ne] is [A]'s [operator!=], [same_object] is
    [this == &that]. *)
Fixpoint eq_loop (fuel : nat) (h : heap A) (A_ne : A -> A -> bool)
    (n1 n2 : option addr) : outcome bool :=
  match fuel with
  | O => OutOfFuel
  | S k =>
      nd1 <- load h n1 ;;
      match Node.head nd1 with
      | None => Ok true
      | Some x =>
          nd2 <- load h n2 ;;
          y <- deref (Node.head nd2) ;;
          if A_ne x y then Ok false
          else eq_loop k h A_ne (Node.tail nd1) (Node.tail nd2)
      end
  end.

Definition op_eq (A_ne : A -> A -> bool) (same_object : bool)
    (xs that : List A) (h : heap A) : outcome bool :=
  if same_object then Ok true
  else if negb (size xs =? size that)%Z then Ok false
  else eq_loop (fuel_of h) h A_ne (node_ xs) (node_ that).

Definition op_ne (A_ne : A -> A -> bool) (same_object : bool)
    (xs that : List A) (h : heap A) : outcome bool :=
  b <- op_eq A_ne same_object xs that h ;; Ok (negb b).

(** [foreach(f)]: [f] is applied for its side effect, a transition on a
    state [U] of its own. *)
Definition foreach {U : Type} (f : A -> U -> U) (xs : List A) (u : U)
    (h : heap A) : outcome U :=
  foreachImpl (fuel_of h) h (fun x u => Ok (f x u)) (node_ xs) u.

(** [contains(x)]; [A_eq] is [A]'s [operator==]. *)
Fixpoint contains_loop (fuel : nat) (h : heap A) (A_eq : A -> A -> bool)
    (x : A) (n : option addr) : outcome bool :=
  match fuel with
  | O => OutOfFuel
  | S k =>
      nd <- load h n ;;
      match Node.head nd with
      | None => Ok false
      | Some y =>
          if A_eq y x then Ok true
          else contains_loop k h A_eq x (Node.tail nd)
      end
  end.

Definition contains (A_eq : A -> A -> bool) (x : A) (xs : List A)
    (h : heap A) : outcome bool :=
  contains_loop (fuel_of h) h A_eq x (node_ xs).

(** [count(const A& x)]: [num] is a [std::size_t]. *)
Definition count (A_eq : A -> A -> bool) (x : A) (xs : List A) (h : heap A)
    : outcome Z :=
  foreachImpl (fuel_of h) h
    (fun y num => Ok (if A_eq y x then wrap (num + 1) else num))
    (node_ xs) 0%Z.

(** [count(Fn p)] *)
Definition count_if (p : A -> bool) (xs : List A) (h : heap A) : outcome Z :=
  foreachImpl (fuel_of h) h
    (fun y num => Ok (if p y then wrap (num + 1) else num))
    (node_ xs) 0%Z.

(** [sum()]: [A_zero] is [A] made from [0], [A_add] is [A]'s [+=]. *)
Definition sum (A_zero : A) (A_add : A -> A -> A) (xs : List A) (h : heap A)
    : outcome A :=
  foreachImpl (fuel_of h) h (fun x acc => Ok (A_add acc x)) (node_ xs) A_zero.

(** [product()]: [A_one] is [A] made from [1], [A_mul] is [A]'s [*=]. *)
Definition product (A_one : A) (A_mul : A -> A -> A) (xs : List A)
    (h : heap A) : outcome A :=
  foreachImpl (fuel_of h) h (fun x acc => Ok (A_mul acc x)) (node_ xs) A_one.

End Handle.

(** Operations whose result has another element type.  [List<A>::Node] and
    [List<B>::Node] are different classes: the source is read in its store
    and the result allocated in the store of [B] (which is the same store
    when [B] is [A]; the source is only read). *)
Section Transform.

Context {A B : Type}.

Definition map (f : A -> B) (xs : List A) (hA : heap A) (hB : heap B)
    : outcome (List B * heap B) :=
  buf <- foreachImpl (fuel_of hA) hA
           (fun x buf => Ok (buf ++ [Some (f x)])) (node_ xs) [] ;;
  Ok (toList (size xs) (rev buf) hB).

(** [flatMap(f)]: [f] is user code returning a list; it may allocate. *)
Definition flatMap (f : A -> heap B -> outcome (List B * heap B))
    (xs : List A) (hA : heap A) (hB : heap B) : outcome (List B * heap B) :=
  '(buf, hB') <- foreachImpl (fuel_of hA) hA
       (fun x (s : list B * heap B) =>
          '(ys, hB1) <- f x (snd s) ;;
          buf' <- foreachImpl (fuel_of hB1) hB1 push_back (node_ ys) (fst s) ;;
          Ok (buf', hB1))
       (node_ xs) ([], hB) ;;
  Ok (toList (Z.of_nat (length buf)) (rev (List.map Some buf)) hB').

(** The loop of [zip]: [s] times, pair the two heads and step both. *)
Fixpoint zip_loop (hA : heap A) (hB : heap B) (s : nat)
    (n1 n2 : option addr) (buf : list (option (A * B)))
    : outcome (list (option (A * B))) :=
  match s with
  | O => Ok buf
  | S s' =>
      nd1 <- load hA n1 ;;
      nd2 <- load hB n2 ;;
      x <- deref (Node.head nd1) ;;
      y <- deref (Node.head nd2) ;;
      zip_loop hA hB s' (Node.tail nd1) (Node.tail nd2) (buf ++ [Some (x, y)])
  end.

Definition zip (xs : List A) (that : List B) (hA : heap A) (hB : heap B)
    (hAB : heap (A * B)) : outcome (List (A * B) * heap (A * B)) :=
  let s := Z.min (size xs) (size that) in
  buf <- zip_loop hA hB (Z.to_nat s) (node_ xs) (node_ that) [] ;;
  Ok (toList (Z.of_nat (length buf)) (rev buf) hAB).

(** [acc.back()] of an empty vector is undefined. *)
Definition scanLeft (z : B) (op : B -> A -> B) (xs : List A) (hA : heap A)
    (hB : heap B) : outcome (List B * heap B) :=
  acc <- foreachImpl (fuel_of hA) hA
           (fun x acc =>
              match rev acc with
              | [] => Undefined
              | b :: _ => Ok (acc ++ [op b x])
              end)
           (node_ xs) [z] ;;
  Ok (toList (wrap (size xs + 1)) (rev (List.map Some acc)) hB).

(** The loop of [scanRight] over the reversed buffer. *)
Fixpoint scanRight_loop (op : A -> B -> B) (rs : list A) (hd : option addr)
    (h : heap B) : outcome (option addr * heap B) :=
  match rs with
  | [] => Ok (hd, h)
  | x :: rs' =>
      nd <- load h hd ;;
      b <- deref (Node.head nd) ;;
      let (hd', h') := NodeOps.create2 (Some (op x b)) hd h in
      scanRight_loop op rs' hd' h'
  end.

Definition scanRight (z : B) (op : A -> B -> B) (xs : List A) (hA : heap A)
    (hB : heap B) : outcome (List B * heap B) :=
  buf <- foreachImpl (fuel_of hA) hA push_back (node_ xs) [] ;;
  let (nil, h0) := NodeOps.create hB in
  let (hd, h1) := NodeOps.create2 (Some z) nil h0 in
  '(hd', h') <- scanRight_loop op (rev buf) hd h1 ;;
  Ok (mkList (wrap (size xs + 1)) hd', h').

End Transform.

(** [flatten()]: the elements are list handles. *)
Definition flatten {B : Type} (xs : List (List B)) (hL : heap (List B))
    (hB : heap B) : outcome (List B * heap B) :=
  buf <- foreachImpl (fuel_of hL) hL
           (fun ys buf => foreachImpl (fuel_of hB) hB push_back (node_ ys) buf)
           (node_ xs) [] ;;
  Ok (toList (Z.of_nat (length buf)) (rev (List.map Some buf)) hB).

(** [scan(z, op)] *)
Definition scan {A : Type} (z : A) (op : A -> A -> A) (xs : List A)
    (h : heap A) : outcome (List A * heap A) :=
  scanLeft z op xs h h.

(** [cref()]: a [std::reference_wrapper<const A>] stands for the element it
    refers to. *)
Definition cref {A : Type} (xs : List A) (hA hR : heap A)
    : outcome (List A * heap A) :=
  map (fun x => x) xs hA hR.

End gungnir.

(** ** Reading a list off the store *)

(** The Cons nodes reachable from [p], with their addresses and elements, and
    the address of the terminating Nil node.  A tail is an older node than
    the node that holds it (it existed when the node was created). *)
Fixpoint chain {A : Type} (fuel : nat) (h : heap A) (p : option addr)
    : option (list (addr * A) * addr) :=
  match fuel, p with
  | S k, Some a =>
      match nth_error h a with
      | Some (Node.mk None _) => Some ([], a)
      | Some (Node.mk (Some x) (Some t)) =>
          if t <? a then
            match chain k h (Some t) with
            | Some (cs, z) => Some ((a, x) :: cs, z)
            | None => None
            end
          else None
      | _ => None
      end
  | _, _ => None
  end.

(** The elements of [xs], when [xs] is a well-formed handle in [h]: its chain
    ends in a Nil node and its cached size, a [std::size_t], is the number of
    Cons nodes. *)
Definition view {A : Type} (h : heap A) (xs : gungnir.List A)
    : option (list A) :=
  match chain (fuel_of h) h (gungnir.node_ xs) with
  | Some (cs, _) =>
      if ((gungnir.size_ xs =? Z.of_nat (length cs))
          && (gungnir.size_ xs <? size_t_modulus))%Z
      then Some (map snd cs) else None
  | None => None
  end.

(** The addresses of the nodes of [xs], the Nil node included. *)
Definition nodes {A : Type} (h : heap A) (xs : gungnir.List A)
    : option (list addr) :=
  match chain (fuel_of h) h (gungnir.node_ xs) with
  | Some (cs, z) => Some (map fst cs ++ [z])
  | None => None
  end.

(** The number of Cons nodes reachable from [p] before the terminating Nil. *)
Fixpoint cons_count {A : Type} (fuel : nat) (h : heap A) (p : option addr)
    : option nat :=
  match fuel, p with
  | S k, Some a =>
      match nth_error h a with
      | Some (Node.mk None _) => Some O
      | Some (Node.mk (Some _) t) => option_map S (cons_count k h t)
      | None => None
      end
  | _, _ => None
  end.

Definition root_is_Nil {A : Type} (h : heap A) (xs : gungnir.List A) : bool :=
  match load h (gungnir.node_ xs) with
  | Ok (Node.mk None _) => true
  | _ => false
  end.

(** The invariant of the handle, as the specification words it. *)
Definition handle_invariant {A : Type} (h : heap A) (xs : gungnir.List A)
    : Prop :=
  (exists k, cons_count (fuel_of h) h (gungnir.node_ xs) = Some k
             /\ gungnir.size_ xs = Z.of_nat k)
  /\ (gungnir.size_ xs = 0%Z <-> root_is_Nil h xs = true).

(** [h'] is [h] after some allocations. *)
Definition extends {A : Type} (h h' : heap A) : Prop :=
  exists e, h' = h ++ e.

(** The store fits the address space. *)
Definition addressable {A : Type} (h : heap A) : Prop :=
  (Z.of_nat (length h) <= size_t_modulus)%Z.

(** A monadic left fold: what [foreachImpl] computes on a chain. *)
Fixpoint foldM {X St : Type} (f : X -> St -> outcome St) (l : list X) (s : St)
    : outcome St :=
  match l with
  | [] => Ok s
  | x :: l' => s' <- f x s ;; foldM f l' s'
  end.

(** ** Chains *)

Inductive Chain {A : Type} (h : heap A)
    : option addr -> list (addr * A) -> addr -> Prop :=
| Chain_Nil : forall a t,
    nth_error h a = Some (Node.mk None t) ->
    Chain h (Some a) [] a
| Chain_Cons : forall a x t cs z,
    nth_error h a = Some (Node.mk (Some x) (Some t)) ->
    t < a ->
    Chain h (Some t) cs z ->
    Chain h (Some a) ((a, x) :: cs) z.

(** [xs] is a well-formed handle in [h] with elements [l]. *)
Definition Repr {A : Type} (h : heap A) (xs : gungnir.List A) (l : list A)
    : Prop :=
  exists cs z,
    Chain h (gungnir.node_ xs) cs z /\ map snd cs = l
    /\ gungnir.size_ xs = Z.of_nat (length l)
    /\ (Z.of_nat (length l) < size_t_modulus)%Z.

(** What [exists] and [forall] do to the state of an effectful predicate. *)
Fixpoint exists_run {A U : Type} (p : A -> U -> bool * U) (l : list A) (u : U)
    : bool * U :=
  match l with
  | [] => (false, u)
  | x :: l' =>
      let (b, u') := p x u in
      if b then (true, u') else exists_run p l' u'
  end.

Fixpoint forall_run {A U : Type} (p : A -> U -> bool * U) (l : list A) (u : U)
    : bool * U :=
  match l with
  | [] => (true, u)
  | x :: l' =>
      let (b, u') := p x u in
      if negb b then (false, u') else forall_run p l' u'
  end.

(** Element-wise comparison with [operator!=], as [operator==] does it on
    lists of equal size. *)
Definition all_eq {A : Type} (A_ne : A -> A -> bool) (l1 l2 : list A) : bool :=
  forallb (fun xy => negb (A_ne (fst xy) (snd xy))) (combine l1 l2).

(** Sample lists of the tests: [List<int>(1, 2, 4, 5, 6)] built in an empty
    store, the empty list [List<int>()], and [List<int>(123)]. *)
Definition sample : gungnir.List Z * heap Z :=
  gungnir.List_variadic 1%Z [2; 4; 5; 6]%Z [].

Definition sample_empty : gungnir.List Z * heap Z := gungnir.List_empty [].

Definition sample_single : gungnir.List Z * heap Z :=
  gungnir.List_single 123%Z [].

(** [x % 2 == 0] *)
Definition even (x : Z) : bool := (Z.rem x 2 =? 0)%Z.

(** [operator!=] of [int]. *)
Definition int_ne (x y : Z) : bool := negb (x =? y)%Z.

(** Two calls that return lists with the same elements. *)
Definition same_list {A : Type} (r1 r2 : outcome (gungnir.List A * heap A))
    : Prop :=
  exists ys h1 zs h2 l,
    r1 = Ok (ys, h1) /\ r2 = Ok (zs, h2)
    /\ view h1 ys = Some l /\ view h2 zs = Some l.

(** [takeRight] and [dropRight] as the specification words them:
    [drop(size - n)] and [take(size - n)], the subtraction being that of
    [std::size_t]. *)
Definition takeRight_spec {A : Type} (xs : gungnir.List A) (n : Z)
    (h : heap A) : outcome (gungnir.List A * heap A) :=
  gungnir.drop xs (wrap (gungnir.size xs - n)) h.

Definition dropRight_spec {A : Type} (xs : gungnir.List A) (n : Z)
    (h : heap A) : outcome (gungnir.List A * heap A) :=
  gungnir.take xs (wrap (gungnir.size xs - n)) h.

(** ** Sorting *)

(** [x] and [y] are equivalent for the comparator: neither is less. *)
Definition incomparable {A : Type} (lt : A -> A -> bool) (x y : A) : bool :=
  negb (lt x y) && negb (lt y x).

(** The requirement of the standard on a comparator. *)
Definition strict_weak_order {A : Type} (lt : A -> A -> bool) : Prop :=
  (forall x, lt x x = false)
  /\ (forall x y z, lt x y = true -> lt y z = true -> lt x z = true)
  /\ (forall x y z, incomparable lt x y = true -> incomparable lt y z = true ->
        incomparable lt x z = true).

(** Sorted in ascending order: no element is less than an earlier one. *)
Definition ascending {A : Type} (lt : A -> A -> bool) (l : list A) : Prop :=
  StronglySorted (fun x y => lt y x = false) l.

(** [l'] keeps the elements of each equivalence class in the order they have
    in [l]. *)
Definition stable_wrt {A : Type} (lt : A -> A -> bool) (l' l : list A)
    : Prop :=
  forall x, filter (incomparable lt x) l' = filter (incomparable lt x) l.

(** What the standard promises of [std::sort] and [std::stable_sort] when
    the comparator is a strict weak order. *)
Definition conforming {A : Type} (alg : StdAlgorithm A) : Prop :=
  forall lt l, strict_weak_order lt ->
    (Permutation (std_sort alg lt l) l /\ ascending lt (std_sort alg lt l))
    /\ (Permutation (std_stable_sort alg lt l) l
        /\ ascending lt (std_stable_sort alg lt l)
        /\ stable_wrt lt (std_stable_sort alg lt l) l).

(** A conforming implementation: insertion sort, and for [std::sort] an
    insertion sort of the reversed range, which is not stable. *)
Fixpoint insert {A : Type} (lt : A -> A -> bool) (x : A) (l : list A)
    : list A :=
  match l with
  | [] => [x]
  | y :: l' => if lt y x then y :: insert lt x l' else x :: y :: l'
  end.

Definition insertion_sort {A : Type} (lt : A -> A -> bool) (l : list A)
    : list A :=
  fold_right (insert lt) [] l.

Definition insertion_alg (A : Type) : StdAlgorithm A :=
  mkStd (fun lt l => insertion_sort lt (rev l)) insertion_sort.

(** [List<int>(3, 1, 2)] *)
Definition sample_unsorted : gungnir.List Z * heap Z :=
  gungnir.List_variadic 3%Z [1; 2]%Z [].

(** ** Functional readings of the loops *)

(** The longest prefix whose elements satisfy [p], and what follows it. *)
Fixpoint prefix_while {A : Type} (p : A -> bool) (l : list A) : list A :=
  match l with
  | [] => []
  | x :: l' => if p x then x :: prefix_while p l' else []
  end.

Fixpoint suffix_from {A : Type} (p : A -> bool) (l : list A) : list A :=
  match l with
  | [] => []
  | x :: l' => if p x then suffix_from p l' else l
  end.

(** The intermediate results of a left fold, the start value first. *)
Fixpoint scan_left {A B : Type} (op : B -> A -> B) (l : list A) (z : B)
    : list B :=
  z :: match l with
       | [] => []
       | x :: l' => scan_left op l' (op z x)
       end.

(** The intermediate results of a right fold, the start value last. *)
Definition scan_step {A B : Type} (op : A -> B -> B) (x : A) (acc : list B)
    : list B :=
  match acc with
  | b :: _ => op x b :: acc
  | [] => []
  end.

Definition scan_right {A B : Type} (op : A -> B -> B) (l : list A) (z : B)
    : list B :=
  fold_right (scan_step op) [z] l.

(** ** Public calls that produce a list *)

(** A call that does not allocate, as a computation on the store. *)
Definition keep {B X : Type} (m : heap B -> outcome X)
    : heap B -> outcome (X * heap B) :=
  fun h => x <- m h ;; Ok (x, h).

(** A call that cannot fail. *)
Definition total {B X : Type} (m : heap B -> X * heap B)
    : heap B -> outcome (X * heap B) :=
  fun h => Ok (m h).

(** [xs] is a well-formed handle in [h]. *)
Definition valid {A : Type} (h : heap A) (xs : gungnir.List A) : Prop :=
  exists l, view h xs = Some l.

(** User code that returns a list, called in a store that extends [h]: it
    returns a well-formed list in a store that extends the one it was called
    in, or throws. *)
Definition list_fn {A B : Type} (h : heap B)
    (f : A -> heap B -> outcome (gungnir.List B * heap B)) : Prop :=
  forall x hb, extends h hb ->
    match f x hb with
    | Ok (ys, hb') => extends hb hb' /\ valid hb' ys
    | Throw _ => True
    | _ => False
    end.

(** Every public constructor, the two assignment operators and every public
    operation that returns a list, applied to well-formed lists and to
    sizes, in the store [h] of the element type of the result.  For the move
    constructor and the assignments the list produced is the one constructed
    or assigned to. *)
Inductive public_call
    : forall B : Type,
      heap B -> (heap B -> outcome (gungnir.List B * heap B)) -> Prop :=
| call_List_empty B (h : heap B) :
    public_call _ h (total gungnir.List_empty)
| call_List_single B (h : heap B) x :
    public_call _ h (total (gungnir.List_single x))
| call_List_head_tail B (h : heap B) x t :
    valid h t -> public_call _ h (total (gungnir.List_head_tail x t))
| call_List_variadic B (h : heap B) x tl :
    public_call _ h (total (gungnir.List_variadic x tl))
| call_List_range B (h : heap B) c input :
    public_call _ h (total (gungnir.List_range c input))
| call_List_copy B (h : heap B) xs :
    valid h xs -> public_call _ h (fun h => Ok (gungnir.List_copy xs, h))
| call_tail B (h : heap B) xs :
    valid h xs -> public_call _ h (keep (gungnir.tail xs))
| call_uncons B (h : heap B) xs :
    valid h xs ->
    public_call _ h (keep (fun h => p <- gungnir.uncons xs h ;; Ok (snd p)))
| call_init B (h : heap B) xs :
    valid h xs -> public_call _ h (gungnir.init xs)
| call_map A B (h : heap B) (hA : heap A) (f : A -> B) xs :
    valid hA xs -> public_call _ h (gungnir.map f xs hA)
| call_filter B (h : heap B) p xs :
    valid h xs -> public_call _ h (gungnir.filter p xs)
| call_filterNot B (h : heap B) p xs :
    valid h xs -> public_call _ h (gungnir.filterNot p xs)
| call_reverse B (h : heap B) xs :
    valid h xs -> public_call _ h (gungnir.reverse xs)
| call_take B (h : heap B) xs n :
    valid h xs -> is_size_t n -> public_call _ h (gungnir.take xs n)
| call_takeRight B (h : heap B) xs n :
    valid h xs -> is_size_t n -> public_call _ h (gungnir.takeRight xs n)
| call_takeWhile B (h : heap B) p xs :
    valid h xs -> public_call _ h (gungnir.takeWhile p xs)
| call_drop B (h : heap B) xs n :
    valid h xs -> is_size_t n -> public_call _ h (gungnir.drop xs n)
| call_dropRight B (h : heap B) xs n :
    valid h xs -> is_size_t n -> public_call _ h (gungnir.dropRight xs n)
| call_dropWhile B (h : heap B) p xs :
    valid h xs -> public_call _ h (gungnir.dropWhile p xs)
| call_slice B (h : heap B) xs from until :
    valid h xs -> is_size_t from -> is_size_t until ->
    public_call _ h (gungnir.slice xs from until)
| call_flatMap A B (h : heap B) (hA : heap A) f xs :
    valid hA xs -> list_fn h f -> public_call _ h (gungnir.flatMap f xs hA)
| call_flatten B (h : heap B) (hL : heap (gungnir.List B)) xs ll :
    view hL xs = Some ll -> Forall (valid h) ll ->
    public_call _ h (gungnir.flatten xs hL)
| call_prepend B (h : heap B) xs x :
    valid h xs -> public_call _ h (total (gungnir.prepend xs x))
| call_concat B (h : heap B) xs that :
    valid h xs -> valid h that -> public_call _ h (gungnir.concat xs that)
| call_updated B (h : heap B) xs index v :
    valid h xs -> is_size_t index ->
    public_call _ h (gungnir.updated xs index v)
| call_sorted B (h : heap B) alg lt stable xs :
    conforming alg -> strict_weak_order lt -> valid h xs ->
    public_call _ h (gungnir.sorted alg lt stable xs)
| call_sorted_default B (h : heap B) alg A_lt stable xs :
    conforming alg -> strict_weak_order A_lt -> valid h xs ->
    public_call _ h (gungnir.sorted_default alg A_lt stable xs)
| call_cref B (h hA : heap B) xs :
    valid hA xs -> public_call _ h (gungnir.cref xs hA)
| call_zip A B (h : heap (A * B)) (hA : heap A) (hB : heap B) xs that :
    valid hA xs -> valid hB that ->
    public_call _ h (gungnir.zip xs that hA hB)
| call_scan B (h : heap B) z op xs :
    valid h xs -> public_call _ h (gungnir.scan z op xs)
| call_scanLeft A B (h : heap B) (hA : heap A) z (op : B -> A -> B) xs :
    valid hA xs -> public_call _ h (gungnir.scanLeft z op xs hA)
| call_scanRight A B (h : heap B) (hA : heap A) z (op : A -> B -> B) xs :
    valid hA xs -> public_call _ h (gungnir.scanRight z op xs hA)
| call_List_move B (h : heap B) xs :
    valid h xs -> public_call _ h (fun h => Ok (fst (gungnir.List_move xs), h))
| call_assign_copy B (h : heap B) this that :
    valid h that ->
    public_call _ h (fun h => Ok (gungnir.assign_copy this that, h))
| call_assign_move B (h : heap B) same_object this that :
    valid h that ->
    public_call _ h
      (fun h => Ok (fst (gungnir.assign_move same_object this that), h)).

Arguments public_call {B} _ _.

(** The call returns a list, in a store that extends the one it was called
    in, and the list satisfies the invariant; or it throws. *)
Definition yields_list {B : Type} (h : heap B)
    (r : outcome (gungnir.List B * heap B)) : Prop :=
  match r with
  | Ok (ys, h') =>
      extends h h'
      /\ (addressable h' -> valid h' ys /\ handle_invariant h' ys)
  | Throw _ => True
  | _ => False
  end.

(** A list of lists: [List<List<int>>(xs, ys)] with [xs] the sample list and
    [ys] its last two nodes. *)
Definition sample_nested : gungnir.List (gungnir.List Z) * heap (gungnir.List Z) :=
  gungnir.List_variadic (fst sample) [gungnir.mkList 2%Z (Some 2)] [].

(** User code for [flatMap]: [x => List<int>(x, x)]. *)
Definition twice (x : Z) (hb : heap Z) : outcome (gungnir.List Z * heap Z) :=
  Ok (gungnir.List_variadic x [x] hb).

(** [f] computes the list [g x] for each [x], in any store that extends
    [h]. *)
Definition computes {A B : Type} (h : heap B)
    (f : A -> heap B -> outcome (gungnir.List B * heap B))
    (g : A -> list B) : Prop :=
  forall x hb, extends h hb ->
    exists ys e, f x hb = Ok (ys, hb ++ e) /\ view (hb ++ e) ys = Some (g x).

(** A predicate instrumented to count its applications. *)
Definition counting {A : Type} (p : A -> bool) : A -> nat -> bool * nat :=
  fun x calls => (p x, S calls).

(** [op] is associative with neutral element [e]. *)
Definition monoid {A : Type} (e : A) (op : A -> A -> A) : Prop :=
  (forall x y z, op (op x y) z = op x (op y z))
  /\ (forall x, op e x = x)
  /\ (forall x, op x e = x).

(** [operator==] of [int]. *)
Definition int_eq (x y : Z) : bool := (x =? y)%Z.

(** The handle on the last two nodes of the sample list. *)
Definition sample_suffix : gungnir.List Z := gungnir.mkList 2%Z (Some 2).

(** An element type whose [operator!=] is true of a value against itself:
    [double], cut down to NaN and the integral values.  [x != y] is true
    when either is NaN. *)
Inductive double : Type := NaN | num (z : Z).

Definition double_ne (x y : double) : bool :=
  match x, y with
  | num a, num b => negb (a =? b)%Z
  | _, _ => true
  end.

(** [List<double>(NAN)] *)
Definition sample_nan : gungnir.List double * heap double :=
  gungnir.List_single NaN [].

(** * Properties *)

Set Implicit Arguments.

Section ChainFacts.

Context {A : Type}.
Implicit Types (h : heap A) (p : option addr) (cs : list (addr * A)).

Lemma Chain_root h p cs z :
  Chain h p cs z ->
  exists a, p = Some a /\ length cs <= a /\ a < length h /\ z <= a.
Proof.
  induction 1 as [a t Hn | a x t cs z Hn Hlt Hc IH].
  - exists a. repeat split; simpl; try lia.
    apply nth_error_Some. congruence.
  - destruct IH as (b & Hb & Hlen & _ & Hz). inversion Hb; subst b.
    exists a. repeat split; simpl; try lia.
    apply nth_error_Some. congruence.
Qed.

Lemma Chain_length h p cs z : Chain h p cs z -> length cs < length h.
Proof.
  intros H. destruct (Chain_root H) as (a & _ & ? & ? & _). lia.
Qed.

Lemma Chain_ext h e p cs z : Chain h p cs z -> Chain (h ++ e) p cs z.
Proof.
  induction 1 as [a t Hn | a x t cs z Hn Hlt Hc IH].
  - apply Chain_Nil with t. rewrite nth_error_app1; auto.
    apply nth_error_Some. congruence.
  - apply Chain_Cons with t; auto. rewrite nth_error_app1; auto.
    apply nth_error_Some. congruence.
Qed.

Lemma Chain_det h p cs z :
  Chain h p cs z -> forall cs' z', Chain h p cs' z' -> cs = cs' /\ z = z'.
Proof.
  induction 1 as [a t Hn | a x t cs z Hn Hlt Hc IH]; intros cs' z' H';
    inversion H'; subst; try congruence.
  - auto.
  - match goal with
    | H1 : nth_error h a = _, H2 : nth_error h a = _ |- _ =>
        rewrite H1 in H2; inversion H2; subst
    end.
    match goal with
    | H : Chain h (Some _) _ _ |- _ => destruct (IH _ _ H); subst; auto
    end.
Qed.

Lemma chain_sound fuel h p cs z :
  chain fuel h p = Some (cs, z) -> Chain h p cs z.
Proof.
  revert p cs z. induction fuel as [|k IH]; intros p cs z; simpl.
  - discriminate.
  - destruct p as [a|]; [|discriminate].
    destruct (nth_error h a) as [[[x|] t]|] eqn:Hn; try discriminate.
    + destruct t as [t|]; [|discriminate].
      destruct (t <? a) eqn:Hlt; [|discriminate].
      destruct (chain k h (Some t)) as [[cs0 z0]|] eqn:Hc; [|discriminate].
      intros E; inversion E; subst.
      apply Chain_Cons with t; auto. now apply Nat.ltb_lt.
    + intros E; inversion E; subst. now apply Chain_Nil with t.
Qed.

Lemma chain_complete h p cs z :
  Chain h p cs z -> forall fuel, length cs < fuel ->
  chain fuel h p = Some (cs, z).
Proof.
  induction 1 as [a t Hn | a x t cs z Hn Hlt Hc IH]; intros fuel Hf;
    destruct fuel as [|k]; simpl in *; try lia; rewrite Hn.
  - reflexivity.
  - apply Nat.ltb_lt in Hlt. rewrite Hlt. rewrite IH by lia. reflexivity.
Qed.

Lemma chain_fuel_of h p cs z :
  Chain h p cs z -> chain (fuel_of h) h p = Some (cs, z).
Proof.
  intros H. apply chain_complete; auto.
  apply Chain_length in H. unfold fuel_of. lia.
Qed.

Lemma cons_count_Chain h p cs z :
  Chain h p cs z -> forall fuel, length cs < fuel ->
  cons_count fuel h p = Some (length cs).
Proof.
  induction 1 as [a t Hn | a x t cs z Hn Hlt Hc IH]; intros fuel Hf;
    destruct fuel as [|k]; simpl in *; try lia; rewrite Hn.
  - reflexivity.
  - rewrite IH by lia. reflexivity.
Qed.

(** A walk with [foreachImpl] along a chain is a fold over its elements. *)
Lemma foreachImpl_Chain {St : Type} (f : A -> St -> outcome St) h p cs z :
  Chain h p cs z -> forall fuel s, length cs < fuel ->
  gungnir.foreachImpl fuel h f p s = foldM f (map snd cs) s.
Proof.
  induction 1 as [a t Hn | a x t cs z Hn Hlt Hc IH]; intros fuel s Hf;
    destruct fuel as [|k]; simpl in *; try lia; rewrite Hn; simpl.
  - reflexivity.
  - destruct (f x s) as [s'| | |]; simpl; auto. apply IH. lia.
Qed.

Lemma foreachImpl_fuel_of {St : Type} (f : A -> St -> outcome St) h p cs z s :
  Chain h p cs z ->
  gungnir.foreachImpl (fuel_of h) h f p s = foldM f (map snd cs) s.
Proof.
  intros H. apply foreachImpl_Chain with z; auto.
  apply Chain_length in H. unfold fuel_of. lia.
Qed.

(** [k] steps along a chain reach its [k]-th suffix. *)
Lemma advance_Chain h p cs z :
  Chain h p cs z -> forall k, k <= length cs ->
  exists p', gungnir.advance h k p = Ok p' /\ Chain h p' (skipn k cs) z.
Proof.
  induction 1 as [a t Hn | a x t cs z Hn Hlt Hc IH]; intros k Hk.
  - simpl in Hk. assert (k = 0) by lia. subst k.
    exists (Some a). split; [reflexivity|]. now apply Chain_Nil with t.
  - destruct k as [|k].
    + exists (Some a). split; [reflexivity|]. now apply Chain_Cons with t.
    + simpl in Hk. destruct (IH k) as (p' & Hp & Hc'); [lia|].
      exists p'. split; auto. simpl. rewrite Hn. simpl. exact Hp.
Qed.

(** [toList]'s loop prepends the reversed buffer to the chain it is given. *)
Lemma toList_loop_Chain (vs : list A) :
  forall h p cs z, Chain h p cs z ->
  exists p' e cs',
    gungnir.toList_loop (map Some vs) p h = (p', h ++ e)
    /\ Chain (h ++ e) p' (cs' ++ cs) z
    /\ map snd cs' = rev vs
    /\ length e = length vs.
Proof.
  induction vs as [|v vs IH]; intros h p cs z Hc.
  - exists p, [], []. simpl. rewrite app_nil_r. auto.
  - simpl. destruct (Chain_root Hc) as (a & -> & _ & Ha & _).
    assert (Hc1 : Chain (h ++ [Node.mk (Some v) (Some a)]) (Some (length h))
                    ((length h, v) :: cs) z).
    { apply Chain_Cons with a; auto.
      - rewrite nth_error_app2 by lia. now rewrite Nat.sub_diag.
      - now apply Chain_ext. }
    destruct (IH _ _ _ _ Hc1) as (p' & e & cs' & He & Hc' & Hm & Hl).
    exists p', ([Node.mk (Some v) (Some a)] ++ e), (cs' ++ [(length h, v)]).
    replace (h ++ [Node.mk (Some v) (Some a)] ++ e)
      with ((h ++ [Node.mk (Some v) (Some a)]) ++ e)
      by (now rewrite <- app_assoc).
    replace ((cs' ++ [(length h, v)]) ++ cs)
      with (cs' ++ (length h, v) :: cs)
      by (now rewrite <- app_assoc).
    repeat split; auto.
    + rewrite map_app, Hm. reflexivity.
    + simpl. now rewrite Hl.
Qed.

End ChainFacts.

(** ** Well-formed handles *)

Section ReprFacts.

Context {A : Type}.
Implicit Types (h : heap A) (xs : gungnir.List A) (l : list A).

Lemma Repr_view h xs l : Repr h xs l <-> view h xs = Some l.
Proof.
  unfold Repr, view. split.
  - intros (cs & z & Hc & Hm & Hs & Hb). rewrite (chain_fuel_of Hc).
    rewrite <- Hm, length_map in Hs, Hb.
    apply Z.eqb_eq in Hs as Hs'. rewrite Hs'. rewrite Hs.
    apply Z.ltb_lt in Hb. rewrite Hb. now rewrite Hm.
  - destruct (chain (fuel_of h) h (gungnir.node_ xs)) as [[cs z]|] eqn:Hc;
      [|discriminate].
    destruct (gungnir.size_ xs =? Z.of_nat (length cs))%Z eqn:Hs;
      [|discriminate].
    destruct (gungnir.size_ xs <? size_t_modulus)%Z eqn:Hb; [|discriminate].
    intros E; inversion E; subst. apply Z.eqb_eq in Hs. apply Z.ltb_lt in Hb.
    exists cs, z. rewrite length_map. repeat split; auto.
    + eapply chain_sound; eauto.
    + now rewrite <- Hs.
Qed.

Lemma Repr_ext h e xs l : Repr h xs l -> Repr (h ++ e) xs l.
Proof.
  intros (cs & z & Hc & Hm & Hs). exists cs, z. split; auto.
  now apply Chain_ext.
Qed.

Lemma Repr_det h xs l l' : Repr h xs l -> Repr h xs l' -> l = l'.
Proof.
  intros (cs & z & Hc & Hm & _) (cs' & z' & Hc' & Hm' & _).
  destruct (Chain_det Hc Hc'). congruence.
Qed.

Lemma Repr_length h xs l : Repr h xs l -> length l < length h.
Proof.
  intros (cs & z & Hc & Hm & _). apply Chain_length in Hc.
  now rewrite <- Hm, length_map.
Qed.

Lemma Repr_size h xs l : Repr h xs l -> gungnir.size_ xs = Z.of_nat (length l).
Proof. now intros (cs & z & _ & _ & Hs & _). Qed.

Lemma Repr_size_t h xs l :
  Repr h xs l -> (Z.of_nat (length l) < size_t_modulus)%Z.
Proof. now intros (cs & z & _ & _ & _ & Hb). Qed.

(** In a store that fits the address space every chain is shorter than
    [2^64]. *)
Lemma addressable_bound h p (cs : list (addr * A)) z :
  Chain h p cs z -> addressable h ->
  (Z.of_nat (length cs) < size_t_modulus)%Z.
Proof.
  intros H Ha. apply Chain_length in H. unfold addressable in Ha. lia.
Qed.

Lemma Repr_isEmpty h xs l :
  Repr h xs l -> gungnir.isEmpty xs = match l with [] => true | _ => false end.
Proof.
  intros H. unfold gungnir.isEmpty. rewrite (Repr_size H).
  destruct l; simpl; auto.
Qed.

(** A well-formed handle satisfies the invariant as the specification words
    it. *)
Lemma Repr_invariant h xs l : Repr h xs l -> handle_invariant h xs.
Proof.
  intros (cs & z & Hc & Hm & Hs & _). rewrite <- Hm, length_map in Hs.
  split.
  - exists (length cs). split; auto. apply cons_count_Chain with z; auto.
    apply Chain_length in Hc. unfold fuel_of. lia.
  - unfold root_is_Nil. inversion Hc; subst; simpl in *.
    + match goal with H : nth_error h _ = _ |- _ => rewrite H end. tauto.
    + match goal with H : nth_error h _ = _ |- _ => rewrite H end.
      split; [lia | discriminate].
Qed.

Lemma wrap_small z : (0 <= z < size_t_modulus)%Z -> wrap z = z.
Proof. intros H. unfold wrap. now apply Z.mod_small. Qed.

Lemma wrap_range z : is_size_t (wrap z).
Proof.
  unfold is_size_t, wrap. apply Z.mod_pos_bound. reflexivity.
Qed.

(** Inversion of a chain by the shape of its elements. *)
Lemma Chain_elems_cons h p (cs : list (addr * A)) z x l :
  Chain h p cs z -> map snd cs = x :: l ->
  exists a t cs0,
    p = Some a /\ cs = (a, x) :: cs0 /\ map snd cs0 = l
    /\ nth_error h a = Some (Node.mk (Some x) (Some t))
    /\ t < a /\ Chain h (Some t) cs0 z.
Proof.
  intros Hc Hm. inversion Hc; subst; simpl in Hm; [discriminate|].
  inversion Hm; subst. eauto 10.
Qed.

Lemma Chain_elems_nil h p (cs : list (addr * A)) z :
  Chain h p cs z -> map snd cs = [] ->
  exists t, p = Some z /\ cs = [] /\ nth_error h z = Some (Node.mk None t).
Proof.
  intros Hc Hm. inversion Hc; subst; simpl in Hm; [|discriminate]. eauto.
Qed.

Lemma take_loop_Chain h p (cs : list (addr * A)) z :
  Chain h p cs z -> forall n buf, n <= length cs ->
  gungnir.take_loop h n p buf
  = Ok (buf ++ map Some (firstn n (map snd cs))).
Proof.
  induction 1 as [a t Hn | a x t cs z Hn Hlt Hc IH]; intros n buf Hle.
  - simpl in Hle. assert (n = 0) by lia. subst. simpl. now rewrite app_nil_r.
  - destruct n as [|n]; simpl.
    + now rewrite app_nil_r.
    + rewrite Hn. simpl. simpl in Hle. rewrite IH by lia.
      now rewrite <- app_assoc.
Qed.

Lemma updated_loop_Chain h p (cs : list (addr * A)) z :
  Chain h p cs z -> forall n buf, n <= length cs ->
  exists p',
    gungnir.updated_loop h n p buf
    = Ok (buf ++ map Some (firstn n (map snd cs)), p')
    /\ Chain h p' (skipn n cs) z.
Proof.
  induction 1 as [a t Hn | a x t cs z Hn Hlt Hc IH]; intros n buf Hle.
  - simpl in Hle. assert (n = 0) by lia. subst. simpl. rewrite app_nil_r.
    exists (Some a). split; auto. now apply Chain_Nil with t.
  - destruct n as [|n]; simpl.
    + rewrite app_nil_r. exists (Some a). split; auto.
      now apply Chain_Cons with t.
    + rewrite Hn. simpl. simpl in Hle.
      destruct (IH n (buf ++ [Some x])) as (p' & E & Hc'); [lia|].
      exists p'. rewrite E, <- app_assoc. auto.
Qed.

(** [toList] on a reversed buffer of non-null pointers. *)
Lemma toList_from_Chain (buf : list A) size h p (cs : list (addr * A)) z :
  Chain h p cs z ->
  exists ys e cs',
    gungnir.toList_from size (rev (map Some buf)) p h = (ys, h ++ e)
    /\ gungnir.size_ ys = size
    /\ Chain (h ++ e) (gungnir.node_ ys) (cs' ++ cs) z
    /\ map snd cs' = buf
    /\ length e = length buf.
Proof.
  intros Hc. unfold gungnir.toList_from. rewrite <- map_rev.
  destruct (toList_loop_Chain (rev buf) Hc) as (p' & e & cs' & E & Hc' & Hm & Hl).
  rewrite E. exists (gungnir.mkList size p'), e, cs'. simpl.
  rewrite rev_involutive in Hm. rewrite length_rev in Hl. auto.
Qed.

Lemma toList_Repr (buf : list A) size h :
  size = Z.of_nat (length buf) ->
  (Z.of_nat (length buf) < size_t_modulus)%Z ->
  exists ys e,
    gungnir.toList size (rev (map Some buf)) h = (ys, h ++ e)
    /\ Repr (h ++ e) ys buf
    /\ length e = S (length buf).
Proof.
  intros Hs Hb. unfold gungnir.toList, NodeOps.create.
  assert (Hc : Chain (h ++ [Node.mk (@None A) None]) (Some (length h)) [] (length h)).
  { apply Chain_Nil with None. rewrite nth_error_app2 by lia.
    now rewrite Nat.sub_diag. }
  destruct (toList_from_Chain buf size Hc) as (ys & e & cs' & E & Hsz & Hc' & Hm & Hl).
  rewrite E. exists ys, ([Node.mk None None] ++ e).
  rewrite app_assoc. split; auto. split.
  - exists (cs' ++ []), (length h). split; auto. rewrite app_nil_r.
    repeat split; auto. congruence.
  - simpl. now rewrite Hl.
Qed.

Lemma List_empty_Repr h :
  exists ys,
    gungnir.List_empty h = (ys, h ++ [Node.mk None None]) /\
    Repr (h ++ [Node.mk None None]) ys [].
Proof.
  unfold gungnir.List_empty, NodeOps.create. eexists. split; [reflexivity|].
  exists [], (length h). simpl. repeat split.
  apply Chain_Nil with None. rewrite nth_error_app2 by lia.
  now rewrite Nat.sub_diag.
Qed.

End ReprFacts.

(** ** What the operations compute on well-formed handles *)

Section Folds.

Context {A : Type}.

Lemma foldM_push_back (l buf : list A) :
  foldM gungnir.push_back l buf = Ok (buf ++ l).
Proof.
  revert buf. induction l as [|x l IH]; intros buf; simpl.
  - now rewrite app_nil_r.
  - rewrite IH, <- app_assoc. reflexivity.
Qed.

Lemma foldM_filter (p : A -> bool) (l buf : list A) :
  foldM (fun x buf => Ok (if p x then buf ++ [x] else buf)) l buf
  = Ok (buf ++ filter p l).
Proof.
  revert buf. induction l as [|x l IH]; intros buf; simpl.
  - now rewrite app_nil_r.
  - rewrite IH. destruct (p x); auto. now rewrite <- app_assoc.
Qed.

Lemma foldM_foldLeft {B : Type} (op : B -> A -> B) (l : list A) (z : B) :
  foldM (fun x z => Ok (op z x)) l z = Ok (fold_left op l z).
Proof.
  revert z. induction l as [|x l IH]; intros z; simpl; auto.
Qed.

End Folds.

Section Accessors.

Context {A : Type}.
Implicit Types (h : heap A) (xs : gungnir.List A) (l : list A).

Lemma head_Repr h xs x l : Repr h xs (x :: l) -> gungnir.head xs h = Ok x.
Proof.
  intros H. unfold gungnir.head. rewrite (Repr_isEmpty H).
  destruct H as (cs & z & Hc & Hm & _).
  destruct (Chain_elems_cons Hc Hm) as (a & t & cs0 & -> & _ & _ & Hn & _).
  simpl. now rewrite Hn.
Qed.

Lemma tail_Chain h xs a x (cs : list (addr * A)) z :
  Chain h (gungnir.node_ xs) ((a, x) :: cs) z ->
  gungnir.size_ xs = Z.of_nat (S (length cs)) ->
  (Z.of_nat (S (length cs)) < size_t_modulus)%Z ->
  exists t,
    gungnir.tail xs h = Ok t
    /\ Chain h (gungnir.node_ t) cs z
    /\ gungnir.size_ t = Z.of_nat (length cs).
Proof.
  intros Hc Hs Ha. unfold gungnir.tail, gungnir.isEmpty, gungnir.size.
  rewrite Hs. simpl Z.eqb.
  destruct (Chain_elems_cons Hc eq_refl) as (a' & t & cs0 & Hp & E & _ & Hn & _ & Hc0).
  inversion E; subst a' cs0. rewrite Hp. cbn [load bind]. rewrite Hn.
  cbn [load bind Node.tail]. eexists. split; [reflexivity|].
  cbn [gungnir.node_ gungnir.size_]. split; auto.
  rewrite wrap_small; lia.
Qed.

Lemma tail_Repr h xs x l :
  Repr h xs (x :: l) ->
  exists t, gungnir.tail xs h = Ok t /\ Repr h t l.
Proof.
  intros (cs & z & Hc & Hm & Hs & Hb).
  destruct (Chain_elems_cons Hc Hm) as (a & t & cs0 & _ & -> & Hm0 & _).
  cbn [length] in Hs, Hb. rewrite <- Hm0, length_map in Hs, Hb.
  destruct (tail_Chain xs Hc) as (ys & E & Hc' & Hs'); auto.
  exists ys. split; auto. exists cs0, z. rewrite <- Hm0, length_map.
  repeat split; auto. lia.
Qed.

Lemma op_index_Repr h xs l (i : Z) :
  Repr h xs l -> (0 <= i)%Z ->
  gungnir.op_index xs i h
  = match nth_error l (Z.to_nat i) with
    | Some v => Ok v
    | None => Throw IndexOutOfRange
    end.
Proof.
  intros (cs & z & Hc & Hm & Hs & _) Hi. unfold gungnir.op_index, gungnir.size.
  rewrite Hs. destruct (i >=? Z.of_nat (length l))%Z eqn:Hge.
  - assert (Hn : nth_error l (Z.to_nat i) = None)
      by (apply nth_error_None; lia).
    now rewrite Hn.
  - assert (Hk : Z.to_nat i < length cs)
      by (rewrite <- Hm, length_map in Hge; lia).
    destruct (advance_Chain Hc (k := Z.to_nat i)) as (p' & E & Hc'); [lia|].
    rewrite E. simpl.
    rewrite <- Hm, <- hd_error_skipn, skipn_map.
    inversion Hc' as [a t Hn Hp Hsk | a x t cs0 z0 Hn Hlt Hc0 Hp Hsk].
    + exfalso. symmetry in Hsk. apply skipn_all_iff in Hsk. lia.
    + simpl. rewrite Hn. reflexivity.
Qed.

Lemma take_Repr h xs l (n : Z) :
  Repr h xs l -> (0 <= n)%Z ->
  exists ys e,
    gungnir.take xs n h = Ok (ys, h ++ e)
    /\ Repr (h ++ e) ys (firstn (Z.to_nat n) l)
    /\ length e = S (length (firstn (Z.to_nat n) l)).
Proof.
  intros (cs & z & Hc & Hm & Hs & Hb) Hn. unfold gungnir.take, gungnir.size.
  rewrite Hs.
  assert (Hk : Z.to_nat (Z.min n (Z.of_nat (length l)))
               = Nat.min (Z.to_nat n) (length l)) by lia.
  rewrite Hk. rewrite take_loop_Chain with (cs := cs) (z := z); auto.
  2:{ rewrite <- Hm, length_map. lia. }
  simpl. rewrite Hm.
  assert (Hf : firstn (Nat.min (Z.to_nat n) (length l)) l
               = firstn (Z.to_nat n) l).
  { destruct (Nat.le_ge_cases (Z.to_nat n) (length l)).
    - now rewrite Nat.min_l.
    - rewrite Nat.min_r by auto. rewrite firstn_all.
      symmetry. now apply firstn_all2. }
  rewrite Hf, length_map.
  destruct (toList_Repr (firstn (Z.to_nat n) l) h eq_refl)
    as (ys & e & E & Hr & Hl).
  { assert (Hle := firstn_le_length (Z.to_nat n) l).
    rewrite length_firstn. lia. }
  rewrite E. eauto.
Qed.

Lemma drop_shared h xs (cs : list (addr * A)) z (n : Z) :
  Chain h (gungnir.node_ xs) cs z ->
  gungnir.size_ xs = Z.of_nat (length cs) ->
  (Z.of_nat (length cs) < size_t_modulus)%Z ->
  (0 <= n < Z.of_nat (length cs))%Z ->
  exists ys,
    gungnir.drop xs n h = Ok (ys, h)
    /\ Chain h (gungnir.node_ ys) (skipn (Z.to_nat n) cs) z
    /\ gungnir.size_ ys = Z.of_nat (length (skipn (Z.to_nat n) cs)).
Proof.
  intros Hc Hs Ha Hn. unfold gungnir.drop, gungnir.size. rewrite Hs.
  destruct (n >=? Z.of_nat (length cs))%Z eqn:Hge; [lia|].
  destruct (advance_Chain Hc (k := Z.to_nat n)) as (p' & E & Hc'); [lia|].
  rewrite E. simpl. eexists. split; [reflexivity|]. simpl. split; auto.
  rewrite length_skipn. rewrite wrap_small; lia.
Qed.

Lemma drop_Repr h xs l (n : Z) :
  Repr h xs l -> (0 <= n)%Z ->
  exists ys e,
    gungnir.drop xs n h = Ok (ys, h ++ e)
    /\ Repr (h ++ e) ys (skipn (Z.to_nat n) l)
    /\ length e <= 1.
Proof.
  intros (cs & z & Hc & Hm & Hs & Ha) Hn.
  rewrite <- Hm, length_map in Hs, Ha.
  destruct (Z_lt_ge_dec n (Z.of_nat (length cs))) as [Hlt|Hge].
  - destruct (drop_shared xs Hc Hs Ha (n := n)) as (ys & E & Hc' & Hs'); [lia|].
    exists ys, []. rewrite app_nil_r. split; auto. split; [|simpl; lia].
    exists (skipn (Z.to_nat n) cs), z. rewrite <- Hm, skipn_map.
    rewrite length_map. repeat split; auto.
    rewrite length_skipn. lia.
  - unfold gungnir.drop, gungnir.size. rewrite Hs.
    destruct (n >=? Z.of_nat (length cs))%Z eqn:Hge'; [|lia].
    destruct (List_empty_Repr h) as (ys & E & Hr). rewrite E.
    exists ys, [Node.mk None None]. split; auto. split; auto.
    rewrite skipn_all2; auto. rewrite <- Hm, length_map. lia.
Qed.

Lemma filter_Repr (p : A -> bool) h xs l :
  Repr h xs l ->
  exists ys e,
    gungnir.filter p xs h = Ok (ys, h ++ e)
    /\ Repr (h ++ e) ys (filter p l)
    /\ length e = S (length (filter p l)).
Proof.
  intros (cs & z & Hc & Hm & Hs & Hb). unfold gungnir.filter.
  rewrite (foreachImpl_fuel_of _ _ Hc), Hm, foldM_filter. simpl.
  destruct (toList_Repr (filter p l) h eq_refl) as (ys & e & E & Hr & Hl).
  { assert (Hle := filter_length_le p l). lia. }
  rewrite E. eauto.
Qed.

Lemma concat_Repr h xs that l1 l2 :
  Repr h xs l1 -> Repr h that l2 ->
  exists ys e,
    gungnir.concat xs that h = Ok (ys, h ++ e)
    /\ ((Z.of_nat (length l1 + length l2) < size_t_modulus)%Z ->
        Repr (h ++ e) ys (l1 ++ l2))
    /\ (l1 <> [] -> l2 <> [] -> length e = length l1).
Proof.
  intros H1 H2. unfold gungnir.concat.
  rewrite (Repr_isEmpty H1), (Repr_isEmpty H2).
  destruct l1 as [|x1 l1].
  { exists that, []. rewrite app_nil_r. simpl.
    split; [reflexivity|]. split; [auto|]. intros Hc. now contradiction Hc. }
  destruct l2 as [|x2 l2].
  { exists xs, []. rewrite !app_nil_r.
    split; [reflexivity|]. split; [auto|].
    intros _ Hc. now contradiction Hc. }
  destruct H1 as (cs1 & z1 & Hc1 & Hm1 & Hs1 & _).
  destruct H2 as (cs2 & z2 & Hc2 & Hm2 & Hs2 & _).
  rewrite (foreachImpl_fuel_of _ _ Hc1), Hm1, foldM_push_back.
  cbn [bind app].
  destruct (toList_from_Chain (x1 :: l1)
              (wrap (gungnir.size xs + gungnir.size that)) Hc2)
    as (ys & e & cs' & E & Hsz & Hc' & Hm' & Hl).
  rewrite E. exists ys, e. split; auto. split; [|auto].
  intros Hb. exists (cs' ++ cs2), z2. split; auto. split.
  - rewrite map_app, Hm', Hm2. reflexivity.
  - rewrite Hsz. unfold gungnir.size. rewrite Hs1, Hs2.
    change (x1 :: l1 ++ x2 :: l2) with ((x1 :: l1) ++ x2 :: l2).
    rewrite length_app. rewrite wrap_small; lia.
Qed.

End Accessors.

Section Queries.

Context {A : Type}.
Implicit Types (h : heap A) (xs : gungnir.List A) (l : list A).

Lemma exists_loop_Chain {U : Type} (p : A -> U -> bool * U) h pt
    (cs : list (addr * A)) z :
  Chain h pt cs z -> forall fuel u, length cs < fuel ->
  gungnir.exists_loop fuel h p pt u = Ok (exists_run p (map snd cs) u).
Proof.
  induction 1 as [a t Hn | a x t cs z Hn Hlt Hc IH]; intros fuel u Hf;
    destruct fuel as [|k]; simpl in *; try lia; rewrite Hn; simpl.
  - reflexivity.
  - destruct (p x u) as [[|] u']; auto. apply IH. lia.
Qed.

Lemma forall_loop_Chain {U : Type} (p : A -> U -> bool * U) h pt
    (cs : list (addr * A)) z :
  Chain h pt cs z -> forall fuel u, length cs < fuel ->
  gungnir.forall_loop fuel h p pt u = Ok (forall_run p (map snd cs) u).
Proof.
  induction 1 as [a t Hn | a x t cs z Hn Hlt Hc IH]; intros fuel u Hf;
    destruct fuel as [|k]; simpl in *; try lia; rewrite Hn; simpl.
  - reflexivity.
  - destruct (p x u) as [[|] u']; simpl; auto. apply IH. lia.
Qed.

Lemma exists_Repr {U : Type} (p : A -> U -> bool * U) h xs l u :
  Repr h xs l -> gungnir.exists_ p xs u h = Ok (exists_run p l u).
Proof.
  intros (cs & z & Hc & Hm & _). unfold gungnir.exists_. rewrite <- Hm.
  apply exists_loop_Chain with z; auto.
  apply Chain_length in Hc. unfold fuel_of. lia.
Qed.

Lemma forall_Repr {U : Type} (p : A -> U -> bool * U) h xs l u :
  Repr h xs l -> gungnir.forall_ p xs u h = Ok (forall_run p l u).
Proof.
  intros (cs & z & Hc & Hm & _). unfold gungnir.forall_. rewrite <- Hm.
  apply forall_loop_Chain with z; auto.
  apply Chain_length in Hc. unfold fuel_of. lia.
Qed.

Lemma exists_run_pure (p : A -> bool) l :
  exists_run (gungnir.pure_pred p) l tt = (existsb p l, tt).
Proof.
  induction l as [|x l IH]; simpl; auto. destruct (p x); auto.
Qed.

Lemma forall_run_pure (p : A -> bool) l :
  forall_run (gungnir.pure_pred p) l tt = (forallb p l, tt).
Proof.
  induction l as [|x l IH]; simpl; auto. destruct (p x); auto.
Qed.

Lemma eq_loop_Chain (A_ne : A -> A -> bool) h p1 (cs1 : list (addr * A)) z1 :
  Chain h p1 cs1 z1 ->
  forall p2 cs2 z2 fuel, Chain h p2 cs2 z2 ->
  length cs1 = length cs2 -> length cs1 < fuel ->
  gungnir.eq_loop fuel h A_ne p1 p2
  = Ok (all_eq A_ne (map snd cs1) (map snd cs2)).
Proof.
  induction 1 as [a t Hn | a x t cs z Hn Hlt Hc IH];
    intros p2 cs2 z2 fuel H2 Hlen Hf;
    destruct fuel as [|k]; simpl in *; try lia; rewrite Hn; simpl.
  - reflexivity.
  - inversion H2 as [b t2 Hn2 | b y t2 cs2' z2' Hn2 Hlt2 Hc2]; subst;
      simpl in Hlen; [discriminate|].
    simpl. rewrite Hn2. simpl. unfold all_eq. simpl.
    destruct (A_ne x y); simpl; auto.
    apply IH with z2; auto; lia.
Qed.

Lemma op_eq_Repr (A_ne : A -> A -> bool) h xs that l1 l2 :
  Repr h xs l1 -> Repr h that l2 ->
  gungnir.op_eq A_ne false xs that h
  = Ok ((length l1 =? length l2) && all_eq A_ne l1 l2).
Proof.
  intros (cs1 & z1 & Hc1 & Hm1 & Hs1 & _) (cs2 & z2 & Hc2 & Hm2 & Hs2 & _).
  unfold gungnir.op_eq, gungnir.size. rewrite Hs1, Hs2.
  destruct (length l1 =? length l2) eqn:Hl.
  - apply Nat.eqb_eq in Hl. rewrite Hl, Z.eqb_refl. cbn [negb andb].
    rewrite <- Hm1, <- Hm2. apply eq_loop_Chain with z1 z2; auto.
    + rewrite <- Hm1, <- Hm2, !length_map in Hl. exact Hl.
    + apply Chain_length in Hc1. unfold fuel_of. lia.
  - apply Nat.eqb_neq in Hl.
    destruct (Z.of_nat (length l1) =? Z.of_nat (length l2))%Z eqn:Hz; auto.
    apply Z.eqb_eq in Hz. lia.
Qed.

Lemma all_eq_refl (A_ne : A -> A -> bool) l :
  (forall x, A_ne x x = false) -> all_eq A_ne l l = true.
Proof.
  intros Hr. unfold all_eq. induction l as [|x l IH]; simpl; auto.
  now rewrite Hr, IH.
Qed.

(** When [operator!=] decides equality of elements, [operator==] decides
    equality of the element sequences. *)
Lemma all_eq_iff (A_ne : A -> A -> bool) l1 l2 :
  (forall x y, A_ne x y = false <-> x = y) ->
  length l1 = length l2 ->
  (all_eq A_ne l1 l2 = true <-> l1 = l2).
Proof.
  intros Hd. revert l2. unfold all_eq.
  induction l1 as [|x l1 IH]; intros [|y l2] Hl; simpl in *;
    try discriminate; [tauto|].
  rewrite andb_true_iff, negb_true_iff, Hd, IH by lia.
  split; [intros [-> ->]; auto | intros E; inversion E; auto].
Qed.

Lemma skipn_nth_error {X : Type} (l : list X) k x :
  nth_error l k = Some x -> skipn k l = x :: skipn (S k) l.
Proof.
  revert k. induction l as [|y l IH]; intros [|k] H; simpl in *;
    try discriminate.
  - now inversion H.
  - now apply IH.
Qed.

Lemma updated_Repr h xs l (i : Z) (v : A) :
  Repr h xs l -> (0 <= i < Z.of_nat (length l))%Z ->
  exists ys e,
    gungnir.updated xs i v h = Ok (ys, h ++ e)
    /\ Repr (h ++ e) ys
         (firstn (Z.to_nat i) l ++ v :: skipn (S (Z.to_nat i)) l)
    /\ length e = S (Z.to_nat i).
Proof.
  intros (cs & z & Hc & Hm & Hs & Hb) Hi.
  unfold gungnir.updated, gungnir.size. rewrite Hs.
  destruct (i >=? Z.of_nat (length l))%Z eqn:Hge; [lia|].
  set (k := Z.to_nat i).
  assert (Hk : k < length cs) by (rewrite <- Hm, length_map in Hi; lia).
  destruct (updated_loop_Chain Hc (n := k) []) as (p' & E & Hc'); [lia|].
  rewrite E. cbn [bind app]. rewrite Hm.
  destruct (nth_error cs k) as [[a x]|] eqn:Hnth.
  2:{ apply nth_error_None in Hnth. lia. }
  rewrite (skipn_nth_error _ _ Hnth) in Hc'.
  destruct (Chain_elems_cons Hc' eq_refl)
    as (a' & t & cs0 & -> & Ecs & _ & Hn & Hlt & Hc0).
  inversion Ecs; subst a' cs0. cbn [load bind]. rewrite Hn.
  cbn [bind Node.tail]. unfold NodeOps.create2.
  assert (Hc1 : Chain (h ++ [Node.mk (Some v) (Some t)]) (Some (length h))
                  ((length h, v) :: skipn (S k) cs) z).
  { assert (a < length h) by (apply nth_error_Some; congruence).
    apply Chain_Cons with t; [| lia | now apply Chain_ext].
    rewrite nth_error_app2 by lia. now rewrite Nat.sub_diag. }
  destruct (toList_from_Chain (firstn k l) (Z.of_nat (length l)) Hc1)
    as (ys & e & cs' & E' & Hsz & Hc2 & Hm2 & Hl2).
  rewrite E'. exists ys, ([Node.mk (Some v) (Some t)] ++ e).
  rewrite app_assoc. split; auto.
  assert (Hlen : length (firstn k l ++ v :: skipn (S k) l) = length l).
  { rewrite length_app. cbn [length]. rewrite length_firstn, length_skipn.
    rewrite <- Hm, length_map. lia. }
  split.
  - exists (cs' ++ (length h, v) :: skipn (S k) cs), z.
    rewrite Hlen. repeat split; auto.
    rewrite map_app, Hm2. cbn [map snd]. now rewrite <- skipn_map, Hm.
  - cbn [length app]. rewrite Hl2, length_firstn.
    rewrite <- Hm, length_map. lia.
Qed.

End Queries.

(** * The scenarios of the tests *)

(** [test_filter_not.cpp], "List with multiple elements":
    [xs.filterNot(even) == List<int>(1, 5)],
    [xs.filterNot(odd) == List<int>(2, 4, 6)], and [xs] is unchanged. *)
Example test_filterNot_multiple :
  exists ys h1 zs h2,
    gungnir.filterNot even (fst sample) (snd sample) = Ok (ys, h1)
    /\ view h1 ys = Some [1; 5]%Z
    /\ gungnir.filterNot (fun x => negb (even x)) (fst sample) h1
       = Ok (zs, h2)
    /\ view h2 zs = Some [2; 4; 6]%Z
    /\ view h2 (fst sample) = Some [1; 2; 4; 5; 6]%Z.
Proof. do 4 eexists. repeat split; reflexivity. Qed.

(** "empty List" and "List with one element". *)
Example test_filterNot_small :
  (exists ys h1,
     gungnir.filterNot even (fst sample_empty) (snd sample_empty)
     = Ok (ys, h1) /\ gungnir.isEmpty ys = true)
  /\ (exists ys h1,
        gungnir.filterNot even (fst sample_single) (snd sample_single)
        = Ok (ys, h1)
        /\ gungnir.op_eq int_ne false ys (fst sample_single) h1 = Ok true).
Proof. split; do 2 eexists; split; reflexivity. Qed.

(** [List<int>(3, 1, 2).sorted() == List<int>(1, 2, 3)], with either
    algorithm. *)
Example test_sorted :
  forall stable, exists ys h1,
    gungnir.sorted_default (insertion_alg Z) Z.ltb stable
      (fst sample_unsorted) (snd sample_unsorted) = Ok (ys, h1)
    /\ view h1 ys = Some [1; 2; 3]%Z.
Proof. intros [|]; do 2 eexists; split; reflexivity. Qed.

(** [List<int>().head()] throws. *)
Example test_head_empty :
  gungnir.head (fst sample_empty) (snd sample_empty)
  = Throw (out_of_range "head of empty list").
Proof. reflexivity. Qed.

(** * The claims *)

(** C2.  [xs.filter(p)] holds exactly the elements of [xs] that satisfy [p],
    in their order, and [xs.filterNot(p)] exactly those that violate it;
    hence [xs.filter(p).forall(p)] is true and the two sizes add up to
    [xs.size()].  (The two calls run one after the other; [xs] is still
    the same list after them.) *)
Theorem C2_filter_filterNot {A : Type} (p : A -> bool) (h : heap A)
    (xs : gungnir.List A) (l : list A) :
  view h xs = Some l ->
  exists ys h1 zs h2,
    gungnir.filter p xs h = Ok (ys, h1)
    /\ view h1 ys = Some (filter p l)
    /\ gungnir.filterNot p xs h1 = Ok (zs, h2)
    /\ view h2 zs = Some (filter (fun x => negb (p x)) l)
    /\ gungnir.forall_ (gungnir.pure_pred p) ys tt h1 = Ok (true, tt)
    /\ (gungnir.size ys + gungnir.size zs = gungnir.size xs)%Z
    /\ view h2 xs = Some l.
Proof.
  intros Hv. apply Repr_view in Hv.
  destruct (filter_Repr p Hv) as (ys & e1 & E1 & Hy & _).
  assert (Hv1 := Repr_ext e1 Hv).
  destruct (filter_Repr (fun x => negb (p x)) Hv1) as (zs & e2 & E2 & Hz & _).
  exists ys, (h ++ e1), zs, ((h ++ e1) ++ e2).
  split; [exact E1|]. split; [now apply Repr_view|].
  split; [exact E2|]. split; [now apply Repr_view|].
  split.
  - rewrite (forall_Repr _ tt Hy), forall_run_pure, forallb_filter.
    reflexivity.
  - split.
    + unfold gungnir.size.
      rewrite (Repr_size Hy), (Repr_size Hz), (Repr_size Hv).
      rewrite <- (filter_length p l). lia.
    + apply Repr_view. now apply Repr_ext.
Qed.

Lemma C2_witness :
  view (snd sample) (fst sample) = Some [1; 2; 4; 5; 6]%Z
  /\ exists ys h1 zs h2,
       gungnir.filter even (fst sample) (snd sample) = Ok (ys, h1)
       /\ view h1 ys = Some (filter even [1; 2; 4; 5; 6]%Z)
       /\ gungnir.filterNot even (fst sample) h1 = Ok (zs, h2)
       /\ view h2 zs = Some (filter (fun x => negb (even x)) [1; 2; 4; 5; 6]%Z)
       /\ gungnir.forall_ (gungnir.pure_pred even) ys tt h1 = Ok (true, tt)
       /\ (gungnir.size ys + gungnir.size zs = gungnir.size (fst sample))%Z
       /\ view h2 (fst sample) = Some [1; 2; 4; 5; 6]%Z.
Proof.
  split; [reflexivity | apply (C2_filter_filterNot even); reflexivity].
Defined.




(** C5.  [xs[index]] and [xs.updated(index, v)] throw the "index out of
    range" error if and only if [index >= xs.size()]; when
    [index < xs.size()] they return. *)
Theorem C5_index_out_of_range {A : Type} (h : heap A) (xs : gungnir.List A)
    (l : list A) (index : Z) (v : A) :
  view h xs = Some l ->
  is_size_t index ->
  (gungnir.op_index xs index h = Throw IndexOutOfRange
   <-> (index >= gungnir.size xs)%Z)
  /\ (gungnir.updated xs index v h = Throw IndexOutOfRange
      <-> (index >= gungnir.size xs)%Z)
  /\ ((index < gungnir.size xs)%Z ->
        (exists x, gungnir.op_index xs index h = Ok x)
        /\ (exists ys h', gungnir.updated xs index v h = Ok (ys, h'))).
Proof.
  intros Hv [Hi _]. apply Repr_view in Hv. unfold gungnir.size.
  rewrite (Repr_size Hv). rewrite (op_index_Repr Hv Hi).
  destruct (Z_lt_ge_dec index (Z.of_nat (length l))) as [Hlt|Hge].
  - destruct (nth_error l (Z.to_nat index)) as [x|] eqn:Hn.
    2:{ apply nth_error_None in Hn. lia. }
    destruct (updated_Repr v Hv (i := index)) as (ys & e & E & _); [lia|].
    rewrite E. split; [split; [discriminate | lia]|].
    split; [split; [discriminate | lia]|]. eauto.
  - assert (Hn : nth_error l (Z.to_nat index) = None)
      by (apply nth_error_None; lia).
    rewrite Hn. unfold gungnir.updated, gungnir.size. rewrite (Repr_size Hv).
    destruct (index >=? Z.of_nat (length l))%Z eqn:E; [|lia].
    split; [tauto|]. split; [tauto|]. intros; lia.
Qed.

Lemma C5_witness :
  view (snd sample) (fst sample) = Some [1; 2; 4; 5; 6]%Z
  /\ is_size_t 5
  /\ (gungnir.op_index (fst sample) 5 (snd sample) = Throw IndexOutOfRange
      <-> (5 >= gungnir.size (fst sample))%Z)
  /\ (gungnir.updated (fst sample) 5 9%Z (snd sample) = Throw IndexOutOfRange
      <-> (5 >= gungnir.size (fst sample))%Z)
  /\ ((5 < gungnir.size (fst sample))%Z ->
        (exists x, gungnir.op_index (fst sample) 5 (snd sample) = Ok x)
        /\ (exists ys h',
              gungnir.updated (fst sample) 5 9%Z (snd sample) = Ok (ys, h'))).
Proof.
  assert (Hs : is_size_t 5) by (unfold is_size_t, size_t_modulus; lia).
  split; [reflexivity|]. split; [exact Hs|].
  apply (@C5_index_out_of_range Z (snd sample) (fst sample)
           [1; 2; 4; 5; 6]%Z 5%Z 9%Z); [reflexivity | exact Hs].
Defined.

Lemma nth_error_updated {X : Type} (l : list X) (k j : nat) (v : X) :
  k < length l ->
  nth_error (firstn k l ++ v :: skipn (S k) l) j
  = if j =? k then Some v else nth_error l j.
Proof.
  intros Hk.
  assert (Hf : length (firstn k l) = k) by (rewrite length_firstn; lia).
  destruct (j =? k) eqn:E.
  - apply Nat.eqb_eq in E. subst j.
    rewrite nth_error_app2 by lia. now rewrite Hf, Nat.sub_diag.
  - apply Nat.eqb_neq in E. destruct (Nat.lt_ge_cases j k) as [Hlt|Hge].
    + rewrite nth_error_app1 by lia. rewrite nth_error_firstn.
      apply Nat.ltb_lt in Hlt. now rewrite Hlt.
    + rewrite nth_error_app2 by lia. rewrite Hf.
      destruct (j - k) as [|m] eqn:Hm; [lia|].
      cbn [nth_error]. rewrite nth_error_skipn. f_equal. lia.
Qed.

(** C6.  For [index < xs.size()], [ys = xs.updated(index, v)] has the size
    of [xs], [ys[index]] is [v], and [ys[j]] is [xs[j]] at every other
    position [j]. *)
Theorem C6_updated {A : Type} (h : heap A) (xs : gungnir.List A)
    (l : list A) (index : Z) (v : A) :
  view h xs = Some l ->
  (0 <= index < gungnir.size xs)%Z ->
  exists ys h',
    gungnir.updated xs index v h = Ok (ys, h')
    /\ gungnir.size ys = gungnir.size xs
    /\ gungnir.op_index ys index h' = Ok v
    /\ (forall j, (0 <= j)%Z -> j <> index ->
          gungnir.op_index ys j h' = gungnir.op_index xs j h)
    /\ view h' xs = Some l.
Proof.
  intros Hv Hi. apply Repr_view in Hv. unfold gungnir.size in *.
  rewrite (Repr_size Hv) in Hi.
  destruct (updated_Repr v Hv Hi) as (ys & e & E & Hy & _).
  exists ys, (h ++ e). split; [exact E|].
  assert (Hk : Z.to_nat index < length l) by lia.
  split.
  { rewrite (Repr_size Hy), (Repr_size Hv), length_app. cbn [length].
    rewrite length_firstn, length_skipn. lia. }
  split.
  { rewrite (op_index_Repr Hy) by lia.
    now rewrite nth_error_updated, Nat.eqb_refl. }
  split.
  { intros j Hj Hne. rewrite (op_index_Repr Hy Hj), (op_index_Repr Hv Hj).
    rewrite nth_error_updated by auto.
    destruct (Z.to_nat j =? Z.to_nat index) eqn:Ej; [|reflexivity].
    apply Nat.eqb_eq in Ej. lia. }
  apply Repr_view. now apply Repr_ext.
Qed.

Lemma C6_witness :
  view (snd sample) (fst sample) = Some [1; 2; 4; 5; 6]%Z
  /\ (0 <= 2 < gungnir.size (fst sample))%Z
  /\ exists ys h',
       gungnir.updated (fst sample) 2 9%Z (snd sample) = Ok (ys, h')
       /\ gungnir.size ys = gungnir.size (fst sample)
       /\ gungnir.op_index ys 2 h' = Ok 9%Z
       /\ (forall j, (0 <= j)%Z -> j <> 2%Z ->
             gungnir.op_index ys j h'
             = gungnir.op_index (fst sample) j (snd sample))
       /\ view h' (fst sample) = Some [1; 2; 4; 5; 6]%Z.
Proof.
  assert (Hi : (0 <= 2 < gungnir.size (fst sample))%Z)
    by (change (gungnir.size (fst sample)) with 5%Z; lia).
  split; [reflexivity|]. split; [exact Hi|].
  apply (@C6_updated Z (snd sample) (fst sample)); [reflexivity | exact Hi].
Defined.

(** C10.  On an empty list [exists(p)] is false and [forall(p)] is true,
    and the predicate is not applied: whatever effect it has when applied,
    its state is left as it was. *)
Theorem C10_exists_forall_empty {A U : Type} (p : A -> U -> bool * U)
    (h : heap A) (xs : gungnir.List A) (u : U) :
  view h xs = Some [] ->
  gungnir.exists_ p xs u h = Ok (false, u)
  /\ gungnir.forall_ p xs u h = Ok (true, u).
Proof.
  intros Hv. apply Repr_view in Hv.
  now rewrite (exists_Repr p u Hv), (forall_Repr p u Hv).
Qed.

(** A predicate that counts its applications. *)
Lemma C10_witness :
  view (snd sample_empty) (fst sample_empty) = Some []
  /\ gungnir.exists_ (fun x (calls : nat) => (even x, S calls))
       (fst sample_empty) 0 (snd sample_empty) = Ok (false, 0)
  /\ gungnir.forall_ (fun x (calls : nat) => (even x, S calls))
       (fst sample_empty) 0 (snd sample_empty) = Ok (true, 0).
Proof.
  split; [reflexivity|].
  apply (C10_exists_forall_empty (fun x (calls : nat) => (even x, S calls)));
    reflexivity.
Defined.

Lemma nodes_Chain {A : Type} (h : heap A) (xs : gungnir.List A)
    (cs : list (addr * A)) z :
  Chain h (gungnir.node_ xs) cs z -> nodes h xs = Some (map fst cs ++ [z]).
Proof.
  intros Hc. unfold nodes. now rewrite (chain_fuel_of Hc).
Qed.

(** C9.  The nodes of [xs.tail()] are the very nodes of [xs] after its
    first one, and for [n < xs.size()] the nodes of [xs.drop(n)] are the very
    nodes of [xs] after its first [n]: the same addresses in the same store,
    nothing being allocated. *)
Theorem C9_tail_drop_share {A : Type} (h : heap A) (xs : gungnir.List A)
    (l : list A) :
  view h xs = Some l ->
  (l <> [] ->
     exists t a ns,
       gungnir.tail xs h = Ok t
       /\ nodes h xs = Some (a :: ns) /\ nodes h t = Some ns)
  /\ (forall n, (0 <= n < gungnir.size xs)%Z ->
        exists ys ns,
          gungnir.drop xs n h = Ok (ys, h)
          /\ nodes h xs = Some ns
          /\ nodes h ys = Some (skipn (Z.to_nat n) ns)).
Proof.
  intros Hv. apply Repr_view in Hv.
  destruct Hv as (cs & z & Hc & Hm & Hs & Hb).
  rewrite <- Hm, length_map in Hs, Hb. split.
  - intros Hne. destruct cs as [|[a x] cs]; [now subst l|].
    destruct (tail_Chain xs Hc Hs Hb) as (t & E & Hc' & _).
    exists t, a, (map fst cs ++ [z]). split; [exact E|].
    split; [apply (nodes_Chain xs Hc) | apply (nodes_Chain t Hc')].
  - intros n Hn. unfold gungnir.size in Hn. rewrite Hs in Hn.
    destruct (drop_shared xs Hc Hs Hb Hn) as (ys & E & Hc' & _).
    exists ys, (map fst cs ++ [z]). split; [exact E|].
    split; [apply (nodes_Chain xs Hc)|].
    rewrite (nodes_Chain ys Hc'), skipn_app, length_map, skipn_map.
    replace (Z.to_nat n - length cs) with 0 by lia. reflexivity.
Qed.

Lemma C9_witness :
  view (snd sample) (fst sample) = Some [1; 2; 4; 5; 6]%Z
  /\ ([1; 2; 4; 5; 6]%Z <> [] ->
        exists t a ns,
          gungnir.tail (fst sample) (snd sample) = Ok t
          /\ nodes (snd sample) (fst sample) = Some (a :: ns)
          /\ nodes (snd sample) t = Some ns)
  /\ (forall n, (0 <= n < gungnir.size (fst sample))%Z ->
        exists ys ns,
          gungnir.drop (fst sample) n (snd sample) = Ok (ys, snd sample)
          /\ nodes (snd sample) (fst sample) = Some ns
          /\ nodes (snd sample) ys = Some (skipn (Z.to_nat n) ns)).
Proof.
  split; [reflexivity|].
  apply (@C9_tail_drop_share Z (snd sample) (fst sample)). reflexivity.
Defined.

Section Reductions.

Context {A : Type}.
Implicit Types (h : heap A) (xs : gungnir.List A) (l : list A).

Lemma nth_error_last l (d : A) :
  l <> [] -> nth_error l (length l - 1) = Some (last l d).
Proof.
  induction l as [|a [|b r] IH]; intros Hne; [easy | reflexivity |].
  replace (length (a :: b :: r) - 1) with (S (length (b :: r) - 1))
    by (cbn [length]; lia).
  cbn [nth_error]. rewrite IH by discriminate. reflexivity.
Qed.

Lemma uncons_Repr h xs x l :
  Repr h xs (x :: l) ->
  exists t, gungnir.tail xs h = Ok t /\ gungnir.uncons xs h = Ok (x, t)
            /\ Repr h t l.
Proof.
  intros H. destruct (tail_Repr H) as (t & E & Ht). exists t.
  split; [exact E|]. split; [|exact Ht].
  unfold gungnir.uncons. rewrite (Repr_isEmpty H), (head_Repr H), E.
  reflexivity.
Qed.

Lemma size_minus_one h xs x l :
  Repr h xs (x :: l) -> wrap (gungnir.size xs - 1) = Z.of_nat (length l).
Proof.
  intros H. unfold gungnir.size. rewrite (Repr_size H).
  assert (Hb := Repr_size_t H). cbn [length] in *. rewrite wrap_small; lia.
Qed.

Lemma last_Repr h xs x l :
  Repr h xs (x :: l) -> gungnir.last xs h = Ok (last (x :: l) x).
Proof.
  intros H. unfold gungnir.last.
  rewrite (Repr_isEmpty H), (size_minus_one H), (op_index_Repr H) by lia.
  rewrite Nat2Z.id.
  replace (length l) with (length (x :: l) - 1) by (cbn [length]; lia).
  rewrite (nth_error_last x) by discriminate. reflexivity.
Qed.

Lemma init_Repr h xs x l :
  Repr h xs (x :: l) ->
  exists ys e,
    gungnir.init xs h = Ok (ys, h ++ e)
    /\ Repr (h ++ e) ys (removelast (x :: l)).
Proof.
  intros H. unfold gungnir.init.
  rewrite (Repr_isEmpty H), (size_minus_one H).
  destruct (take_Repr H (n := Z.of_nat (length l))) as (ys & e & E & Hy & _);
    [lia|].
  exists ys, e. split; [exact E|].
  rewrite Nat2Z.id in Hy. now rewrite removelast_firstn_len.
Qed.

Lemma foldLeft_Repr {B : Type} (z : B) (op : B -> A -> B) h xs l :
  Repr h xs l -> gungnir.foldLeft z op xs h = Ok (fold_left op l z).
Proof.
  intros (cs & z0 & Hc & Hm & _). unfold gungnir.foldLeft.
  now rewrite (foreachImpl_fuel_of _ _ Hc), Hm, foldM_foldLeft.
Qed.

Lemma reduceLeft_Repr (op : A -> A -> A) h xs x l :
  Repr h xs (x :: l) ->
  gungnir.reduceLeft op xs h = Ok (fold_left op l x)
  /\ gungnir.reduce op xs h = Ok (fold_left op l x).
Proof.
  intros H. destruct (tail_Repr H) as (t & E & Ht).
  assert (E1 : gungnir.reduceLeft op xs h = Ok (fold_left op l x)).
  { unfold gungnir.reduceLeft.
    rewrite (Repr_isEmpty H), E, (head_Repr H). cbn [bind].
    apply (foldLeft_Repr x op Ht). }
  split; [exact E1|]. unfold gungnir.reduce. now rewrite (Repr_isEmpty H).
Qed.

Lemma reduceRight_Repr (op : A -> A -> A) h xs x l :
  Repr h xs (x :: l) ->
  gungnir.reduceRight op xs h
  = Ok (fold_right op (last (x :: l) x) (removelast (x :: l))).
Proof.
  intros H. unfold gungnir.reduceRight. rewrite (Repr_isEmpty H).
  destruct H as (cs & z & Hc & Hm & _).
  rewrite (foreachImpl_fuel_of _ _ Hc), Hm, foldM_push_back. cbn [bind app].
  rewrite (app_removelast_last x (l := x :: l)) at 1 by discriminate.
  rewrite rev_unit, <- fold_left_rev_right, rev_involutive. reflexivity.
Qed.

End Reductions.

(** C4.  On a list of size zero [head], [tail], [uncons], [last], [init],
    [reduce], [reduceLeft] and [reduceRight] each throw their "empty list"
    error; on a list that is not empty each returns its value. *)
Theorem C4_empty_collection {A : Type} (op : A -> A -> A) (h : heap A)
    (xs : gungnir.List A) (l : list A) :
  view h xs = Some l ->
  (gungnir.size xs = 0%Z <-> l = [])
  /\ match l with
     | [] =>
         gungnir.head xs h = Throw (EmptyCollection "head of")
         /\ gungnir.tail xs h = Throw (EmptyCollection "tail of")
         /\ gungnir.uncons xs h = Throw (EmptyCollection "uncons on")
         /\ gungnir.last xs h = Throw (EmptyCollection "last of")
         /\ gungnir.init xs h = Throw (EmptyCollection "init of")
         /\ gungnir.reduce op xs h = Throw (EmptyCollection "reduce on")
         /\ gungnir.reduceLeft op xs h
            = Throw (EmptyCollection "reduceLeft on")
         /\ gungnir.reduceRight op xs h
            = Throw (EmptyCollection "reduceRight on")
     | x :: l' =>
         gungnir.head xs h = Ok x
         /\ (exists t,
               gungnir.tail xs h = Ok t
               /\ gungnir.uncons xs h = Ok (x, t)
               /\ view h t = Some l')
         /\ gungnir.last xs h = Ok (last l x)
         /\ (exists ys h',
               gungnir.init xs h = Ok (ys, h')
               /\ view h' ys = Some (removelast l))
         /\ gungnir.reduce op xs h = Ok (fold_left op l' x)
         /\ gungnir.reduceLeft op xs h = Ok (fold_left op l' x)
         /\ gungnir.reduceRight op xs h
            = Ok (fold_right op (last l x) (removelast l))
     end.
Proof.
  intros Hv. apply Repr_view in Hv. split.
  { unfold gungnir.size. rewrite (Repr_size Hv).
    destruct l; cbn [length]; split; intros; try discriminate; auto; lia. }
  destruct l as [|x l'].
  - assert (He := Repr_isEmpty Hv). cbn in He.
    unfold gungnir.head, gungnir.tail, gungnir.uncons, gungnir.last,
      gungnir.init, gungnir.reduce, gungnir.reduceLeft, gungnir.reduceRight.
    rewrite He. repeat split; reflexivity.
  - split; [apply (head_Repr Hv)|].
    split.
    { destruct (uncons_Repr Hv) as (t & E1 & E2 & Ht). exists t.
      repeat split; auto. now apply Repr_view. }
    split; [apply (last_Repr Hv)|].
    split.
    { destruct (init_Repr Hv) as (ys & e & E & Hy). exists ys, (h ++ e).
      split; auto. now apply Repr_view. }
    destruct (reduceLeft_Repr op Hv) as [E1 E2].
    split; [exact E2|]. split; [exact E1|]. apply (reduceRight_Repr op Hv).
Qed.

Lemma C4_witness :
  view (snd sample) (fst sample) = Some [1; 2; 4; 5; 6]%Z
  /\ gungnir.head (fst sample) (snd sample) = Ok 1%Z
  /\ gungnir.last (fst sample) (snd sample) = Ok 6%Z
  /\ gungnir.reduceRight Z.sub (fst sample) (snd sample) = Ok 4%Z.
Proof.
  split; [reflexivity|].
  destruct (@C4_empty_collection Z Z.sub (snd sample) (fst sample)
              [1; 2; 4; 5; 6]%Z eq_refl)
    as (_ & Hh & _ & Hl & _ & _ & _ & Hr).
  repeat split; assumption.
Defined.

(** C7, as the code has it.  [takeRight(n)] is [drop(size - min(n, size))]
    and [dropRight(n)] is [take(size - min(n, size))].  For [n <= size]
    these are [drop(size - n)] and [take(size - n)]; for [n > size],
    [takeRight(n)] is the whole list and [dropRight(n)] is empty. *)
Theorem C7_takeRight_dropRight {A : Type} (h : heap A) (xs : gungnir.List A)
    (l : list A) (n : Z) :
  view h xs = Some l ->
  is_size_t n ->
  gungnir.takeRight xs n h
  = gungnir.drop xs (gungnir.size xs - Z.min n (gungnir.size xs)) h
  /\ gungnir.dropRight xs n h
     = gungnir.take xs (gungnir.size xs - Z.min n (gungnir.size xs)) h
  /\ ((n <= gungnir.size xs)%Z ->
        gungnir.takeRight xs n h = takeRight_spec xs n h
        /\ gungnir.dropRight xs n h = dropRight_spec xs n h)
  /\ (exists ys h1,
        gungnir.takeRight xs n h = Ok (ys, h1)
        /\ view h1 ys = Some (skipn (length l - Z.to_nat n) l))
  /\ (exists zs h2,
        gungnir.dropRight xs n h = Ok (zs, h2)
        /\ view h2 zs = Some (firstn (length l - Z.to_nat n) l)).
Proof.
  intros Hv [Hn _]. apply Repr_view in Hv.
  assert (Hs := Repr_size Hv). assert (Hb := Repr_size_t Hv).
  unfold gungnir.takeRight, gungnir.dropRight, takeRight_spec,
    dropRight_spec, gungnir.size. rewrite Hs.
  assert (Hw : wrap (Z.of_nat (length l) - Z.min n (Z.of_nat (length l)))
               = (Z.of_nat (length l) - Z.min n (Z.of_nat (length l)))%Z)
    by (apply wrap_small; lia).
  rewrite Hw. split; [reflexivity|]. split; [reflexivity|].
  split.
  { intros Hle. rewrite Z.min_l in Hw |- * by lia. rewrite Hw. auto. }
  assert (Hk : Z.to_nat (Z.of_nat (length l) - Z.min n (Z.of_nat (length l)))
               = length l - Z.to_nat n) by lia.
  split.
  - destruct (drop_Repr Hv
                (n := (Z.of_nat (length l) - Z.min n (Z.of_nat (length l)))%Z))
      as (ys & e & E & Hy & _); [lia|].
    rewrite Hk in Hy. exists ys, (h ++ e). split; auto. now apply Repr_view.
  - destruct (take_Repr Hv
                (n := (Z.of_nat (length l) - Z.min n (Z.of_nat (length l)))%Z))
      as (ys & e & E & Hy & _); [lia|].
    rewrite Hk in Hy. exists ys, (h ++ e). split; auto. now apply Repr_view.
Qed.

Lemma C7_witness :
  view (snd sample) (fst sample) = Some [1; 2; 4; 5; 6]%Z
  /\ is_size_t 7
  /\ (exists ys h1,
        gungnir.takeRight (fst sample) 7 (snd sample) = Ok (ys, h1)
        /\ view h1 ys = Some [1; 2; 4; 5; 6]%Z)
  /\ (exists zs h2,
        gungnir.dropRight (fst sample) 7 (snd sample) = Ok (zs, h2)
        /\ view h2 zs = Some []).
Proof.
  assert (Hs : is_size_t 7) by (unfold is_size_t, size_t_modulus; lia).
  split; [reflexivity|]. split; [exact Hs|].
  destruct (@C7_takeRight_dropRight Z (snd sample) (fst sample)
              [1; 2; 4; 5; 6]%Z 7%Z eq_refl Hs) as (_ & _ & _ & Ht & Hd).
  split; assumption.
Defined.

(** C7, as the specification words it, fails: on [List<int>(123)] with
    [n = 2], [size - n] wraps to [2^64 - 1]; [drop] of that is empty where
    [takeRight(2)] is the whole list, and [take] of that is the whole list
    where [dropRight(2)] is empty. *)
Lemma C7_counterexample :
  view (snd sample_single) (fst sample_single) = Some [123%Z]
  /\ is_size_t 2
  /\ ~ same_list
         (gungnir.takeRight (fst sample_single) 2 (snd sample_single))
         (takeRight_spec (fst sample_single) 2 (snd sample_single))
  /\ ~ same_list
         (gungnir.dropRight (fst sample_single) 2 (snd sample_single))
         (dropRight_spec (fst sample_single) 2 (snd sample_single)).
Proof.
  split; [reflexivity|].
  split; [unfold is_size_t, size_t_modulus; lia|].
  split; intros (ys & h1 & zs & h2 & l & E1 & E2 & V1 & V2);
    vm_compute in E1, E2; inversion E1; inversion E2; subst;
    vm_compute in V1, V2; congruence.
Qed.

(** ** Insertion sort conforms *)

Section InsertionSort.

Context {A : Type} (lt : A -> A -> bool).
Hypothesis Hswo : strict_weak_order lt.

Lemma lt_asym x y : lt x y = true -> lt y x = false.
Proof.
  destruct Hswo as (Hirr & Htr & _). intros H.
  destruct (lt y x) eqn:E; auto.
  rewrite <- (Hirr x). symmetry. now apply Htr with y.
Qed.

Lemma le_trans x y z : lt y x = false -> lt z y = false -> lt z x = false.
Proof.
  destruct Hswo as (Hirr & Htr & Heq). intros Hyx Hzy.
  destruct (lt z x) eqn:Hzx; auto.
  destruct (lt x y) eqn:Hxy.
  { rewrite (Htr _ _ _ Hzx Hxy) in Hzy. discriminate. }
  destruct (lt y z) eqn:Hyz.
  { rewrite (Htr _ _ _ Hyz Hzx) in Hyx. discriminate. }
  assert (H : incomparable lt x z = true).
  { apply Heq with y; unfold incomparable; now rewrite ?Hxy, ?Hyx, ?Hyz, ?Hzy. }
  unfold incomparable in H. rewrite Hzx in H.
  destruct (lt x z); discriminate.
Qed.

Lemma incomparable_sym x y : incomparable lt x y = incomparable lt y x.
Proof. unfold incomparable. apply andb_comm. Qed.

Lemma insert_Permutation x l : Permutation (insert lt x l) (x :: l).
Proof.
  induction l as [|y l IH]; simpl; auto.
  destruct (lt y x); auto.
  rewrite IH. apply perm_swap.
Qed.

Lemma insert_ascending x l : ascending lt l -> ascending lt (insert lt x l).
Proof.
  unfold ascending. induction l as [|y l IH]; intros Hs; simpl.
  - repeat constructor.
  - apply StronglySorted_inv in Hs. destruct Hs as [Hs Hall].
    destruct (lt y x) eqn:E.
    + constructor; auto.
      apply (Permutation_Forall (Permutation_sym (insert_Permutation x l))).
      constructor; auto. now apply lt_asym.
    + constructor; [constructor; auto|].
      constructor; auto.
      apply Forall_impl with (2 := Hall). intros z Hz.
      now apply le_trans with y.
Qed.

Lemma insert_stable x l z :
  filter (incomparable lt z) (insert lt x l)
  = filter (incomparable lt z) (x :: l).
Proof.
  destruct Hswo as (Hirr & Htr & Heq).
  induction l as [|y l IH]; simpl; auto.
  destruct (lt y x) eqn:E; auto.
  simpl in *. rewrite IH.
  destruct (incomparable lt z y) eqn:Ey; auto.
  destruct (incomparable lt z x) eqn:Ex; auto.
  assert (H : incomparable lt y x = true).
  { apply Heq with z; auto. now rewrite incomparable_sym. }
  unfold incomparable in H. rewrite E in H. discriminate.
Qed.

Lemma insertion_sort_Permutation l : Permutation (insertion_sort lt l) l.
Proof.
  induction l as [|x l IH]; simpl; auto.
  rewrite insert_Permutation. now constructor.
Qed.

Lemma insertion_sort_ascending l : ascending lt (insertion_sort lt l).
Proof.
  induction l as [|x l IH]; simpl.
  - constructor.
  - now apply insert_ascending.
Qed.

Lemma insertion_sort_stable l : stable_wrt lt (insertion_sort lt l) l.
Proof.
  intros z. induction l as [|x l IH]; simpl; auto.
  rewrite insert_stable. simpl. now rewrite IH.
Qed.

End InsertionSort.

Lemma insertion_alg_conforming (A : Type) : conforming (insertion_alg A).
Proof.
  intros lt l Hswo. simpl. split; [split|split; [|split]].
  - rewrite insertion_sort_Permutation. symmetry. apply Permutation_rev.
  - now apply insertion_sort_ascending.
  - apply insertion_sort_Permutation.
  - now apply insertion_sort_ascending.
  - now apply insertion_sort_stable.
Qed.

Lemma Z_ltb_strict_weak_order : strict_weak_order Z.ltb.
Proof.
  unfold strict_weak_order, incomparable. repeat split.
  - intros x. apply Z.ltb_irrefl.
  - intros x y z H1 H2. apply Z.ltb_lt in H1, H2. apply Z.ltb_lt. lia.
  - intros x y z H1 H2.
    apply andb_true_iff in H1, H2. destruct H1 as [H1 H1'], H2 as [H2 H2'].
    apply negb_true_iff, Z.ltb_ge in H1, H1', H2, H2'.
    apply andb_true_iff. split; apply negb_true_iff, Z.ltb_ge; lia.
Qed.

Lemma sorted_Repr {A : Type} (alg : StdAlgorithm A) (lt : A -> A -> bool)
    (stable : bool) (h : heap A) (xs : gungnir.List A) (l l' : list A) :
  Repr h xs l ->
  l' = (if stable then std_stable_sort alg lt l else std_sort alg lt l) ->
  length l' = length l ->
  exists ys e,
    gungnir.sorted alg lt stable xs h = Ok (ys, h ++ e)
    /\ Repr (h ++ e) ys l'
    /\ length e = S (length l').
Proof.
  intros H El Hlen. assert (Hs := Repr_size H). assert (Hb := Repr_size_t H).
  destruct H as (cs & z & Hc & Hm & _). unfold gungnir.sorted.
  rewrite (foreachImpl_fuel_of _ _ Hc), Hm, foldM_push_back.
  cbn [bind app]. rewrite <- El.
  destruct (toList_Repr l' (size := gungnir.size xs) h) as (ys & e & E & Hy & Hl).
  { unfold gungnir.size. now rewrite Hs, Hlen. }
  { now rewrite Hlen. }
  rewrite E. eauto.
Qed.

(** C8.  With a comparator that is a strict weak order (and the standard
    algorithms doing what the standard says), [xs.sorted(lt, stable)] is a
    permutation of [xs] in ascending order; when [stable] is true, elements
    that compare equal keep the order they have in [xs]. *)
Theorem C8_sorted {A : Type} (alg : StdAlgorithm A) (lt : A -> A -> bool)
    (stable : bool) (h : heap A) (xs : gungnir.List A) (l : list A) :
  conforming alg ->
  strict_weak_order lt ->
  view h xs = Some l ->
  exists ys h' l',
    gungnir.sorted alg lt stable xs h = Ok (ys, h')
    /\ view h' ys = Some l'
    /\ Permutation l' l
    /\ ascending lt l'
    /\ (stable = true -> stable_wrt lt l' l)
    /\ view h' xs = Some l.
Proof.
  intros Halg Hswo Hv. apply Repr_view in Hv.
  destruct (Halg lt l Hswo) as [[Hp Ha] (Hp' & Ha' & Hst)].
  set (l' := if stable then std_stable_sort alg lt l else std_sort alg lt l).
  assert (Hperm : Permutation l' l) by (unfold l'; destruct stable; auto).
  destruct (sorted_Repr alg lt stable Hv (l' := l') eq_refl)
    as (ys & e & E & Hy & _).
  { now apply Permutation_length. }
  exists ys, (h ++ e), l'. split; [exact E|].
  split; [now apply Repr_view|]. split; [exact Hperm|].
  split; [unfold l'; destruct stable; auto|].
  split; [intros ->; exact Hst|].
  apply Repr_view. now apply Repr_ext.
Qed.

Lemma C8_witness :
  conforming (insertion_alg Z)
  /\ strict_weak_order Z.ltb
  /\ view (snd sample_unsorted) (fst sample_unsorted) = Some [3; 1; 2]%Z
  /\ exists ys h' l',
       gungnir.sorted (insertion_alg Z) Z.ltb true (fst sample_unsorted)
         (snd sample_unsorted) = Ok (ys, h')
       /\ view h' ys = Some l'
       /\ Permutation l' [3; 1; 2]%Z
       /\ ascending Z.ltb l'
       /\ (true = true -> stable_wrt Z.ltb l' [3; 1; 2]%Z)
       /\ view h' (fst sample_unsorted) = Some [3; 1; 2]%Z.
Proof.
  split; [apply insertion_alg_conforming|].
  split; [apply Z_ltb_strict_weak_order|].
  split; [reflexivity|].
  apply (@C8_sorted Z (insertion_alg Z) Z.ltb true (snd sample_unsorted)
           (fst sample_unsorted) [3; 1; 2]%Z
           (@insertion_alg_conforming Z) Z_ltb_strict_weak_order).
  reflexivity.
Defined.

(** ** The remaining constructors and operations *)

Section Builders.

Context {A : Type}.
Implicit Types (h : heap A) (xs : gungnir.List A) (l : list A).

Lemma create_Chain h :
  Chain (h ++ [Node.mk (@None A) None]) (Some (length h)) [] (length h).
Proof.
  apply Chain_Nil with None. rewrite nth_error_app2 by lia.
  now rewrite Nat.sub_diag.
Qed.

Lemma create2_Chain h p (cs : list (addr * A)) z x :
  Chain h p cs z ->
  Chain (h ++ [Node.mk (Some x) p]) (Some (length h)) ((length h, x) :: cs) z.
Proof.
  intros Hc. destruct (Chain_root Hc) as (a & -> & _ & Ha & _).
  apply Chain_Cons with a; [| lia | now apply Chain_ext].
  rewrite nth_error_app2 by lia. now rewrite Nat.sub_diag.
Qed.

(** In a store that fits the address space, a chain with the right cached
    size, computed with or without wrap-around, is a well-formed handle. *)
Lemma Repr_addressable h ys (cs : list (addr * A)) z :
  Chain h (gungnir.node_ ys) cs z -> addressable h ->
  gungnir.size_ ys = Z.of_nat (length cs)
  \/ gungnir.size_ ys = wrap (Z.of_nat (length cs)) ->
  Repr h ys (map snd cs).
Proof.
  intros Hc Ha Hs. assert (Hb := addressable_bound Hc Ha).
  exists cs, z. rewrite length_map. repeat split; auto.
  destruct Hs as [Hs|Hs]; auto. rewrite Hs. apply wrap_small. lia.
Qed.

Lemma toList_Chain (buf : list A) size h :
  exists ys e cs,
    gungnir.toList size (rev (map Some buf)) h = (ys, h ++ e)
    /\ gungnir.size_ ys = size
    /\ Chain (h ++ e) (gungnir.node_ ys) cs (length h)
    /\ map snd cs = buf
    /\ length e = S (length buf).
Proof.
  unfold gungnir.toList, NodeOps.create.
  destruct (toList_from_Chain buf size (create_Chain h))
    as (ys & e & cs' & E & Hsz & Hc' & Hm & Hl).
  rewrite E. exists ys, ([Node.mk None None] ++ e), cs'.
  rewrite app_assoc. rewrite app_nil_r in Hc'. repeat split; auto.
  simpl. now rewrite Hl.
Qed.

Lemma List_single_Repr (x : A) h :
  exists ys e, gungnir.List_single x h = (ys, h ++ e)
               /\ Repr (h ++ e) ys [x] /\ length e = 2.
Proof.
  unfold gungnir.List_single, NodeOps.create, NodeOps.create2.
  eexists. exists [Node.mk None None; Node.mk (Some x) (Some (length h))].
  split; [now rewrite <- app_assoc|]. split; [|reflexivity].
  assert (Hc := create2_Chain x (create_Chain h)).
  exists [(length (h ++ [Node.mk None None]), x)], (length h).
  change [Node.mk None None; Node.mk (Some x) (Some (length h))]
    with ([Node.mk (@None A) None] ++ [Node.mk (Some x) (Some (length h))]).
  rewrite app_assoc. repeat split; auto.
Qed.

Lemma prepend_Repr xs (x : A) h l :
  Repr h xs l ->
  exists ys e,
    gungnir.prepend xs x h = (ys, h ++ e)
    /\ length e = 1
    /\ ((Z.of_nat (S (length l)) < size_t_modulus)%Z ->
        Repr (h ++ e) ys (x :: l)).
Proof.
  intros (cs & z & Hc & Hm & Hs & _).
  unfold gungnir.prepend, NodeOps.create2, gungnir.size.
  eexists. exists [Node.mk (Some x) (gungnir.node_ xs)].
  split; [reflexivity|]. split; [reflexivity|]. intros Hb.
  exists ((length h, x) :: cs), z. cbn [gungnir.node_ gungnir.size_].
  split; [now apply create2_Chain|]. split; [simpl; now rewrite Hm|].
  rewrite Hs. cbn [length]. split; [|exact Hb]. rewrite wrap_small; lia.
Qed.

Lemma List_head_tail_prepend (x : A) t h :
  gungnir.List_head_tail x t h = gungnir.prepend t x h.
Proof. reflexivity. Qed.

Lemma List_variadic_Repr (tl : list A) :
  forall (x : A) h,
    exists ys e,
      gungnir.List_variadic x tl h = (ys, h ++ e)
      /\ length e = S (S (length tl))
      /\ ((Z.of_nat (S (length tl)) < size_t_modulus)%Z ->
          Repr (h ++ e) ys (x :: tl)).
Proof.
  induction tl as [|y tl IH]; intros x h.
  - destruct (List_single_Repr x h) as (ys & e & E & Hr & Hl).
    exists ys, e. simpl. auto.
  - cbn [gungnir.List_variadic].
    destruct (IH y h) as (t & e & E & Hl & Hr). rewrite E.
    rewrite List_head_tail_prepend.
    destruct (Z_lt_ge_dec (Z.of_nat (S (length (y :: tl)))) size_t_modulus)
      as [Hb|Hb].
    + assert (Ht : Repr (h ++ e) t (y :: tl)) by (apply Hr; cbn [length] in *; lia).
      destruct (prepend_Repr x Ht) as (ys & e' & E' & Hl' & Hr').
      rewrite E'. exists ys, (e ++ e'). rewrite app_assoc.
      split; auto. split; [rewrite length_app, Hl, Hl'; simpl; lia|auto].
    + unfold gungnir.prepend, NodeOps.create2. eexists.
      exists (e ++ [Node.mk (Some x) (gungnir.node_ t)]). rewrite app_assoc.
      split; [reflexivity|].
      split; [rewrite length_app, Hl; simpl; lia | intros; lia].
Qed.

Lemma List_range_Repr c (input : list A) h :
  exists ys e cs,
    gungnir.List_range c input h = (ys, h ++ e)
    /\ gungnir.size_ ys = Z.of_nat (length cs)
    /\ Chain (h ++ e) (gungnir.node_ ys) cs (length h)
    /\ map snd cs = gungnir.after_distance c input.
Proof.
  unfold gungnir.List_range.
  generalize (gungnir.after_distance c input). clear input. intros input.
  destruct (toList_Chain input (Z.of_nat (length (map Some input))) h)
    as (ys & e & cs & E & Hs & Hc & Hm & _).
  exists ys, e, cs. repeat split; auto.
  rewrite Hs, length_map, <- Hm, length_map. reflexivity.
Qed.

Lemma foldM_reverse (vs : list A) p h :
  foldM (fun x (s : option addr * heap A) =>
           Ok (NodeOps.create2 (Some x) (fst s) (snd s))) vs (p, h)
  = Ok (gungnir.toList_loop (map Some vs) p h).
Proof.
  revert p h. induction vs as [|v vs IH]; intros p h; simpl; auto.
  unfold NodeOps.create2. simpl. apply IH.
Qed.

Lemma reverse_Repr h xs l :
  Repr h xs l ->
  exists ys e,
    gungnir.reverse xs h = Ok (ys, h ++ e) /\ Repr (h ++ e) ys (rev l).
Proof.
  intros (cs & z & Hc & Hm & Hs & Hb). unfold gungnir.reverse.
  rewrite (foreachImpl_fuel_of _ _ Hc), Hm. unfold NodeOps.create at 1.
  rewrite foldM_reverse.
  destruct (toList_loop_Chain l (create_Chain h)) as (p' & e & cs' & E & Hc' & Hm' & _).
  rewrite E. cbn [bind]. eexists. exists ([Node.mk None None] ++ e).
  rewrite app_assoc. split; [reflexivity|].
  exists cs', (length h). rewrite app_nil_r in Hc'.
  rewrite length_rev. unfold gungnir.size. auto.
Qed.

Lemma prefix_while_length (p : A -> bool) l :
  length (prefix_while p l) <= length l.
Proof.
  induction l as [|x l IH]; simpl; auto. destruct (p x); simpl; lia.
Qed.

Lemma takeWhile_loop_Chain (pr : A -> bool) h p (cs : list (addr * A)) z :
  Chain h p cs z -> forall fuel buf, length cs < fuel ->
  gungnir.takeWhile_loop fuel h pr p buf
  = Ok (buf ++ map Some (prefix_while pr (map snd cs))).
Proof.
  induction 1 as [a t Hn | a x t cs z Hn Hlt Hc IH]; intros fuel buf Hf;
    destruct fuel as [|k]; simpl in *; try lia; rewrite Hn; simpl.
  - now rewrite app_nil_r.
  - destruct (pr x); simpl.
    + rewrite IH by lia. now rewrite <- app_assoc.
    + now rewrite app_nil_r.
Qed.

Lemma takeWhile_Repr (pr : A -> bool) h xs l :
  Repr h xs l ->
  exists ys e,
    gungnir.takeWhile pr xs h = Ok (ys, h ++ e)
    /\ Repr (h ++ e) ys (prefix_while pr l).
Proof.
  intros (cs & z & Hc & Hm & Hs & Hb). unfold gungnir.takeWhile.
  rewrite takeWhile_loop_Chain with (cs := cs) (z := z); auto.
  2:{ apply Chain_length in Hc. unfold fuel_of. lia. }
  cbn [bind app]. rewrite Hm, length_map.
  destruct (toList_Repr (prefix_while pr l) h eq_refl) as (ys & e & E & Hr & _).
  { assert (Hle := prefix_while_length pr l). lia. }
  rewrite E. eauto.
Qed.

Lemma dropWhile_loop_Chain (pr : A -> bool) h p (cs : list (addr * A)) z :
  Chain h p cs z -> forall fuel, length cs < fuel ->
  (Z.of_nat (length cs) < size_t_modulus)%Z ->
  exists p' cs',
    gungnir.dropWhile_loop fuel h pr (Z.of_nat (length cs)) p
    = Ok (Z.of_nat (length cs'), p')
    /\ Chain h p' cs' z
    /\ map snd cs' = suffix_from pr (map snd cs)
    /\ length cs' <= length cs.
Proof.
  induction 1 as [a t Hn | a x t cs z Hn Hlt Hc IH]; intros fuel Hf Hb;
    destruct fuel as [|k]; cbn [length] in *; try lia;
    cbn [gungnir.dropWhile_loop load bind]; rewrite Hn;
    cbn [bind Node.head Node.tail].
  - exists (Some a), []. repeat split; auto. now apply Chain_Nil with t.
  - cbn [map snd suffix_from]. destruct (pr x).
    + replace (wrap (Z.of_nat (S (length cs)) - 1)) with (Z.of_nat (length cs))
        by (rewrite wrap_small; lia).
      destruct (IH k) as (p' & cs' & E & Hc' & Hm' & Hl'); try lia.
      exists p', cs'. repeat split; auto.
    + exists (Some a), ((a, x) :: cs). repeat split; auto.
      now apply Chain_Cons with t.
Qed.

Lemma dropWhile_Repr (pr : A -> bool) h xs l :
  Repr h xs l ->
  exists ys,
    gungnir.dropWhile pr xs h = Ok (ys, h) /\ Repr h ys (suffix_from pr l).
Proof.
  intros (cs & z & Hc & Hm & Hs & Hb). unfold gungnir.dropWhile, gungnir.size.
  rewrite <- Hm, length_map in Hs, Hb. rewrite Hs.
  destruct (dropWhile_loop_Chain pr Hc (fuel := fuel_of h))
    as (p' & cs' & E & Hc' & Hm' & Hl'); auto.
  { apply Chain_length in Hc. unfold fuel_of. lia. }
  rewrite E. cbn [bind]. eexists. split; [reflexivity|].
  exists cs', z. cbn [gungnir.node_ gungnir.size_].
  rewrite <- Hm, <- Hm', length_map. repeat split; auto. lia.
Qed.

Lemma slice_Repr h xs l (from until : Z) :
  Repr h xs l -> (0 <= from)%Z -> is_size_t until ->
  exists ys e,
    gungnir.slice xs from until h = Ok (ys, h ++ e)
    /\ Repr (h ++ e) ys
         (firstn (Z.to_nat until - Z.to_nat from) (skipn (Z.to_nat from) l)).
Proof.
  intros H Hf [Hu Hu']. unfold gungnir.slice.
  destruct (from >=? until)%Z eqn:E.
  - destruct (List_empty_Repr h) as (ys & E' & Hr). rewrite E'.
    exists ys, [Node.mk None None]. split; auto.
    replace (Z.to_nat until - Z.to_nat from) with 0 by lia. exact Hr.
  - destruct (drop_Repr H Hf) as (d & e1 & E1 & Hd & _). rewrite E1.
    cbn [bind].
    assert (Hw : wrap (until - from) = (until - from)%Z)
      by (apply wrap_small; lia).
    rewrite Hw.
    destruct (take_Repr Hd (n := (until - from)%Z)) as (ys & e2 & E2 & Hy & _);
      [lia|].
    rewrite E2. exists ys, (e1 ++ e2). rewrite app_assoc. split; auto.
    replace (Z.to_nat until - Z.to_nat from) with (Z.to_nat (until - from))
      by lia.
    exact Hy.
Qed.

End Builders.

Section Transformers.

Context {A B : Type}.

Lemma foldM_map (f : A -> B) (l : list A) (buf : list (option B)) :
  foldM (fun x buf => Ok (buf ++ [Some (f x)])) l buf
  = Ok (buf ++ map Some (map f l)).
Proof.
  revert buf. induction l as [|x l IH]; intros buf; simpl.
  - now rewrite app_nil_r.
  - rewrite IH, <- app_assoc. reflexivity.
Qed.

Lemma map_Repr (f : A -> B) (hA : heap A) (hB : heap B) xs l :
  Repr hA xs l ->
  exists ys e,
    gungnir.map f xs hA hB = Ok (ys, hB ++ e)
    /\ Repr (hB ++ e) ys (map f l).
Proof.
  intros (cs & z & Hc & Hm & Hs & Hb). unfold gungnir.map.
  rewrite (foreachImpl_fuel_of _ _ Hc), Hm, foldM_map. cbn [bind app].
  destruct (toList_Repr (map f l) (size := gungnir.size xs) hB)
    as (ys & e & E & Hr & _).
  { unfold gungnir.size. now rewrite Hs, length_map. }
  { now rewrite length_map. }
  rewrite E. eauto.
Qed.

Lemma zip_loop_Chain (hA : heap A) (hB : heap B) p1
    (cs1 : list (addr * A)) z1 :
  Chain hA p1 cs1 z1 ->
  forall p2 (cs2 : list (addr * B)) z2 s buf,
    Chain hB p2 cs2 z2 -> s <= length cs1 -> s <= length cs2 ->
    gungnir.zip_loop hA hB s p1 p2 buf
    = Ok (buf ++ map Some (firstn s (combine (map snd cs1) (map snd cs2)))).
Proof.
  induction 1 as [a t Hn | a x t cs z Hn Hlt Hc IH];
    intros p2 cs2 z2 s buf H2 H1le H2le.
  - simpl in H1le. assert (s = 0) by lia. subst s. simpl.
    now rewrite app_nil_r.
  - destruct s as [|s]; [simpl; now rewrite app_nil_r|].
    inversion H2 as [b t2 Hn2 | b y t2 cs2' z2' Hn2 Hlt2 Hc2]; subst;
      simpl in H2le; [lia|].
    simpl. rewrite Hn. simpl. rewrite Hn2. simpl.
    simpl in H1le. rewrite (IH _ _ _ s _ Hc2) by lia.
    now rewrite <- app_assoc.
Qed.

Lemma zip_Repr (hA : heap A) (hB : heap B) (hAB : heap (A * B)) xs that
    l1 l2 :
  Repr hA xs l1 -> Repr hB that l2 ->
  exists ys e,
    gungnir.zip xs that hA hB hAB = Ok (ys, hAB ++ e)
    /\ Repr (hAB ++ e) ys (combine l1 l2).
Proof.
  intros (cs1 & z1 & Hc1 & Hm1 & Hs1 & Hb1) (cs2 & z2 & Hc2 & Hm2 & Hs2 & Hb2).
  unfold gungnir.zip, gungnir.size. rewrite Hs1, Hs2.
  assert (Hk : Z.to_nat (Z.min (Z.of_nat (length l1)) (Z.of_nat (length l2)))
               = Nat.min (length l1) (length l2)) by lia.
  rewrite Hk.
  rewrite (zip_loop_Chain Hc1 (s := Nat.min (length l1) (length l2)) [] Hc2).
  2,3: rewrite <- ?Hm1, <- ?Hm2, !length_map; lia.
  cbn [bind app]. rewrite Hm1, Hm2.
  rewrite <- length_combine, firstn_all, length_map.
  destruct (toList_Repr (combine l1 l2) hAB eq_refl) as (ys & e & E & Hr & _).
  { rewrite length_combine. lia. }
  rewrite E. eauto.
Qed.

Lemma scan_left_length (op : B -> A -> B) (l : list A) (z : B) :
  length (scan_left op l z) = S (length l).
Proof.
  revert z. induction l as [|x l IH]; intros z; simpl; auto.
Qed.

Lemma foldM_scanLeft (op : B -> A -> B) (l : list A) (pre : list B) (b : B) :
  foldM (fun x acc =>
           match rev acc with
           | [] => Undefined
           | b :: _ => Ok (acc ++ [op b x])
           end) l (pre ++ [b])
  = Ok (pre ++ scan_left op l b).
Proof.
  revert pre b. induction l as [|x l IH]; intros pre b.
  - reflexivity.
  - cbn [foldM]. rewrite rev_unit. cbn [bind]. rewrite IH.
    cbn [scan_left]. now rewrite <- app_assoc.
Qed.

Lemma scanLeft_Repr (z : B) (op : B -> A -> B) (hA : heap A) (hB : heap B)
    xs l :
  Repr hA xs l ->
  exists ys e,
    gungnir.scanLeft z op xs hA hB = Ok (ys, hB ++ e)
    /\ length e = S (S (length l))
    /\ ((Z.of_nat (S (length l)) < size_t_modulus)%Z ->
        Repr (hB ++ e) ys (scan_left op l z)).
Proof.
  intros (cs & z0 & Hc & Hm & Hs & Hb). unfold gungnir.scanLeft.
  rewrite (foreachImpl_fuel_of _ _ Hc), Hm.
  assert (Hf := foldM_scanLeft op l [] z). cbn [app] in Hf. rewrite Hf.
  cbn [bind].
  destruct (toList_Chain (scan_left op l z) (wrap (gungnir.size xs + 1)) hB)
    as (ys & e & cs' & E & Hsz & Hc' & Hm' & Hl).
  rewrite E. exists ys, e. split; auto.
  rewrite scan_left_length in Hl. split; auto.
  intros Hb'. exists cs', (length hB). rewrite scan_left_length.
  repeat split; auto.
  rewrite Hsz. unfold gungnir.size. rewrite Hs. rewrite wrap_small; lia.
Qed.

Lemma scan_right_length (op : A -> B -> B) (l : list A) (z : B) :
  length (scan_right op l z) = S (length l).
Proof.
  unfold scan_right. induction l as [|x l IH]; simpl; auto.
  destruct (fold_right (scan_step op) [z] l); simpl in *; [discriminate|lia].
Qed.

Lemma scanRight_loop_Chain (op : A -> B -> B) (rs : list A) :
  forall (h : heap B) hd (cs : list (addr * B)) zz,
    Chain h hd cs zz -> cs <> [] ->
    exists hd' e cs',
      gungnir.scanRight_loop op rs hd h = Ok (hd', h ++ e)
      /\ Chain (h ++ e) hd' cs' zz
      /\ map snd cs'
         = fold_left (fun acc x => scan_step op x acc) rs (map snd cs)
      /\ cs' <> []
      /\ length e = length rs.
Proof.
  induction rs as [|x rs IH]; intros h hd cs zz Hc Hne.
  - exists hd, [], cs. rewrite app_nil_r. simpl. auto.
  - destruct cs as [|[a b] cs]; [contradiction|].
    destruct (Chain_elems_cons Hc eq_refl)
      as (a' & t & cs0 & -> & Ecs & _ & Hn & _ & _).
    cbn [snd] in Hn.
    cbn [gungnir.scanRight_loop load bind]. rewrite Hn.
    cbn [bind Node.head deref]. unfold NodeOps.create2.
    assert (Hc1 := create2_Chain (op x b) Hc).
    destruct (IH _ _ _ _ Hc1) as (hd' & e & cs' & E & Hc' & Hm & Hne' & Hl);
      [discriminate|].
    rewrite E. exists hd', ([Node.mk (Some (op x b)) (Some a')] ++ e), cs'.
    rewrite app_assoc. repeat split; auto. simpl. now rewrite Hl.
Qed.

Lemma scanRight_Repr (z : B) (op : A -> B -> B) (hA : heap A) (hB : heap B)
    xs l :
  Repr hA xs l ->
  exists ys e,
    gungnir.scanRight z op xs hA hB = Ok (ys, hB ++ e)
    /\ length e = S (S (length l))
    /\ ((Z.of_nat (S (length l)) < size_t_modulus)%Z ->
        Repr (hB ++ e) ys (scan_right op l z)).
Proof.
  intros (cs & z0 & Hc & Hm & Hs & Hb). unfold gungnir.scanRight.
  rewrite (foreachImpl_fuel_of _ _ Hc), Hm, foldM_push_back.
  cbn [bind app]. unfold NodeOps.create, NodeOps.create2.
  assert (Hc1 := create2_Chain z (create_Chain hB)).
  destruct (scanRight_loop_Chain op (rev l) Hc1)
    as (hd' & e & cs' & E & Hc' & Hm' & _ & Hl); [discriminate|].
  rewrite E. cbn [bind]. eexists.
  exists (([Node.mk None None] ++ [Node.mk (Some z) (Some (length hB))]) ++ e).
  rewrite !app_assoc. split; [reflexivity|].
  rewrite length_rev in Hl. split; [rewrite length_app, Hl; simpl; lia|].
  intros Hb'. exists cs', (length hB).
  cbn [gungnir.node_ gungnir.size_].
  assert (Hel : map snd cs' = scan_right op l z).
  { rewrite Hm'. unfold scan_right. cbn [map snd].
    rewrite <- (rev_involutive l) at 2. now rewrite fold_left_rev_right. }
  repeat split; auto.
  - rewrite scan_right_length. unfold gungnir.size. rewrite Hs.
    rewrite wrap_small; lia.
  - now rewrite scan_right_length.
Qed.

End Transformers.

(** ** Stores only grow *)

Lemma extends_refl {B : Type} (h : heap B) : extends h h.
Proof. exists []. now rewrite app_nil_r. Qed.

Lemma extends_app {B : Type} (h e : heap B) : extends h (h ++ e).
Proof. now exists e. Qed.

Lemma extends_trans {B : Type} (h1 h2 h3 : heap B) :
  extends h1 h2 -> extends h2 h3 -> extends h1 h3.
Proof.
  intros [e1 ->] [e2 ->]. exists (e1 ++ e2). now rewrite app_assoc.
Qed.

Lemma valid_Repr {B : Type} (h : heap B) (xs : gungnir.List B) :
  valid h xs <-> exists l, Repr h xs l.
Proof.
  unfold valid. split; intros [l H]; exists l; now apply Repr_view.
Qed.

Lemma yields_intro {B : Type} (h h' : heap B) (ys : gungnir.List B) l :
  extends h h' -> (addressable h' -> Repr h' ys l) ->
  yields_list h (Ok (ys, h')).
Proof.
  intros He Hr. split; auto. intros Ha. specialize (Hr Ha). split.
  - apply valid_Repr. eauto.
  - eapply Repr_invariant; eauto.
Qed.

Section Flattening.

Context {A B : Type}.

Lemma foldM_flatten (hB : heap B) (ll : list (gungnir.List B)) lls :
  Forall2 (Repr hB) ll lls -> forall buf,
  foldM (fun ys buf =>
           gungnir.foreachImpl (fuel_of hB) hB gungnir.push_back
             (gungnir.node_ ys) buf) ll buf
  = Ok (buf ++ concat lls).
Proof.
  induction 1 as [|ys l ll lls (cs & z & Hc & Hm & _) _ IH]; intros buf;
    cbn [foldM concat].
  - now rewrite app_nil_r.
  - rewrite (foreachImpl_fuel_of _ _ Hc), Hm, foldM_push_back. cbn [bind].
    rewrite IH. now rewrite app_assoc.
Qed.

Lemma Forall_valid (h : heap B) (ll : list (gungnir.List B)) :
  Forall (valid h) ll -> exists lls, Forall2 (Repr h) ll lls.
Proof.
  induction 1 as [|ys ll Hv _ [lls IH]].
  - exists []. constructor.
  - apply valid_Repr in Hv. destruct Hv as [l Hl].
    exists (l :: lls). now constructor.
Qed.

Lemma flatten_Repr (hL : heap (gungnir.List B)) (hB : heap B) xs ll lls :
  Repr hL xs ll -> Forall2 (Repr hB) ll lls ->
  exists ys e cs,
    gungnir.flatten xs hL hB = Ok (ys, hB ++ e)
    /\ gungnir.size_ ys = Z.of_nat (length cs)
    /\ Chain (hB ++ e) (gungnir.node_ ys) cs (length hB)
    /\ map snd cs = concat lls.
Proof.
  intros (cs & z & Hc & Hm & _) Hall. unfold gungnir.flatten.
  rewrite (foreachImpl_fuel_of _ _ Hc), Hm, (foldM_flatten Hall).
  cbn [bind app].
  destruct (toList_Chain (concat lls) (Z.of_nat (length (concat lls))) hB)
    as (ys & e & cs' & E & Hs & Hc' & Hm' & _).
  rewrite E. exists ys, e, cs'. repeat split; auto.
  now rewrite Hs, <- Hm', length_map.
Qed.

Lemma foldM_flatMap (h : heap B)
    (f : A -> heap B -> outcome (gungnir.List B * heap B)) (l : list A) :
  list_fn h f -> forall buf hb, extends h hb ->
  match
    foldM (fun x (s : list B * heap B) =>
             '(ys, hB1) <- f x (snd s) ;;
             buf' <- gungnir.foreachImpl (fuel_of hB1) hB1 gungnir.push_back
                       (gungnir.node_ ys) (fst s) ;;
             Ok (buf', hB1)) l (buf, hb)
  with
  | Ok (_, hb') => extends h hb'
  | Throw _ => True
  | _ => False
  end.
Proof.
  intros Hf. induction l as [|x l IH]; intros buf hb He;
    cbn [foldM fst snd]; auto.
  assert (Hx := Hf x hb He).
  destruct (f x hb) as [[ys hb1]| | |]; cbn [bind]; auto.
  destruct Hx as [He1 Hv]. apply valid_Repr in Hv.
  destruct Hv as (l' & cs & z & Hc & Hm & _).
  rewrite (foreachImpl_fuel_of _ _ Hc), Hm, foldM_push_back. cbn [bind].
  apply IH. now apply extends_trans with hb.
Qed.

Lemma flatMap_yields (h : heap B) (hA : heap A) f xs :
  valid hA xs -> list_fn h f ->
  yields_list h (gungnir.flatMap f xs hA h).
Proof.
  intros Hv Hf. apply valid_Repr in Hv.
  destruct Hv as (l & cs & z & Hc & Hm & _). unfold gungnir.flatMap.
  rewrite (foreachImpl_fuel_of _ _ Hc), Hm.
  assert (H := foldM_flatMap l Hf [] (extends_refl h)).
  match goal with
  | |- yields_list _ (bind ?m _) => destruct m as [[buf hb']| | |]
  end; auto.
  cbn [bind].
  destruct (toList_Chain buf (Z.of_nat (length buf)) hb')
    as (ys & e & cs' & E & Hs & Hc' & Hm' & _).
  rewrite E. apply yields_intro with buf.
  - apply extends_trans with hb'; auto. apply extends_app.
  - intros Ha. rewrite <- Hm'. apply Repr_addressable with (length hb'); auto.
    left. now rewrite Hs, <- Hm', length_map.
Qed.

End Flattening.

Lemma right_index {A : Type} (h : heap A) (xs : gungnir.List A) l (n : Z) :
  Repr h xs l -> (0 <= n)%Z ->
  wrap (gungnir.size xs - Z.min n (gungnir.size xs))
  = Z.of_nat (length l - Z.to_nat n).
Proof.
  intros H Hn. unfold gungnir.size. rewrite (Repr_size H).
  assert (Hb := Repr_size_t H). rewrite wrap_small; lia.
Qed.



(** * Further properties of the operations *)

Section WhileFacts.

Context {A : Type} (p : A -> bool).

Lemma prefix_suffix (l : list A) : prefix_while p l ++ suffix_from p l = l.
Proof.
  induction l as [|x l IH]; simpl; auto.
  destruct (p x); simpl; congruence.
Qed.

Lemma prefix_while_forallb (l : list A) : forallb p (prefix_while p l) = true.
Proof.
  induction l as [|x l IH]; simpl; auto.
  destruct (p x) eqn:E; simpl; auto. now rewrite E.
Qed.

Lemma suffix_from_head (l : list A) :
  match suffix_from p l with
  | x :: _ => p x = false
  | [] => True
  end.
Proof.
  induction l as [|x l IH]; simpl; auto.
  destruct (p x) eqn:E; auto.
Qed.

Lemma suffix_from_skipn (l : list A) :
  suffix_from p l = skipn (length (prefix_while p l)) l.
Proof.
  induction l as [|x l IH]; simpl; auto.
  destruct (p x); simpl; auto.
Qed.

Lemma dropWhile_shared (h : heap A) (xs : gungnir.List A)
    (cs : list (addr * A)) z :
  Chain h (gungnir.node_ xs) cs z ->
  gungnir.size_ xs = Z.of_nat (length cs) ->
  (Z.of_nat (length cs) < size_t_modulus)%Z ->
  exists ys,
    gungnir.dropWhile p xs h = Ok (ys, h)
    /\ Chain h (gungnir.node_ ys)
         (skipn (length (prefix_while p (map snd cs))) cs) z
    /\ gungnir.size_ ys
       = Z.of_nat (length (skipn (length (prefix_while p (map snd cs))) cs)).
Proof.
  intros Hc Hs Hb. unfold gungnir.dropWhile, gungnir.size. rewrite Hs.
  assert (Hf : length cs < fuel_of h)
    by (apply Chain_length in Hc; unfold fuel_of; lia).
  revert Hf Hb. generalize (fuel_of h). generalize (gungnir.node_ xs) Hc.
  clear Hc Hs. intros pt Hc.
  induction Hc as [a t Hn | a x t cs z Hn Hlt Hc IH]; intros fuel Hf Hb;
    destruct fuel as [|k]; cbn [length] in *; try lia;
    cbn [gungnir.dropWhile_loop load bind]; rewrite Hn;
    cbn [bind Node.head Node.tail map snd prefix_while].
  - eexists. split; [reflexivity|]. cbn. split; auto.
    now apply Chain_Nil with t.
  - destruct (p x); cbn [length skipn].
    + replace (wrap (Z.of_nat (S (length cs)) - 1)) with (Z.of_nat (length cs))
        by (rewrite wrap_small; lia).
      apply IH; lia.
    + eexists. split; [reflexivity|]. cbn [gungnir.node_ gungnir.size_ length].
      split; auto. now apply Chain_Cons with t.
Qed.

End WhileFacts.

(** X1.  [xs.reverse()] holds the elements of [xs] in reverse order and has
    the size of [xs]; reversing twice gives a list that holds the elements
    of [xs] in their order.  It compares [==] to [xs] exactly when no element
    of [xs] is [!=] to itself: always, when [operator!=] is false of an
    element against itself. *)
Theorem X1_reverse_involutive {A : Type} (A_ne : A -> A -> bool)
    (h : heap A) (xs : gungnir.List A) (l : list A) :
  view h xs = Some l ->
  exists ys h1 zs h2,
    gungnir.reverse xs h = Ok (ys, h1)
    /\ view h1 ys = Some (rev l)
    /\ gungnir.size ys = gungnir.size xs
    /\ gungnir.reverse ys h1 = Ok (zs, h2)
    /\ view h2 zs = Some l
    /\ gungnir.op_eq A_ne false zs xs h2 = Ok (all_eq A_ne l l)
    /\ ((forall x, A_ne x x = false) ->
          gungnir.op_eq A_ne false zs xs h2 = Ok true).
Proof.
  intros Hv. apply Repr_view in Hv.
  destruct (reverse_Repr Hv) as (ys & e1 & E1 & Hy).
  destruct (reverse_Repr Hy) as (zs & e2 & E2 & Hz).
  rewrite rev_involutive in Hz.
  exists ys, (h ++ e1), zs, ((h ++ e1) ++ e2).
  split; [exact E1|]. split; [now apply Repr_view|].
  split.
  { unfold gungnir.size. rewrite (Repr_size Hy), (Repr_size Hv).
    now rewrite length_rev. }
  split; [exact E2|]. split; [now apply Repr_view|].
  assert (Hx : Repr ((h ++ e1) ++ e2) xs l) by (do 2 apply Repr_ext; exact Hv).
  rewrite (op_eq_Repr A_ne Hz Hx), Nat.eqb_refl. cbn [andb].
  split; [reflexivity|]. intros Hne. now rewrite all_eq_refl.
Qed.

Lemma X1_witness :
  view (snd sample) (fst sample) = Some [1; 2; 4; 5; 6]%Z
  /\ exists ys h1 zs h2,
       gungnir.reverse (fst sample) (snd sample) = Ok (ys, h1)
       /\ view h1 ys = Some (rev [1; 2; 4; 5; 6]%Z)
       /\ gungnir.size ys = gungnir.size (fst sample)
       /\ gungnir.reverse ys h1 = Ok (zs, h2)
       /\ view h2 zs = Some [1; 2; 4; 5; 6]%Z
       /\ gungnir.op_eq int_ne false zs (fst sample) h2
          = Ok (all_eq int_ne [1; 2; 4; 5; 6]%Z [1; 2; 4; 5; 6]%Z)
       /\ ((forall x, int_ne x x = false) ->
             gungnir.op_eq int_ne false zs (fst sample) h2 = Ok true).
Proof.
  split; [reflexivity|].
  apply (@X1_reverse_involutive Z int_ne (snd sample) (fst sample)
           [1; 2; 4; 5; 6]%Z eq_refl).
Defined.

(** X2.  [xs.map(f)] holds [f] of each element of [xs], in order, and has
    the size of [xs]; mapping [f] and then [g] gives the elements of mapping
    their composition. *)
Theorem X2_map {A B C : Type} (f : A -> B) (g : B -> C) (hA : heap A)
    (hB : heap B) (hC : heap C) (xs : gungnir.List A) (l : list A) :
  view hA xs = Some l ->
  exists ys hB' zs hC' ws hC'',
    gungnir.map f xs hA hB = Ok (ys, hB')
    /\ view hB' ys = Some (map f l)
    /\ gungnir.size ys = gungnir.size xs
    /\ gungnir.map g ys hB' hC = Ok (zs, hC')
    /\ gungnir.map (fun x => g (f x)) xs hA hC' = Ok (ws, hC'')
    /\ view hC' zs = Some (map g (map f l))
    /\ view hC'' ws = Some (map g (map f l)).
Proof.
  intros Hv. apply Repr_view in Hv.
  destruct (map_Repr f hB Hv) as (ys & e1 & E1 & Hy).
  destruct (map_Repr g hC Hy) as (zs & e2 & E2 & Hz).
  destruct (map_Repr (fun x => g (f x)) (hC ++ e2) Hv) as (ws & e3 & E3 & Hw).
  rewrite <- map_map in Hw.
  exists ys, (hB ++ e1), zs, (hC ++ e2), ws, ((hC ++ e2) ++ e3).
  split; [exact E1|]. split; [now apply Repr_view|].
  split.
  { unfold gungnir.size. rewrite (Repr_size Hy), (Repr_size Hv).
    now rewrite length_map. }
  split; [exact E2|]. split; [exact E3|].
  split; now apply Repr_view.
Qed.

Lemma X2_witness :
  view (snd sample) (fst sample) = Some [1; 2; 4; 5; 6]%Z
  /\ exists ys hB' zs hC' ws hC'',
       gungnir.map (fun x => x * x)%Z (fst sample) (snd sample) []
       = Ok (ys, hB')
       /\ view hB' ys = Some (map (fun x => x * x)%Z [1; 2; 4; 5; 6]%Z)
       /\ gungnir.size ys = gungnir.size (fst sample)
       /\ gungnir.map even ys hB' [] = Ok (zs, hC')
       /\ gungnir.map (fun x => even (x * x)%Z) (fst sample) (snd sample) hC'
          = Ok (ws, hC'')
       /\ view hC' zs
          = Some (map even (map (fun x => x * x)%Z [1; 2; 4; 5; 6]%Z))
       /\ view hC'' ws
          = Some (map even (map (fun x => x * x)%Z [1; 2; 4; 5; 6]%Z)).
Proof.
  split; [reflexivity|].
  apply (@X2_map Z Z bool (fun x => x * x)%Z even (snd sample) [] []
           (fst sample)).
  reflexivity.
Defined.

(** X3.  [xs.takeWhile(p)] holds the longest prefix of [xs] whose elements
    satisfy [p]: every element of it satisfies [p], and the element of [xs]
    that follows it, if there is one, does not. *)
Theorem X3_takeWhile {A : Type} (p : A -> bool) (h : heap A)
    (xs : gungnir.List A) (l : list A) :
  view h xs = Some l ->
  exists ys h1 rest,
    gungnir.takeWhile p xs h = Ok (ys, h1)
    /\ view h1 ys = Some (prefix_while p l)
    /\ l = prefix_while p l ++ rest
    /\ gungnir.forall_ (gungnir.pure_pred p) ys tt h1 = Ok (true, tt)
    /\ match rest with
       | x :: _ => p x = false
       | [] => True
       end.
Proof.
  intros Hv. apply Repr_view in Hv.
  destruct (takeWhile_Repr p Hv) as (ys & e & E & Hy).
  exists ys, (h ++ e), (suffix_from p l).
  split; [exact E|]. split; [now apply Repr_view|].
  split; [symmetry; apply prefix_suffix|].
  split; [|apply suffix_from_head].
  now rewrite (forall_Repr _ tt Hy), forall_run_pure, prefix_while_forallb.
Qed.

Lemma X3_witness :
  view (snd sample) (fst sample) = Some [1; 2; 4; 5; 6]%Z
  /\ exists ys h1 rest,
       gungnir.takeWhile (fun x => x <? 4)%Z (fst sample) (snd sample)
       = Ok (ys, h1)
       /\ view h1 ys = Some (prefix_while (fun x => x <? 4)%Z [1; 2; 4; 5; 6]%Z)
       /\ [1; 2; 4; 5; 6]%Z
          = prefix_while (fun x => x <? 4)%Z [1; 2; 4; 5; 6]%Z ++ rest
       /\ gungnir.forall_ (gungnir.pure_pred (fun x => x <? 4)%Z) ys tt h1
          = Ok (true, tt)
       /\ match rest with
          | x :: _ => (x <? 4)%Z = false
          | [] => True
          end.
Proof.
  split; [reflexivity|].
  apply (@X3_takeWhile Z (fun x => x <? 4)%Z (snd sample) (fst sample)).
  reflexivity.
Defined.

(** X4.  [xs.dropWhile(p)] allocates nothing: its nodes are the very nodes
    of [xs] after the prefix that [takeWhile(p)] takes.  Its first element,
    if there is one, violates [p], and
    [xs.takeWhile(p).concat(xs.dropWhile(p))] has the elements of [xs]. *)
Theorem X4_dropWhile {A : Type} (p : A -> bool) (h : heap A)
    (xs : gungnir.List A) (l : list A) :
  view h xs = Some l ->
  exists ys ns,
    gungnir.dropWhile p xs h = Ok (ys, h)
    /\ view h ys = Some (suffix_from p l)
    /\ nodes h xs = Some ns
    /\ nodes h ys = Some (skipn (length (prefix_while p l)) ns)
    /\ match suffix_from p l with
       | x :: _ => p x = false
       | [] => True
       end
    /\ exists ts h1 ws h2,
         gungnir.takeWhile p xs h = Ok (ts, h1)
         /\ gungnir.concat ts ys h1 = Ok (ws, h2)
         /\ view h2 ws = Some l.
Proof.
  intros Hv. apply Repr_view in Hv. assert (Hr := Hv).
  destruct Hv as (cs & z & Hc & Hm & Hs & Hb).
  rewrite <- Hm, length_map in Hs, Hb.
  destruct (dropWhile_shared p xs Hc Hs Hb) as (ys & E & Hc' & Hs').
  rewrite Hm in Hc', Hs'.
  set (k := length (prefix_while p l)) in *.
  assert (Hk : k <= length cs).
  { unfold k. rewrite <- (length_map snd cs), Hm.
    apply prefix_while_length. }
  assert (Hy : Repr h ys (suffix_from p l)).
  { exists (skipn k cs), z. rewrite suffix_from_skipn. fold k.
    rewrite <- Hm, skipn_map, length_map. repeat split; auto.
    rewrite length_skipn. lia. }
  exists ys, (map fst cs ++ [z]).
  split; [exact E|]. split; [now apply Repr_view|].
  split; [apply (nodes_Chain xs Hc)|].
  split.
  { rewrite (nodes_Chain ys Hc'), skipn_app, length_map, skipn_map.
    replace (k - length cs) with 0 by lia. reflexivity. }
  split; [apply suffix_from_head|].
  destruct (takeWhile_Repr p Hr) as (ts & e & Et & Ht).
  destruct (concat_Repr Ht (Repr_ext e Hy)) as (ws & e2 & Ec & Hw & _).
  rewrite <- length_app, prefix_suffix in Hw.
  exists ts, (h ++ e), ws, ((h ++ e) ++ e2).
  split; [exact Et|]. split; [exact Ec|].
  apply Repr_view. apply Hw. rewrite <- Hm, length_map. exact Hb.
Qed.

Lemma X4_witness :
  view (snd sample) (fst sample) = Some [1; 2; 4; 5; 6]%Z
  /\ exists ys ns,
       gungnir.dropWhile (fun x => x <? 4)%Z (fst sample) (snd sample)
       = Ok (ys, snd sample)
       /\ view (snd sample) ys
          = Some (suffix_from (fun x => x <? 4)%Z [1; 2; 4; 5; 6]%Z)
       /\ nodes (snd sample) (fst sample) = Some ns
       /\ nodes (snd sample) ys
          = Some (skipn
                    (length (prefix_while (fun x => x <? 4)%Z
                               [1; 2; 4; 5; 6]%Z)) ns)
       /\ match suffix_from (fun x => x <? 4)%Z [1; 2; 4; 5; 6]%Z with
          | x :: _ => (x <? 4)%Z = false
          | [] => True
          end
       /\ exists ts h1 ws h2,
            gungnir.takeWhile (fun x => x <? 4)%Z (fst sample) (snd sample)
            = Ok (ts, h1)
            /\ gungnir.concat ts ys h1 = Ok (ws, h2)
            /\ view h2 ws = Some [1; 2; 4; 5; 6]%Z.
Proof.
  split; [reflexivity|].
  apply (@X4_dropWhile Z (fun x => x <? 4)%Z (snd sample) (fst sample)).
  reflexivity.
Defined.

Section SharingFacts.

Context {A : Type}.
Implicit Types (h : heap A) (xs : gungnir.List A) (l : list A).

Lemma handle_eta xs : gungnir.mkList (gungnir.size_ xs) (gungnir.node_ xs) = xs.
Proof. now destruct xs. Qed.

(** Along a chain the addresses decrease. *)
Lemma Chain_below h a (cs : list (addr * A)) z :
  Chain h (Some a) cs z -> Forall (fun c => fst c <= a) cs.
Proof.
  remember (Some a) as p eqn:Ep. intros Hc. revert a Ep.
  induction Hc as [b t Hn | b x t cs z Hn Hlt Hc IH]; intros a Ep;
    inversion Ep; subst; constructor; simpl; auto.
  apply Forall_impl with (2 := IH t eq_refl). simpl. intros; lia.
Qed.

Lemma Chain_above h p (cs1 cs2 : list (addr * A)) b x z :
  Chain h p (cs1 ++ (b, x) :: cs2) z -> Forall (fun c => b < fst c) cs1.
Proof.
  revert p. induction cs1 as [|[c y] cs1 IH]; intros p Hc; constructor.
  - simpl. destruct (Chain_elems_cons Hc eq_refl)
      as (a' & t & cs0 & _ & E & _ & _ & Hlt & Hc0).
    inversion E; subst a' cs0.
    assert (Hb := Chain_below Hc0). apply Forall_app in Hb.
    destruct Hb as [_ Hb]. inversion Hb; subst. simpl in *. lia.
  - destruct (Chain_elems_cons Hc eq_refl)
      as (a' & t & cs0 & _ & E & _ & _ & _ & Hc0).
    inversion E; subst a' cs0. now apply IH with (Some t).
Qed.

Lemma concat_Chain h xs that (cs1 cs2 : list (addr * A)) z1 z2 :
  Chain h (gungnir.node_ xs) cs1 z1 ->
  Chain h (gungnir.node_ that) cs2 z2 ->
  gungnir.size_ xs = Z.of_nat (length cs1) ->
  gungnir.size_ that = Z.of_nat (length cs2) ->
  cs1 <> [] -> cs2 <> [] ->
  exists ys e cs',
    gungnir.concat xs that h = Ok (ys, h ++ e)
    /\ Chain (h ++ e) (gungnir.node_ ys) (cs' ++ cs2) z2
    /\ map snd cs' = map snd cs1
    /\ length e = length cs1
    /\ gungnir.size_ ys = wrap (Z.of_nat (length cs1) + Z.of_nat (length cs2)).
Proof.
  intros Hc1 Hc2 Hs1 Hs2 Hn1 Hn2. unfold gungnir.concat, gungnir.isEmpty.
  rewrite Hs1, Hs2.
  destruct cs1 as [|c1 cs1]; [contradiction|].
  destruct cs2 as [|c2 cs2]; [contradiction|].
  cbn [length]. 
  destruct (Z.of_nat (S (length cs1)) =? 0)%Z eqn:E1;
    [apply Z.eqb_eq in E1; lia|].
  destruct (Z.of_nat (S (length cs2)) =? 0)%Z eqn:E2;
    [apply Z.eqb_eq in E2; lia|].
  rewrite (foreachImpl_fuel_of _ _ Hc1), foldM_push_back. cbn [bind app].
  destruct (toList_from_Chain (map snd (c1 :: cs1))
              (wrap (gungnir.size xs + gungnir.size that)) Hc2)
    as (ys & e & cs' & E & Hsz & Hc' & Hm' & Hl).
  rewrite E. exists ys, e, cs'. rewrite length_map in Hl.
  repeat split; auto. rewrite Hsz. unfold gungnir.size.
  now rewrite Hs1, Hs2.
Qed.

Lemma updated_Chain h xs (cs : list (addr * A)) z (i : Z) (v : A) :
  Chain h (gungnir.node_ xs) cs z ->
  gungnir.size_ xs = Z.of_nat (length cs) ->
  (0 <= i < Z.of_nat (length cs))%Z ->
  exists ys e cs',
    gungnir.updated xs i v h = Ok (ys, h ++ e)
    /\ Chain (h ++ e) (gungnir.node_ ys)
         (cs' ++ (length h, v) :: skipn (S (Z.to_nat i)) cs) z
    /\ length cs' = Z.to_nat i
    /\ length e = S (Z.to_nat i).
Proof.
  intros Hc Hs Hi. unfold gungnir.updated, gungnir.size. rewrite Hs.
  destruct (i >=? Z.of_nat (length cs))%Z eqn:Hge; [lia|].
  set (k := Z.to_nat i). assert (Hk : k < length cs) by lia.
  destruct (updated_loop_Chain Hc (n := k) []) as (p' & E & Hc'); [lia|].
  rewrite E. cbn [bind app].
  destruct (nth_error cs k) as [[a x]|] eqn:Hnth.
  2:{ apply nth_error_None in Hnth. lia. }
  rewrite (skipn_nth_error _ _ Hnth) in Hc'.
  destruct (Chain_elems_cons Hc' eq_refl)
    as (a' & t & cs0 & -> & Ecs & _ & Hn & Hlt & Hc0).
  inversion Ecs; subst a' cs0. cbn [load bind]. rewrite Hn.
  cbn [bind Node.tail]. unfold NodeOps.create2.
  assert (Hc1 := create2_Chain v Hc0).
  destruct (toList_from_Chain (firstn k (map snd cs)) (Z.of_nat (length cs)) Hc1)
    as (ys & e & cs' & E' & Hsz & Hc2 & Hm2 & Hl2).
  rewrite E'. exists ys, ([Node.mk (Some v) (Some t)] ++ e), cs'.
  rewrite app_assoc.
  assert (Hf : length (firstn k (map snd cs)) = k)
    by (rewrite length_firstn, length_map; lia).
  split; [reflexivity|]. split; [exact Hc2|]. split.
  - apply (f_equal (@length A)) in Hm2. rewrite length_map in Hm2.
    exact (eq_trans Hm2 Hf).
  - cbn [length app]. now rewrite Hl2, Hf.
Qed.

End SharingFacts.

(** X5.  [xs.slice(from, until)] holds the elements of [xs] at positions
    [from] to [until - 1] that exist; it is empty when [from >= until] or
    [from >= xs.size()], and it is all of [xs] when [from] is 0 and
    [until >= xs.size()]. *)
Theorem X5_slice {A : Type} (h : heap A) (xs : gungnir.List A) (l : list A)
    (from until : Z) :
  view h xs = Some l ->
  is_size_t from -> is_size_t until ->
  exists ys h1,
    gungnir.slice xs from until h = Ok (ys, h1)
    /\ view h1 ys
       = Some (firstn (Z.to_nat until - Z.to_nat from)
                 (skipn (Z.to_nat from) l))
    /\ ((from >= until \/ from >= gungnir.size xs)%Z ->
        gungnir.isEmpty ys = true)
    /\ (from = 0%Z -> (until >= gungnir.size xs)%Z -> view h1 ys = Some l).
Proof.
  intros Hv [Hf _] Hu. apply Repr_view in Hv.
  destruct (slice_Repr Hv Hf Hu) as (ys & e & E & Hy).
  exists ys, (h ++ e). split; [exact E|].
  split; [now apply Repr_view|]. unfold gungnir.size.
  rewrite (Repr_size Hv). split.
  - intros Hc. rewrite (Repr_isEmpty Hy).
    destruct Hc as [Hc|Hc].
    + now replace (Z.to_nat until - Z.to_nat from) with 0 by lia.
    + rewrite skipn_all2 by lia. now rewrite firstn_nil.
  - intros -> Hge. apply Repr_view.
    replace (Z.to_nat until - Z.to_nat 0) with (Z.to_nat until) in Hy by lia.
    cbn [Z.to_nat skipn] in Hy. rewrite firstn_all2 in Hy by lia. exact Hy.
Qed.

Lemma X5_witness :
  view (snd sample) (fst sample) = Some [1; 2; 4; 5; 6]%Z
  /\ is_size_t 1 /\ is_size_t 3
  /\ exists ys h1,
       gungnir.slice (fst sample) 1 3 (snd sample) = Ok (ys, h1)
       /\ view h1 ys
          = Some (firstn (Z.to_nat 3 - Z.to_nat 1)
                    (skipn (Z.to_nat 1) [1; 2; 4; 5; 6]%Z))
       /\ ((1 >= 3 \/ 1 >= gungnir.size (fst sample))%Z ->
           gungnir.isEmpty ys = true)
       /\ (1%Z = 0%Z -> (3 >= gungnir.size (fst sample))%Z ->
           view h1 ys = Some [1; 2; 4; 5; 6]%Z).
Proof.
  assert (H1 : is_size_t 1) by (unfold is_size_t, size_t_modulus; lia).
  assert (H3 : is_size_t 3) by (unfold is_size_t, size_t_modulus; lia).
  split; [reflexivity|]. split; [exact H1|]. split; [exact H3|].
  apply (@X5_slice Z (snd sample) (fst sample) [1; 2; 4; 5; 6]%Z 1%Z 3%Z);
    [reflexivity | exact H1 | exact H3].
Defined.

(** X6.  [xs.drop(n)] holds the elements of [xs] after the first [n].  On a
    list that is not empty [drop(0)] returns the handle of [xs] itself; for
    [n >= xs.size()] the result is an empty list on a Nil node of its own,
    allocated by the call, not the Nil node of [xs]. *)
Theorem X6_drop_edges {A : Type} (h : heap A) (xs : gungnir.List A)
    (l : list A) (n : Z) :
  view h xs = Some l ->
  (0 <= n)%Z ->
  (exists ys h1,
     gungnir.drop xs n h = Ok (ys, h1)
     /\ view h1 ys = Some (skipn (Z.to_nat n) l))
  /\ (n = 0%Z -> l <> [] -> gungnir.drop xs n h = Ok (xs, h))
  /\ ((n >= gungnir.size xs)%Z ->
      exists ys,
        gungnir.drop xs n h = Ok (ys, h ++ [Node.mk None None])
        /\ gungnir.isEmpty ys = true
        /\ nodes (h ++ [Node.mk None None]) ys = Some [length h]).
Proof.
  intros Hv Hn. apply Repr_view in Hv. split; [|split].
  - destruct (drop_Repr Hv Hn) as (ys & e & E & Hy & _).
    exists ys, (h ++ e). split; auto. now apply Repr_view.
  - intros -> Hne. unfold gungnir.drop, gungnir.size.
    rewrite (Repr_size Hv). assert (Hb := Repr_size_t Hv).
    destruct l as [|x l]; [contradiction|]. cbn [length] in *.
    destruct (0 >=? Z.of_nat (S (length l)))%Z eqn:E;
      [apply Z.geb_le in E; lia|].
    cbn [Z.to_nat gungnir.advance bind]. rewrite Z.sub_0_r.
    rewrite wrap_small by lia. rewrite <- (Repr_size Hv) at 1.
    now rewrite handle_eta.
  - intros Hge. unfold gungnir.drop.
    apply Z.ge_le in Hge. apply Z.geb_le in Hge. rewrite Hge.
    unfold gungnir.List_empty, NodeOps.create. eexists.
    split; [reflexivity|]. split; [reflexivity|].
    apply (nodes_Chain (gungnir.mkList 0 (Some (length h))) (create_Chain h)).
Qed.

Lemma X6_witness :
  view (snd sample) (fst sample) = Some [1; 2; 4; 5; 6]%Z
  /\ (0 <= 0)%Z
  /\ gungnir.drop (fst sample) 0 (snd sample) = Ok (fst sample, snd sample).
Proof.
  split; [reflexivity|]. split; [lia|].
  destruct (@X6_drop_edges Z (snd sample) (fst sample) [1; 2; 4; 5; 6]%Z 0%Z
              eq_refl (Z.le_refl 0)) as (_ & H0 & _).
  apply H0; [reflexivity | discriminate].
Defined.

(** X7.  [xs.prepend(x)], which is also [List(x, xs)], allocates one node
    in front of the nodes of [xs], all of them shared.  The result holds [x]
    and then the elements of [xs]; its [head()] is [x], and its [tail()] and
    [uncons()] give back the handle of [xs] itself. *)
Theorem X7_prepend_round_trip {A : Type} (h : heap A) (xs : gungnir.List A)
    (l : list A) (x : A) :
  view h xs = Some l ->
  (gungnir.size xs + 1 < size_t_modulus)%Z ->
  exists ys h1 ns,
    gungnir.prepend xs x h = (ys, h1)
    /\ gungnir.List_head_tail x xs h = (ys, h1)
    /\ h1 = h ++ [Node.mk (Some x) (gungnir.node_ xs)]
    /\ view h1 ys = Some (x :: l)
    /\ gungnir.size ys = (gungnir.size xs + 1)%Z
    /\ nodes h xs = Some ns
    /\ nodes h1 ys = Some (length h :: ns)
    /\ gungnir.head ys h1 = Ok x
    /\ gungnir.tail ys h1 = Ok xs
    /\ gungnir.uncons ys h1 = Ok (x, xs).
Proof.
  intros Hv Hb. apply Repr_view in Hv. assert (Hs := Repr_size Hv).
  unfold gungnir.size in *. rewrite Hs in Hb.
  destruct (prepend_Repr x Hv) as (ys & e & E & _ & Hy).
  assert (Hy' : Repr (h ++ e) ys (x :: l)) by (apply Hy; cbn [length]; lia).
  unfold gungnir.prepend, NodeOps.create2 in E. inversion E as [[Ey Ee]].
  apply app_inv_head in Ee. subst e. rewrite Ey in *.
  destruct Hv as (cs & z & Hc & Hm & _).
  assert (Hc' := create2_Chain x Hc).
  assert (Hsz : gungnir.size_ ys = (Z.of_nat (length l) + 1)%Z).
  { rewrite <- Ey. cbn [gungnir.size_]. unfold gungnir.size. rewrite Hs.
    apply wrap_small. lia. }
  assert (Ht : gungnir.tail ys (h ++ [Node.mk (Some x) (gungnir.node_ xs)])
               = Ok xs).
  { unfold gungnir.tail, gungnir.isEmpty, gungnir.size. rewrite Hsz.
    destruct (Z.of_nat (length l) + 1 =? 0)%Z eqn:E0;
      [apply Z.eqb_eq in E0; lia|].
    rewrite <- Ey. cbn [gungnir.node_ load].
    rewrite nth_error_app2 by lia. rewrite Nat.sub_diag. cbn.
    replace (Z.of_nat (length l) + 1 - 1)%Z with (Z.of_nat (length l)) by lia.
    rewrite wrap_small by lia. rewrite <- Hs. now rewrite handle_eta. }
  exists ys, (h ++ [Node.mk (Some x) (gungnir.node_ xs)]), (map fst cs ++ [z]).
  split; [now rewrite <- Ey|]. split; [now rewrite <- Ey|].
  split; [reflexivity|]. split; [now apply Repr_view|].
  split; [now rewrite Hs|].
  split; [apply (nodes_Chain xs Hc)|].
  split.
  { rewrite <- Ey. unfold nodes. cbn [gungnir.node_].
    now rewrite (chain_fuel_of Hc'). }
  split; [apply (head_Repr Hy')|]. split; [exact Ht|].
  unfold gungnir.uncons. rewrite (Repr_isEmpty Hy'), (head_Repr Hy'), Ht.
  reflexivity.
Qed.

Lemma X7_witness :
  view (snd sample) (fst sample) = Some [1; 2; 4; 5; 6]%Z
  /\ (gungnir.size (fst sample) + 1 < size_t_modulus)%Z
  /\ exists ys h1 ns,
       gungnir.prepend (fst sample) 0%Z (snd sample) = (ys, h1)
       /\ gungnir.List_head_tail 0%Z (fst sample) (snd sample) = (ys, h1)
       /\ h1 = snd sample ++ [Node.mk (Some 0%Z) (gungnir.node_ (fst sample))]
       /\ view h1 ys = Some [0; 1; 2; 4; 5; 6]%Z
       /\ gungnir.size ys = (gungnir.size (fst sample) + 1)%Z
       /\ nodes (snd sample) (fst sample) = Some ns
       /\ nodes h1 ys = Some (length (snd sample) :: ns)
       /\ gungnir.head ys h1 = Ok 0%Z
       /\ gungnir.tail ys h1 = Ok (fst sample)
       /\ gungnir.uncons ys h1 = Ok (0%Z, fst sample).
Proof.
  assert (Hb : (gungnir.size (fst sample) + 1 < size_t_modulus)%Z)
    by reflexivity.
  split; [reflexivity|]. split; [exact Hb|].
  apply (@X7_prepend_round_trip Z (snd sample) (fst sample)
           [1; 2; 4; 5; 6]%Z 0%Z); [reflexivity | exact Hb].
Defined.

(** X8.  [xs.concat(that)] holds the elements of [xs] and then those of
    [that].  When [xs] is empty it returns the handle [that], and when
    [that] is empty the handle [xs], without allocating; otherwise it
    allocates one node per element of [xs] and ends in the very nodes of
    [that]. *)
Theorem X8_concat_shares {A : Type} (h : heap A) (xs that : gungnir.List A)
    (l1 l2 : list A) :
  view h xs = Some l1 ->
  view h that = Some l2 ->
  (gungnir.size xs + gungnir.size that < size_t_modulus)%Z ->
  exists ys e,
    gungnir.concat xs that h = Ok (ys, h ++ e)
    /\ view (h ++ e) ys = Some (l1 ++ l2)
    /\ gungnir.size ys = (gungnir.size xs + gungnir.size that)%Z
    /\ (l1 = [] -> ys = that /\ e = [])
    /\ (l2 = [] -> l1 <> [] -> ys = xs /\ e = [])
    /\ (l1 <> [] -> l2 <> [] ->
        length e = length l1
        /\ exists ns nt,
             nodes h that = Some nt
             /\ nodes (h ++ e) ys = Some (ns ++ nt)
             /\ length ns = length l1).
Proof.
  intros Hv1 Hv2 Hb. apply Repr_view in Hv1, Hv2.
  assert (Hs1 := Repr_size Hv1). assert (Hs2 := Repr_size Hv2).
  unfold gungnir.size in *. rewrite Hs1, Hs2 in Hb.
  destruct (concat_Repr Hv1 Hv2) as (ys & e & E & Hy & _).
  assert (Hy' : Repr (h ++ e) ys (l1 ++ l2)) by (apply Hy; lia).
  exists ys, e. split; [exact E|]. split; [now apply Repr_view|].
  split; [rewrite (Repr_size Hy'), Hs1, Hs2, length_app; lia|].
  split; [|split].
  - intros ->. unfold gungnir.concat in E. rewrite (Repr_isEmpty Hv1) in E.
    inversion E as [[Ey Ee]]. rewrite <- (app_nil_r h) in Ee at 1.
    apply app_inv_head in Ee. auto.
  - intros -> Hne. unfold gungnir.concat in E.
    rewrite (Repr_isEmpty Hv1), (Repr_isEmpty Hv2) in E.
    destruct l1; [contradiction|].
    inversion E as [[Ey Ee]]. rewrite <- (app_nil_r h) in Ee at 1.
    apply app_inv_head in Ee. auto.
  - intros Hn1 Hn2.
    destruct Hv1 as (cs1 & z1 & Hc1 & Hm1 & _).
    destruct Hv2 as (cs2 & z2 & Hc2 & Hm2 & _).
    rewrite <- Hm1, length_map in Hs1. rewrite <- Hm2, length_map in Hs2.
    destruct (concat_Chain xs that Hc1 Hc2 Hs1 Hs2)
      as (ys' & e' & cs' & E' & Hc' & Hm' & Hl' & _).
    { intros ->. now apply Hn1. }
    { intros ->. now apply Hn2. }
    rewrite E in E'. inversion E' as [[Ey Ee]]. apply app_inv_head in Ee.
    subst ys' e'. split; [now rewrite Hl', <- Hm1, length_map|].
    exists (map fst cs'), (map fst cs2 ++ [z2]).
    split; [apply (nodes_Chain that Hc2)|].
    split; [rewrite (nodes_Chain ys Hc'), map_app; now rewrite app_assoc|].
    rewrite length_map, <- Hm1.
    apply (f_equal (@length A)) in Hm'. now rewrite !length_map in *.
Qed.

Lemma X8_witness :
  view (snd sample) (fst sample) = Some [1; 2; 4; 5; 6]%Z
  /\ view (snd sample) (fst sample) = Some [1; 2; 4; 5; 6]%Z
  /\ (gungnir.size (fst sample) + gungnir.size (fst sample)
      < size_t_modulus)%Z
  /\ exists ys e,
       gungnir.concat (fst sample) (fst sample) (snd sample)
       = Ok (ys, snd sample ++ e)
       /\ view (snd sample ++ e) ys
          = Some ([1; 2; 4; 5; 6] ++ [1; 2; 4; 5; 6])%Z
       /\ length e = 5.
Proof.
  assert (Hb : (gungnir.size (fst sample) + gungnir.size (fst sample)
                < size_t_modulus)%Z) by reflexivity.
  split; [reflexivity|]. split; [reflexivity|]. split; [exact Hb|].
  destruct (@X8_concat_shares Z (snd sample) (fst sample) (fst sample)
              [1; 2; 4; 5; 6]%Z [1; 2; 4; 5; 6]%Z eq_refl eq_refl Hb)
    as (ys & e & E & Hv & _ & _ & _ & Hsh).
  exists ys, e. split; [exact E|]. split; [exact Hv|].
  apply Hsh; discriminate.
Defined.

(** X9.  [xs.updated(index, v)] allocates [index + 1] nodes, the rebuilt
    prefix and the replaced node, and shares every node of [xs] after
    position [index]. *)
Theorem X9_updated_shares {A : Type} (h : heap A) (xs : gungnir.List A)
    (l : list A) (index : Z) (v : A) :
  view h xs = Some l ->
  (0 <= index < gungnir.size xs)%Z ->
  exists ys e ns ms,
    gungnir.updated xs index v h = Ok (ys, h ++ e)
    /\ length e = S (Z.to_nat index)
    /\ nodes h xs = Some ns
    /\ nodes (h ++ e) ys = Some ms
    /\ length ms = length ns
    /\ skipn (S (Z.to_nat index)) ms = skipn (S (Z.to_nat index)) ns
    /\ nth_error ms (Z.to_nat index) = Some (length h).
Proof.
  intros Hv Hi. apply Repr_view in Hv. unfold gungnir.size in Hi.
  destruct Hv as (cs & z & Hc & Hm & Hs & _).
  rewrite <- Hm, length_map in Hs. rewrite Hs in Hi.
  destruct (updated_Chain xs v Hc Hs Hi) as (ys & e & cs' & E & Hc' & Hl & He).
  set (k := Z.to_nat index) in *.
  assert (Hk : k < length cs) by lia.
  exists ys, e, (map fst cs ++ [z]),
    (map fst (cs' ++ (length h, v) :: skipn (S k) cs) ++ [z]).
  split; [exact E|]. split; [exact He|].
  split; [apply (nodes_Chain xs Hc)|].
  split; [apply (nodes_Chain ys Hc')|].
  assert (Hl' : length (map fst cs') = k) by (now rewrite length_map).
  split.
  { rewrite !length_app, !length_map, length_app. cbn [length].
    rewrite length_skipn. lia. }
  split.
  - assert (R : skipn (S k) (map fst cs ++ [z])
                = map fst (skipn (S k) cs) ++ [z]).
    { rewrite skipn_app, length_map, skipn_map.
      now replace (S k - length cs) with 0 by lia. }
    rewrite R, map_app. cbn [map fst]. rewrite <- app_assoc.
    rewrite skipn_app, Hl'. rewrite skipn_all2 by lia.
    now replace (S k - k) with 1 by lia.
  - rewrite map_app. cbn [map fst]. rewrite <- app_assoc.
    rewrite nth_error_app2 by lia. rewrite Hl', Nat.sub_diag. reflexivity.
Qed.

Lemma X9_witness :
  view (snd sample) (fst sample) = Some [1; 2; 4; 5; 6]%Z
  /\ (0 <= 2 < gungnir.size (fst sample))%Z
  /\ exists ys e ns ms,
       gungnir.updated (fst sample) 2 9%Z (snd sample)
       = Ok (ys, snd sample ++ e)
       /\ length e = S (Z.to_nat 2)
       /\ nodes (snd sample) (fst sample) = Some ns
       /\ nodes (snd sample ++ e) ys = Some ms
       /\ length ms = length ns
       /\ skipn (S (Z.to_nat 2)) ms = skipn (S (Z.to_nat 2)) ns
       /\ nth_error ms (Z.to_nat 2) = Some (length (snd sample)).
Proof.
  assert (Hi : (0 <= 2 < gungnir.size (fst sample))%Z)
    by (change (gungnir.size (fst sample)) with 5%Z; lia).
  split; [reflexivity|]. split; [exact Hi|].
  apply (@X9_updated_shares Z (snd sample) (fst sample)
           [1; 2; 4; 5; 6]%Z 2%Z 9%Z); [reflexivity | exact Hi].
Defined.

Section FoldFacts.

Context {A B : Type}.

Lemma foldRight_Repr (z : B) (op : A -> B -> B) (h : heap A) xs l :
  Repr h xs l -> gungnir.foldRight z op xs h = Ok (fold_right op z l).
Proof.
  intros (cs & z0 & Hc & Hm & _). unfold gungnir.foldRight.
  rewrite (foreachImpl_fuel_of _ _ Hc), Hm, foldM_push_back. cbn [bind app].
  rewrite <- fold_left_rev_right, rev_involutive. reflexivity.
Qed.

Lemma last_cons_default (x : B) (l : list B) (d1 d2 : B) :
  last (x :: l) d1 = last (x :: l) d2.
Proof.
  revert x. induction l as [|y l IH]; intros x; [reflexivity|].
  change (last (x :: y :: l) d1) with (last (y :: l) d1).
  change (last (x :: y :: l) d2) with (last (y :: l) d2). apply IH.
Qed.

Lemma scan_left_last (op : B -> A -> B) (l : list A) (z d : B) :
  last (scan_left op l z) d = fold_left op l z.
Proof.
  revert z. induction l as [|x l IH]; intros z; [reflexivity|].
  cbn [scan_left fold_left]. rewrite <- IH.
  destruct l; reflexivity.
Qed.

Lemma scan_right_shape (op : A -> B -> B) (l : list A) (z : B) :
  exists bs, scan_right op l z = fold_right op z l :: bs
             /\ last (fold_right op z l :: bs) z = z.
Proof.
  unfold scan_right. induction l as [|x l [bs [E Hl]]]; simpl.
  - exists []. auto.
  - rewrite E. simpl. exists (fold_right op z l :: bs). split; auto.
Qed.

Lemma flatMap_fold (h : heap B)
    (f : A -> heap B -> outcome (gungnir.List B * heap B)) (g : A -> list B)
    (l : list A) :
  computes h f g -> forall buf hb, extends h hb ->
  exists e,
    foldM (fun x (s : list B * heap B) =>
             '(ys, hB1) <- f x (snd s) ;;
             buf' <- gungnir.foreachImpl (fuel_of hB1) hB1 gungnir.push_back
                       (gungnir.node_ ys) (fst s) ;;
             Ok (buf', hB1)) l (buf, hb)
    = Ok (buf ++ flat_map g l, hb ++ e).
Proof.
  intros Hf. induction l as [|x l IH]; intros buf hb He; cbn [foldM fst snd].
  - exists []. now rewrite !app_nil_r.
  - destruct (Hf x hb He) as (ys & e & E & Hv). rewrite E. cbn [bind].
    apply Repr_view in Hv. destruct Hv as (cs & z & Hc & Hm & _).
    rewrite (foreachImpl_fuel_of _ _ Hc), Hm, foldM_push_back. cbn [bind].
    destruct (IH (buf ++ g x) (hb ++ e)) as (e' & E').
    { apply extends_trans with hb; auto. apply extends_app. }
    rewrite E'. exists (e ++ e'). cbn [flat_map].
    now rewrite !app_assoc.
Qed.

End FoldFacts.

(** X10.  [foldLeft] combines from the left and [foldRight] from the right,
    [fold] is [foldLeft], and all return the start value on an empty list;
    [xs.foldRight(z, op)] is [xs.reverse().foldLeft(z, op')] with the
    arguments of [op] swapped. *)
Theorem X10_folds {A B : Type} (z : B) (opl : B -> A -> B)
    (opr : A -> B -> B) (h : heap A) (xs : gungnir.List A) (l : list A) :
  view h xs = Some l ->
  gungnir.foldLeft z opl xs h = Ok (fold_left opl l z)
  /\ gungnir.foldRight z opr xs h = Ok (fold_right opr z l)
  /\ (forall (z' : A) op, gungnir.fold z' op xs h = Ok (fold_left op l z'))
  /\ (l = [] ->
      gungnir.foldLeft z opl xs h = Ok z
      /\ gungnir.foldRight z opr xs h = Ok z)
  /\ exists ys h1,
       gungnir.reverse xs h = Ok (ys, h1)
       /\ gungnir.foldLeft z (fun b a => opr a b) ys h1
          = gungnir.foldRight z opr xs h.
Proof.
  intros Hv. apply Repr_view in Hv.
  assert (EL := foldLeft_Repr z opl Hv).
  assert (ER := foldRight_Repr z opr Hv).
  split; [exact EL|]. split; [exact ER|].
  split; [intros z' op; apply (foldLeft_Repr z' op Hv)|].
  split; [intros ->; auto|].
  destruct (reverse_Repr Hv) as (ys & e & E & Hy).
  exists ys, (h ++ e). split; [exact E|].
  rewrite (foldLeft_Repr z (fun b a => opr a b) Hy), ER.
  now rewrite <- (fold_left_rev_right opr (rev l) z), rev_involutive.
Qed.

Lemma X10_witness :
  view (snd sample) (fst sample) = Some [1; 2; 4; 5; 6]%Z
  /\ gungnir.foldLeft 0%Z Z.sub (fst sample) (snd sample) = Ok (-18)%Z
  /\ gungnir.foldRight 0%Z Z.sub (fst sample) (snd sample) = Ok 4%Z.
Proof.
  split; [reflexivity|].
  destruct (@X10_folds Z Z 0%Z Z.sub Z.sub (snd sample) (fst sample)
              [1; 2; 4; 5; 6]%Z eq_refl) as (EL & ER & _).
  split; assumption.
Defined.

(** X11.  [xs.scanLeft(z, op)] holds the [size + 1] intermediate results of
    the left fold: its first element is [z] and its last element is
    [xs.foldLeft(z, op)]. *)
Theorem X11_scanLeft {A B : Type} (z : B) (op : B -> A -> B) (hA : heap A)
    (hB : heap B) (xs : gungnir.List A) (l : list A) :
  view hA xs = Some l ->
  (gungnir.size xs + 1 < size_t_modulus)%Z ->
  exists ys hB',
    gungnir.scanLeft z op xs hA hB = Ok (ys, hB')
    /\ view hB' ys = Some (scan_left op l z)
    /\ gungnir.size ys = (gungnir.size xs + 1)%Z
    /\ gungnir.head ys hB' = Ok z
    /\ gungnir.last ys hB' = gungnir.foldLeft z op xs hA.
Proof.
  intros Hv Hb. apply Repr_view in Hv. unfold gungnir.size in *.
  assert (Hs := Repr_size Hv). rewrite Hs in Hb.
  destruct (scanLeft_Repr z op hB Hv) as (ys & e & E & _ & Hy).
  assert (Hy' : Repr (hB ++ e) ys (scan_left op l z))
    by (apply Hy; lia).
  exists ys, (hB ++ e). split; [exact E|]. split; [now apply Repr_view|].
  split; [rewrite (Repr_size Hy'), scan_left_length, Hs; lia|].
  rewrite (foldLeft_Repr z op Hv).
  destruct l as [|x l]; cbn [scan_left] in Hy'.
  - split; [apply (head_Repr Hy') | apply (last_Repr Hy')].
  - split; [apply (head_Repr Hy')|]. rewrite (last_Repr Hy').
    f_equal. apply (scan_left_last op (x :: l) z z).
Qed.

Lemma X11_witness :
  view (snd sample) (fst sample) = Some [1; 2; 4; 5; 6]%Z
  /\ (gungnir.size (fst sample) + 1 < size_t_modulus)%Z
  /\ exists ys hB',
       gungnir.scanLeft 0%Z Z.add (fst sample) (snd sample) [] = Ok (ys, hB')
       /\ view hB' ys = Some (scan_left Z.add [1; 2; 4; 5; 6]%Z 0%Z)
       /\ gungnir.size ys = (gungnir.size (fst sample) + 1)%Z
       /\ gungnir.head ys hB' = Ok 0%Z
       /\ gungnir.last ys hB'
          = gungnir.foldLeft 0%Z Z.add (fst sample) (snd sample).
Proof.
  assert (Hb : (gungnir.size (fst sample) + 1 < size_t_modulus)%Z)
    by reflexivity.
  split; [reflexivity|]. split; [exact Hb|].
  apply (@X11_scanLeft Z Z 0%Z Z.add (snd sample) [] (fst sample)
           [1; 2; 4; 5; 6]%Z); [reflexivity | exact Hb].
Defined.

(** X12.  [xs.scanRight(z, op)] holds the [size + 1] intermediate results of
    the right fold: its first element is [xs.foldRight(z, op)] and its last
    element is [z]. *)
Theorem X12_scanRight {A B : Type} (z : B) (op : A -> B -> B) (hA : heap A)
    (hB : heap B) (xs : gungnir.List A) (l : list A) :
  view hA xs = Some l ->
  (gungnir.size xs + 1 < size_t_modulus)%Z ->
  exists ys hB',
    gungnir.scanRight z op xs hA hB = Ok (ys, hB')
    /\ view hB' ys = Some (scan_right op l z)
    /\ gungnir.size ys = (gungnir.size xs + 1)%Z
    /\ gungnir.head ys hB' = gungnir.foldRight z op xs hA
    /\ gungnir.last ys hB' = Ok z.
Proof.
  intros Hv Hb. apply Repr_view in Hv. unfold gungnir.size in *.
  assert (Hs := Repr_size Hv). rewrite Hs in Hb.
  destruct (scanRight_Repr z op hB Hv) as (ys & e & E & _ & Hy).
  assert (Hy' : Repr (hB ++ e) ys (scan_right op l z))
    by (apply Hy; lia).
  exists ys, (hB ++ e). split; [exact E|]. split; [now apply Repr_view|].
  split; [rewrite (Repr_size Hy'), scan_right_length, Hs; lia|].
  rewrite (foldRight_Repr z op Hv).
  destruct (scan_right_shape op l z) as (bs & Esh & Hl).
  rewrite Esh in Hy'.
  split; [apply (head_Repr Hy')|].
  rewrite (last_Repr Hy'). f_equal.
  now rewrite (last_cons_default _ bs (fold_right op z l) z).
Qed.

Lemma X12_witness :
  view (snd sample) (fst sample) = Some [1; 2; 4; 5; 6]%Z
  /\ (gungnir.size (fst sample) + 1 < size_t_modulus)%Z
  /\ exists ys hB',
       gungnir.scanRight 0%Z Z.add (fst sample) (snd sample) []
       = Ok (ys, hB')
       /\ view hB' ys = Some (scan_right Z.add [1; 2; 4; 5; 6]%Z 0%Z)
       /\ gungnir.size ys = (gungnir.size (fst sample) + 1)%Z
       /\ gungnir.head ys hB'
          = gungnir.foldRight 0%Z Z.add (fst sample) (snd sample)
       /\ gungnir.last ys hB' = Ok 0%Z.
Proof.
  assert (Hb : (gungnir.size (fst sample) + 1 < size_t_modulus)%Z)
    by reflexivity.
  split; [reflexivity|]. split; [exact Hb|].
  apply (@X12_scanRight Z Z 0%Z Z.add (snd sample) [] (fst sample)
           [1; 2; 4; 5; 6]%Z); [reflexivity | exact Hb].
Defined.

(** X13.  [xs.zip(that)] pairs the elements of the two lists position by
    position and stops with the shorter: its size is the smaller of the two
    sizes. *)
Theorem X13_zip {A B : Type} (hA : heap A) (hB : heap B) (hAB : heap (A * B))
    (xs : gungnir.List A) (that : gungnir.List B) (l1 : list A)
    (l2 : list B) :
  view hA xs = Some l1 ->
  view hB that = Some l2 ->
  exists ys h',
    gungnir.zip xs that hA hB hAB = Ok (ys, h')
    /\ view h' ys = Some (combine l1 l2)
    /\ gungnir.size ys = Z.min (gungnir.size xs) (gungnir.size that).
Proof.
  intros Hv1 Hv2. apply Repr_view in Hv1, Hv2.
  destruct (zip_Repr hAB Hv1 Hv2) as (ys & e & E & Hy).
  exists ys, (hAB ++ e). split; [exact E|]. split; [now apply Repr_view|].
  unfold gungnir.size.
  rewrite (Repr_size Hy), (Repr_size Hv1), (Repr_size Hv2), length_combine.
  lia.
Qed.

Lemma X13_witness :
  view (snd sample) (fst sample) = Some [1; 2; 4; 5; 6]%Z
  /\ view (snd sample_unsorted) (fst sample_unsorted) = Some [3; 1; 2]%Z
  /\ exists ys h',
       gungnir.zip (fst sample) (fst sample_unsorted) (snd sample)
         (snd sample_unsorted) [] = Ok (ys, h')
       /\ view h' ys = Some (combine [1; 2; 4; 5; 6]%Z [3; 1; 2]%Z)
       /\ gungnir.size ys
          = Z.min (gungnir.size (fst sample))
              (gungnir.size (fst sample_unsorted)).
Proof.
  split; [reflexivity|]. split; [reflexivity|].
  apply (@X13_zip Z Z (snd sample) (snd sample_unsorted) [] (fst sample)
           (fst sample_unsorted)); reflexivity.
Defined.

Lemma Forall2_view_Repr {B : Type} (hB : heap B) (ll : list (gungnir.List B))
    lls :
  Forall2 (fun ys l => view hB ys = Some l) ll lls ->
  Forall2 (Repr hB) ll lls.
Proof.
  induction 1; constructor; auto. now apply Repr_view.
Qed.

Lemma concat_sizes {B : Type} (hB : heap B) (ll : list (gungnir.List B)) lls :
  Forall2 (Repr hB) ll lls ->
  Z.of_nat (length (concat lls))
  = fold_right (fun ys acc => (gungnir.size ys + acc)%Z) 0%Z ll.
Proof.
  induction 1 as [|ys l ll lls Hr _ IH]; [reflexivity|].
  cbn [concat fold_right]. rewrite length_app, <- IH. unfold gungnir.size.
  rewrite (Repr_size Hr). lia.
Qed.

(** X14.  [xss.flatten()] holds the elements of the element lists of [xss],
    one list after the other; its size is the sum of their sizes. *)
Theorem X14_flatten {B : Type} (hL : heap (gungnir.List B)) (hB : heap B)
    (xss : gungnir.List (gungnir.List B)) (ll : list (gungnir.List B))
    (lls : list (list B)) :
  view hL xss = Some ll ->
  Forall2 (fun ys l => view hB ys = Some l) ll lls ->
  (fold_right (fun ys acc => (gungnir.size ys + acc)%Z) 0%Z ll
   < size_t_modulus)%Z ->
  exists ys hB',
    gungnir.flatten xss hL hB = Ok (ys, hB')
    /\ view hB' ys = Some (concat lls)
    /\ gungnir.size ys
       = fold_right (fun ys acc => (gungnir.size ys + acc)%Z) 0%Z ll
    /\ Forall2 (fun ys l => view hB' ys = Some l) ll lls.
Proof.
  intros Hv Hall Hb. apply Repr_view in Hv.
  apply Forall2_view_Repr in Hall.
  rewrite <- (concat_sizes Hall) in *.
  destruct (flatten_Repr Hv Hall) as (ys & e & cs & E & Hs & Hc & Hm).
  exists ys, (hB ++ e). split; [exact E|].
  assert (Hy : Repr (hB ++ e) ys (concat lls)).
  { exists cs, (length hB). rewrite <- Hm, length_map in *. auto. }
  split; [now apply Repr_view|]. split; [apply (Repr_size Hy)|].
  clear - Hall. induction Hall; constructor; auto.
  apply Repr_view. now apply Repr_ext.
Qed.

Lemma X14_witness :
  view (snd sample_nested) (fst sample_nested)
  = Some [fst sample; gungnir.mkList 2%Z (Some 2)]
  /\ exists ys hB',
       gungnir.flatten (fst sample_nested) (snd sample_nested) (snd sample)
       = Ok (ys, hB')
       /\ view hB' ys = Some [1; 2; 4; 5; 6; 5; 6]%Z
       /\ gungnir.size ys = 7%Z.
Proof.
  split; [reflexivity|].
  destruct (@X14_flatten Z (snd sample_nested) (snd sample)
              (fst sample_nested) [fst sample; gungnir.mkList 2%Z (Some 2)]
              [[1; 2; 4; 5; 6]; [5; 6]]%Z eq_refl)
    as (ys & hB' & E & Hv & Hs & _).
  - repeat constructor.
  - reflexivity.
  - exists ys, hB'. repeat split; assumption.
Defined.

(** X15.  When [f] computes a list [g x] for each element [x],
    [xs.flatMap(f)] holds the elements of those lists, one list after the
    other in the order of [xs]. *)
Theorem X15_flatMap {A B : Type} (hA : heap A) (hB : heap B)
    (f : A -> heap B -> outcome (gungnir.List B * heap B))
    (g : A -> list B) (xs : gungnir.List A) (l : list A) :
  view hA xs = Some l ->
  computes hB f g ->
  (Z.of_nat (length (flat_map g l)) < size_t_modulus)%Z ->
  exists ys hB',
    gungnir.flatMap f xs hA hB = Ok (ys, hB')
    /\ extends hB hB'
    /\ view hB' ys = Some (flat_map g l)
    /\ gungnir.size ys = Z.of_nat (length (flat_map g l)).
Proof.
  intros Hv Hf Hb. apply Repr_view in Hv.
  destruct Hv as (cs & z & Hc & Hm & _). unfold gungnir.flatMap.
  rewrite (foreachImpl_fuel_of _ _ Hc), Hm.
  destruct (flatMap_fold l Hf [] (extends_refl hB)) as (e & E).
  rewrite E. cbn [bind app].
  destruct (toList_Repr (flat_map g l) (hB ++ e) eq_refl Hb)
    as (ys & e' & E' & Hy & _).
  rewrite E'. exists ys, ((hB ++ e) ++ e').
  split; [reflexivity|].
  split; [apply extends_trans with (hB ++ e); apply extends_app|].
  split; [now apply Repr_view | apply (Repr_size Hy)].
Qed.

Lemma twice_computes (h : heap Z) : computes h twice (fun x => [x; x]).
Proof.
  intros x hb _. unfold twice.
  destruct (List_variadic_Repr [x] x hb) as (ys & e & E & _ & Hy).
  exists ys, e. rewrite E. split; [reflexivity|].
  apply Repr_view. apply Hy. reflexivity.
Qed.

Lemma X15_witness :
  view (snd sample) (fst sample) = Some [1; 2; 4; 5; 6]%Z
  /\ computes (snd sample) twice (fun x => [x; x])
  /\ (Z.of_nat (length (flat_map (fun x : Z => [x; x]) [1; 2; 4; 5; 6]%Z))
      < size_t_modulus)%Z
  /\ exists ys hB',
       gungnir.flatMap twice (fst sample) (snd sample) (snd sample)
       = Ok (ys, hB')
       /\ extends (snd sample) hB'
       /\ view hB' ys = Some (flat_map (fun x => [x; x]) [1; 2; 4; 5; 6]%Z)
       /\ gungnir.size ys
          = Z.of_nat (length (flat_map (fun x : Z => [x; x])
                                [1; 2; 4; 5; 6]%Z)).
Proof.
  split; [reflexivity|]. split; [apply twice_computes|].
  split; [reflexivity|].
  apply (@X15_flatMap Z Z (snd sample) (snd sample) twice
           (fun x => [x; x]) (fst sample) [1; 2; 4; 5; 6]%Z);
    [reflexivity | apply twice_computes | reflexivity].
Defined.

(** X16.  When [operator!=] of the elements decides their equality,
    [xs == that] is true exactly when the two lists hold the same elements in
    the same order, whether or not they share nodes; it is symmetric, false
    when the sizes differ, and [xs != that] is its negation. *)
Theorem X16_equality {A : Type} (A_ne : A -> A -> bool) (h : heap A)
    (xs that : gungnir.List A) (l1 l2 : list A) :
  view h xs = Some l1 ->
  view h that = Some l2 ->
  (forall x y, A_ne x y = false <-> x = y) ->
  exists b,
    gungnir.op_eq A_ne false xs that h = Ok b
    /\ (b = true <-> l1 = l2)
    /\ gungnir.op_eq A_ne false that xs h = Ok b
    /\ gungnir.op_ne A_ne false xs that h = Ok (negb b)
    /\ (gungnir.size xs <> gungnir.size that -> b = false).
Proof.
  intros Hv1 Hv2 Hd. apply Repr_view in Hv1, Hv2.
  assert (Hiff : forall l l' : list A,
            ((length l =? length l') && all_eq A_ne l l' = true) <-> l = l').
  { intros l l'. rewrite andb_true_iff, Nat.eqb_eq. split.
    - intros [Hl Ha]. now apply (all_eq_iff A_ne l l' Hd Hl).
    - intros ->. split; auto. apply all_eq_refl. intros x. now apply Hd. }
  exists ((length l1 =? length l2) && all_eq A_ne l1 l2).
  assert (E := op_eq_Repr A_ne Hv1 Hv2).
  split; [exact E|]. split; [apply Hiff|].
  split.
  { rewrite (op_eq_Repr A_ne Hv2 Hv1). f_equal.
    destruct ((length l1 =? length l2) && all_eq A_ne l1 l2) eqn:E1;
      destruct ((length l2 =? length l1) && all_eq A_ne l2 l1) eqn:E2; auto.
    - apply Hiff in E1. symmetry in E1. apply Hiff in E1. congruence.
    - apply Hiff in E2. symmetry in E2. apply Hiff in E2. congruence. }
  split; [unfold gungnir.op_ne; now rewrite E|].
  unfold gungnir.size. rewrite (Repr_size Hv1), (Repr_size Hv2). intros Hne.
  destruct (length l1 =? length l2) eqn:El; auto.
  apply Nat.eqb_eq in El. congruence.
Qed.

Lemma int_ne_decides : forall x y, int_ne x y = false <-> x = y.
Proof.
  intros x y. unfold int_ne. rewrite negb_false_iff. apply Z.eqb_eq.
Qed.

Lemma X16_witness :
  view (snd sample) (fst sample) = Some [1; 2; 4; 5; 6]%Z
  /\ view (snd sample) sample_suffix = Some [5; 6]%Z
  /\ (forall x y, int_ne x y = false <-> x = y)
  /\ exists b,
       gungnir.op_eq int_ne false (fst sample) sample_suffix
         (snd sample) = Ok b
       /\ (b = true <-> [1; 2; 4; 5; 6]%Z = [5; 6]%Z)
       /\ gungnir.op_eq int_ne false sample_suffix
            (fst sample) (snd sample) = Ok b
       /\ gungnir.op_ne int_ne false (fst sample)
            sample_suffix (snd sample) = Ok (negb b)
       /\ (gungnir.size (fst sample)
           <> gungnir.size sample_suffix -> b = false).
Proof.
  split; [reflexivity|]. split; [reflexivity|].
  split; [exact int_ne_decides|].
  apply (@X16_equality Z int_ne (snd sample) (fst sample)
           sample_suffix);
    [reflexivity | reflexivity | exact int_ne_decides].
Defined.

Section QueryFacts.

Context {A : Type}.
Implicit Types (h : heap A) (xs : gungnir.List A) (l : list A).

Lemma existsb_forallb (p : A -> bool) l :
  existsb p l = negb (forallb (fun x => negb (p x)) l).
Proof.
  induction l as [|x l IH]; simpl; auto. rewrite IH.
  destruct (p x); reflexivity.
Qed.

Lemma exists_run_counting (p : A -> bool) l (c : nat) :
  exists_run (counting p) l c
  = (existsb p l,
     c + length (prefix_while (fun x => negb (p x)) l)
     + (if existsb p l then 1 else 0)).
Proof.
  revert c. induction l as [|x l IH]; intros c; simpl.
  - f_equal. lia.
  - destruct (p x); simpl.
    + f_equal. lia.
    + rewrite IH. f_equal. lia.
Qed.

Lemma forall_run_counting (p : A -> bool) l (c : nat) :
  forall_run (counting p) l c
  = (forallb p l,
     c + length (prefix_while p l) + (if forallb p l then 0 else 1)).
Proof.
  revert c. induction l as [|x l IH]; intros c; simpl.
  - f_equal. lia.
  - destruct (p x); simpl.
    + rewrite IH. f_equal. lia.
    + f_equal. lia.
Qed.

Lemma contains_loop_Chain (A_eq : A -> A -> bool) (x : A) h pt
    (cs : list (addr * A)) z :
  Chain h pt cs z -> forall fuel, length cs < fuel ->
  gungnir.contains_loop fuel h A_eq x pt
  = Ok (existsb (fun y => A_eq y x) (map snd cs)).
Proof.
  induction 1 as [a t Hn | a y t cs z Hn Hlt Hc IH]; intros fuel Hf;
    destruct fuel as [|k]; simpl in *; try lia; rewrite Hn; simpl.
  - reflexivity.
  - destruct (A_eq y x); simpl; auto. apply IH. lia.
Qed.

Lemma foldM_count (p : A -> bool) l (n : nat) :
  (Z.of_nat (n + length l) < size_t_modulus)%Z ->
  foldM (fun y num => Ok (if p y then wrap (num + 1) else num)) l
    (Z.of_nat n)
  = Ok (Z.of_nat (n + length (filter p l))).
Proof.
  revert n. induction l as [|x l IH]; intros n Hb; cbn [foldM filter bind].
  - now rewrite Nat.add_0_r.
  - cbn [length] in Hb. destruct (p x).
    + replace (wrap (Z.of_nat n + 1)) with (Z.of_nat (S n))
        by (rewrite wrap_small; lia).
      rewrite IH by lia. cbn [length]. f_equal. f_equal. lia.
    + apply IH. lia.
Qed.

Lemma count_if_Repr (p : A -> bool) h xs l :
  Repr h xs l ->
  gungnir.count_if p xs h = Ok (Z.of_nat (length (filter p l))).
Proof.
  intros (cs & z & Hc & Hm & _ & Hb). unfold gungnir.count_if.
  rewrite (foreachImpl_fuel_of _ _ Hc), Hm.
  apply (foldM_count p l 0). exact Hb.
Qed.

Lemma fold_left_monoid (e : A) (op : A -> A -> A) :
  monoid e op -> forall l1 l2,
  fold_left op (l1 ++ l2) e = op (fold_left op l1 e) (fold_left op l2 e).
Proof.
  intros (Hassoc & Hl & Hr) l1 l2.
  assert (Hacc : forall l a, fold_left op l a = op a (fold_left op l e)).
  { induction l as [|x l IH]; intros a; simpl.
    - now rewrite Hr.
    - rewrite (IH (op a x)), (IH (op e x)), Hl, Hassoc. reflexivity. }
  rewrite fold_left_app. apply Hacc.
Qed.

Lemma sum_Repr (e : A) (op : A -> A -> A) h xs l :
  Repr h xs l ->
  gungnir.sum e op xs h = Ok (fold_left op l e)
  /\ gungnir.product e op xs h = Ok (fold_left op l e).
Proof.
  intros (cs & z & Hc & Hm & _). unfold gungnir.sum, gungnir.product.
  rewrite !(foreachImpl_fuel_of _ _ Hc), Hm.
  split; apply (foldM_foldLeft op l e).
Qed.

End QueryFacts.

(** X17.  With a predicate that has no effect, [xs.exists(p)] is true
    exactly when some element satisfies [p], [xs.forall(p)] exactly when all
    do, and [xs.exists(p)] is the negation of [xs.forall(not p)]. *)
Theorem X17_exists_forall {A : Type} (p : A -> bool) (h : heap A)
    (xs : gungnir.List A) (l : list A) :
  view h xs = Some l ->
  exists b c,
    gungnir.exists_ (gungnir.pure_pred p) xs tt h = Ok (b, tt)
    /\ gungnir.forall_ (gungnir.pure_pred p) xs tt h = Ok (c, tt)
    /\ (b = true <-> exists x, In x l /\ p x = true)
    /\ (c = true <-> forall x, In x l -> p x = true)
    /\ gungnir.forall_ (gungnir.pure_pred (fun x => negb (p x))) xs tt h
       = Ok (negb b, tt).
Proof.
  intros Hv. apply Repr_view in Hv.
  exists (existsb p l), (forallb p l).
  rewrite (exists_Repr _ tt Hv), !(forall_Repr _ tt Hv).
  rewrite exists_run_pure, !forall_run_pure.
  split; [reflexivity|]. split; [reflexivity|].
  split; [apply existsb_exists|]. split; [apply forallb_forall|].
  now rewrite existsb_forallb, negb_involutive.
Qed.

Lemma X17_witness :
  view (snd sample) (fst sample) = Some [1; 2; 4; 5; 6]%Z
  /\ exists b c,
       gungnir.exists_ (gungnir.pure_pred even) (fst sample) tt (snd sample)
       = Ok (b, tt)
       /\ gungnir.forall_ (gungnir.pure_pred even) (fst sample) tt
            (snd sample) = Ok (c, tt)
       /\ (b = true <-> exists x, In x [1; 2; 4; 5; 6]%Z /\ even x = true)
       /\ (c = true <-> forall x, In x [1; 2; 4; 5; 6]%Z -> even x = true)
       /\ gungnir.forall_ (gungnir.pure_pred (fun x => negb (even x)))
            (fst sample) tt (snd sample) = Ok (negb b, tt).
Proof.
  split; [reflexivity|].
  apply (@X17_exists_forall Z even (snd sample) (fst sample)
           [1; 2; 4; 5; 6]%Z eq_refl).
Defined.

(** X18.  [exists] and [forall] stop at the first element that decides the
    answer: [exists(p)] applies [p] to the elements before the first one that
    satisfies [p] and to that one, [forall(p)] to the elements before the
    first one that violates [p] and to that one, and to no element after
    it. *)
Theorem X18_short_circuit {A : Type} (p : A -> bool) (h : heap A)
    (xs : gungnir.List A) (l : list A) :
  view h xs = Some l ->
  gungnir.exists_ (counting p) xs 0 h
  = Ok (existsb p l,
        length (prefix_while (fun x => negb (p x)) l)
        + (if existsb p l then 1 else 0))
  /\ gungnir.forall_ (counting p) xs 0 h
     = Ok (forallb p l,
           length (prefix_while p l) + (if forallb p l then 0 else 1)).
Proof.
  intros Hv. apply Repr_view in Hv.
  rewrite (exists_Repr _ 0 Hv), (forall_Repr _ 0 Hv).
  now rewrite exists_run_counting, forall_run_counting.
Qed.

Lemma X18_witness :
  view (snd sample) (fst sample) = Some [1; 2; 4; 5; 6]%Z
  /\ gungnir.exists_ (counting even) (fst sample) 0 (snd sample)
     = Ok (true, 2)
  /\ gungnir.forall_ (counting even) (fst sample) 0 (snd sample)
     = Ok (false, 1).
Proof.
  split; [reflexivity|].
  apply (@X18_short_circuit Z even (snd sample) (fst sample)
           [1; 2; 4; 5; 6]%Z eq_refl).
Defined.

(** X19.  [xs.contains(x)] is true exactly when some element compares equal
    to [x] with [operator==], [xs.count(x)] is the number of those elements,
    at most [xs.size()], and [contains(x)] is true exactly when [count(x)]
    is not zero. *)
Theorem X19_contains_count {A : Type} (A_eq : A -> A -> bool) (x : A)
    (h : heap A) (xs : gungnir.List A) (l : list A) :
  view h xs = Some l ->
  exists b n,
    gungnir.contains A_eq x xs h = Ok b
    /\ gungnir.count A_eq x xs h = Ok n
    /\ (b = true <-> exists y, In y l /\ A_eq y x = true)
    /\ n = Z.of_nat (length (filter (fun y => A_eq y x) l))
    /\ (0 <= n <= gungnir.size xs)%Z
    /\ (b = true <-> (n > 0)%Z).
Proof.
  intros Hv. apply Repr_view in Hv.
  exists (existsb (fun y => A_eq y x) l),
    (Z.of_nat (length (filter (fun y => A_eq y x) l))).
  split.
  { destruct Hv as (cs & z & Hc & Hm & _). unfold gungnir.contains.
    rewrite <- Hm. apply contains_loop_Chain with z; auto.
    apply Chain_length in Hc. unfold fuel_of. lia. }
  split; [apply (count_if_Repr (fun y => A_eq y x) Hv)|].
  split; [apply existsb_exists|]. split; [reflexivity|].
  unfold gungnir.size. rewrite (Repr_size Hv).
  assert (Hle := filter_length_le (fun y => A_eq y x) l).
  split; [lia|].
  clear. induction l as [|y l IH]; simpl.
  - split; [discriminate | lia].
  - destruct (A_eq y x); simpl; [split; auto; lia | exact IH].
Qed.

Lemma X19_witness :
  view (snd sample) (fst sample) = Some [1; 2; 4; 5; 6]%Z
  /\ exists b n,
       gungnir.contains int_eq 4%Z (fst sample) (snd sample) = Ok b
       /\ gungnir.count int_eq 4%Z (fst sample) (snd sample) = Ok n
       /\ (b = true
           <-> exists y, In y [1; 2; 4; 5; 6]%Z /\ int_eq y 4%Z = true)
       /\ n = Z.of_nat
                (length (filter (fun y => int_eq y 4%Z) [1; 2; 4; 5; 6]%Z))
       /\ (0 <= n <= gungnir.size (fst sample))%Z
       /\ (b = true <-> (n > 0)%Z).
Proof.
  split; [reflexivity|].
  apply (@X19_contains_count Z int_eq 4%Z (snd sample) (fst sample)
           [1; 2; 4; 5; 6]%Z eq_refl).
Defined.

(** X20.  [xs.count(p)] is the number of elements that satisfy [p]: it is
    the size of [xs.filter(p)], and [xs.count(p)] and [xs.count(not p)] add
    up to [xs.size()]. *)
Theorem X20_count_if {A : Type} (p : A -> bool) (h : heap A)
    (xs : gungnir.List A) (l : list A) :
  view h xs = Some l ->
  exists n m ys h1,
    gungnir.count_if p xs h = Ok n
    /\ gungnir.count_if (fun x => negb (p x)) xs h = Ok m
    /\ (n + m = gungnir.size xs)%Z
    /\ gungnir.filter p xs h = Ok (ys, h1)
    /\ gungnir.size ys = n.
Proof.
  intros Hv. apply Repr_view in Hv.
  destruct (filter_Repr p Hv) as (ys & e & E & Hy & _).
  exists (Z.of_nat (length (filter p l))),
    (Z.of_nat (length (filter (fun x => negb (p x)) l))), ys, (h ++ e).
  split; [apply (count_if_Repr p Hv)|].
  split; [apply (count_if_Repr _ Hv)|].
  split.
  { unfold gungnir.size. rewrite (Repr_size Hv), <- (filter_length p l). lia. }
  split; [exact E | apply (Repr_size Hy)].
Qed.

Lemma X20_witness :
  view (snd sample) (fst sample) = Some [1; 2; 4; 5; 6]%Z
  /\ exists n m ys h1,
       gungnir.count_if even (fst sample) (snd sample) = Ok n
       /\ gungnir.count_if (fun x => negb (even x)) (fst sample) (snd sample)
          = Ok m
       /\ (n + m = gungnir.size (fst sample))%Z
       /\ gungnir.filter even (fst sample) (snd sample) = Ok (ys, h1)
       /\ gungnir.size ys = n.
Proof.
  split; [reflexivity|].
  apply (@X20_count_if Z even (snd sample) (fst sample) [1; 2; 4; 5; 6]%Z
           eq_refl).
Defined.

(** X21.  [sum()] adds the elements up from [0] and [product()] multiplies
    them from [1]; on an empty list they are [0] and [1].  When the
    operation is associative with that neutral element, the sum (product)
    of [xs.concat(that)] is the sum (product) of [xs] combined with that of
    [that]. *)
Theorem X21_sum_product {A : Type} (A_zero A_one : A)
    (A_add A_mul : A -> A -> A) (h : heap A) (xs that : gungnir.List A)
    (l1 l2 : list A) :
  view h xs = Some l1 ->
  view h that = Some l2 ->
  (gungnir.size xs + gungnir.size that < size_t_modulus)%Z ->
  monoid A_zero A_add ->
  monoid A_one A_mul ->
  exists s1 s2 p1 p2 ys h1,
    gungnir.sum A_zero A_add xs h = Ok s1
    /\ gungnir.sum A_zero A_add that h = Ok s2
    /\ gungnir.product A_one A_mul xs h = Ok p1
    /\ gungnir.product A_one A_mul that h = Ok p2
    /\ s1 = fold_left A_add l1 A_zero
    /\ p1 = fold_left A_mul l1 A_one
    /\ (l1 = [] -> s1 = A_zero /\ p1 = A_one)
    /\ gungnir.concat xs that h = Ok (ys, h1)
    /\ gungnir.sum A_zero A_add ys h1 = Ok (A_add s1 s2)
    /\ gungnir.product A_one A_mul ys h1 = Ok (A_mul p1 p2).
Proof.
  intros Hv1 Hv2 Hb Hadd Hmul. apply Repr_view in Hv1, Hv2.
  unfold gungnir.size in Hb. rewrite (Repr_size Hv1), (Repr_size Hv2) in Hb.
  destruct (concat_Repr Hv1 Hv2) as (ys & e & E & Hy & _).
  assert (Hy' : Repr (h ++ e) ys (l1 ++ l2)) by (apply Hy; lia).
  exists (fold_left A_add l1 A_zero), (fold_left A_add l2 A_zero),
    (fold_left A_mul l1 A_one), (fold_left A_mul l2 A_one), ys, (h ++ e).
  split; [apply (sum_Repr A_zero A_add Hv1)|].
  split; [apply (sum_Repr A_zero A_add Hv2)|].
  split; [apply (sum_Repr A_one A_mul Hv1)|].
  split; [apply (sum_Repr A_one A_mul Hv2)|].
  split; [reflexivity|]. split; [reflexivity|].
  split; [intros ->; auto|]. split; [exact E|].
  destruct (sum_Repr A_zero A_add Hy') as [Es _].
  destruct (sum_Repr A_one A_mul Hy') as [_ Ep].
  rewrite Es, Ep, (fold_left_monoid Hadd), (fold_left_monoid Hmul). auto.
Qed.

Lemma Z_add_monoid : monoid 0%Z Z.add.
Proof. repeat split; intros; lia. Qed.

Lemma Z_mul_monoid : monoid 1%Z Z.mul.
Proof. repeat split; intros; lia. Qed.

Lemma X21_witness :
  view (snd sample) (fst sample) = Some [1; 2; 4; 5; 6]%Z
  /\ view (snd sample) sample_suffix = Some [5; 6]%Z
  /\ (gungnir.size (fst sample) + gungnir.size sample_suffix
      < size_t_modulus)%Z
  /\ monoid 0%Z Z.add
  /\ monoid 1%Z Z.mul
  /\ exists s1 s2 p1 p2 ys h1,
       gungnir.sum 0%Z Z.add (fst sample) (snd sample) = Ok s1
       /\ gungnir.sum 0%Z Z.add sample_suffix (snd sample) = Ok s2
       /\ gungnir.product 1%Z Z.mul (fst sample) (snd sample) = Ok p1
       /\ gungnir.product 1%Z Z.mul sample_suffix (snd sample) = Ok p2
       /\ s1 = fold_left Z.add [1; 2; 4; 5; 6]%Z 0%Z
       /\ p1 = fold_left Z.mul [1; 2; 4; 5; 6]%Z 1%Z
       /\ ([1; 2; 4; 5; 6]%Z = [] -> s1 = 0%Z /\ p1 = 1%Z)
       /\ gungnir.concat (fst sample) sample_suffix (snd sample)
          = Ok (ys, h1)
       /\ gungnir.sum 0%Z Z.add ys h1 = Ok (s1 + s2)%Z
       /\ gungnir.product 1%Z Z.mul ys h1 = Ok (p1 * p2)%Z.
Proof.
  assert (Hb : (gungnir.size (fst sample) + gungnir.size sample_suffix
                < size_t_modulus)%Z) by reflexivity.
  split; [reflexivity|]. split; [reflexivity|]. split; [exact Hb|].
  split; [exact Z_add_monoid|]. split; [exact Z_mul_monoid|].
  apply (@X21_sum_product Z 0%Z 1%Z Z.add Z.mul (snd sample) (fst sample)
           sample_suffix [1; 2; 4; 5; 6]%Z [5; 6]%Z eq_refl eq_refl Hb
           Z_add_monoid Z_mul_monoid).
Defined.

(** X22.  [xs.foreach(f)] applies [f] to every element of [xs] once, from
    the head to the last element: a function that records its arguments
    records the elements of [xs] in order. *)
Theorem X22_foreach {A U : Type} (f : A -> U -> U) (u : U) (h : heap A)
    (xs : gungnir.List A) (l : list A) :
  view h xs = Some l ->
  gungnir.foreach f xs u h = Ok (fold_left (fun u x => f x u) l u)
  /\ gungnir.foreach (fun x log => log ++ [x]) xs [] h = Ok l.
Proof.
  intros Hv. apply Repr_view in Hv. destruct Hv as (cs & z & Hc & Hm & _).
  unfold gungnir.foreach. rewrite !(foreachImpl_fuel_of _ _ Hc), Hm.
  split.
  - apply (foldM_foldLeft (fun u x => f x u) l u).
  - apply (foldM_push_back l []).
Qed.

Lemma X22_witness :
  view (snd sample) (fst sample) = Some [1; 2; 4; 5; 6]%Z
  /\ gungnir.foreach Z.add (fst sample) 0%Z (snd sample)
     = Ok (fold_left (fun u x => x + u)%Z [1; 2; 4; 5; 6]%Z 0%Z)
  /\ gungnir.foreach (fun x log => log ++ [x]) (fst sample) [] (snd sample)
     = Ok [1; 2; 4; 5; 6]%Z.
Proof.
  split; [reflexivity|].
  apply (@X22_foreach Z Z Z.add 0%Z (snd sample) (fst sample)
           [1; 2; 4; 5; 6]%Z eq_refl).
Defined.



(** X24.  Copying a list, by the copy constructor or by copy assignment,
    gives a handle on the nodes of the source and leaves the source as it
    was.  Moving from a list, by the move constructor or by move assignment
    to another object, gives the new handle the size and the nodes of the
    source, and leaves the source with its size and a null node pointer:
    the moved-from list does not satisfy the invariant of the handle, and
    every operation that reads its nodes has undefined behaviour, [head],
    [tail] and [operator[]] when the list was not empty. *)
Theorem X24_copy_and_move {A : Type} (h : heap A) (xs : gungnir.List A)
    (l : list A) :
  view h xs = Some l ->
  gungnir.List_copy xs = xs
  /\ (forall this, gungnir.assign_copy this xs = xs)
  /\ gungnir.assign_move true xs xs = (xs, xs)
  /\ exists old,
       gungnir.List_move xs = (xs, old)
       /\ (forall this, gungnir.assign_move false this xs = (xs, old))
       /\ gungnir.size old = gungnir.size xs
       /\ gungnir.node_ old = None
       /\ view h old = None
       /\ ~ handle_invariant h old
       /\ (forall (U : Type) (f : A -> U -> U) u,
             gungnir.foreach f old u h = Undefined)
       /\ (forall (U : Type) (p : A -> U -> bool * U) u,
             gungnir.exists_ p old u h = Undefined
             /\ gungnir.forall_ p old u h = Undefined)
       /\ gungnir.reverse old h = Undefined
       /\ (forall p, gungnir.filter p old h = Undefined)
       /\ (l <> [] ->
             gungnir.head old h = Undefined
             /\ gungnir.tail old h = Undefined
             /\ gungnir.op_index old 0 h = Undefined)
       /\ (l = [] ->
             gungnir.head old h = Throw (out_of_range "head of empty list")
             /\ gungnir.tail old h
                = Throw (out_of_range "tail of empty list")).
Proof.
  intros Hv. apply Repr_view in Hv.
  assert (Hs := Repr_size Hv).
  destruct xs as [sz nd]. cbn [gungnir.size_] in Hs.
  unfold gungnir.List_copy, gungnir.assign_copy, gungnir.assign_move,
    gungnir.List_move. cbn [gungnir.size_ gungnir.node_].
  split; [reflexivity|]. split; [reflexivity|]. split; [reflexivity|].
  exists (gungnir.mkList sz None).
  split; [reflexivity|]. split; [reflexivity|]. split; [reflexivity|].
  split; [reflexivity|]. split; [reflexivity|].
  split.
  { intros [(k & Hk & _) _]. discriminate Hk. }
  split; [reflexivity|]. split; [intros; split; reflexivity|].
  split; [reflexivity|]. split; [reflexivity|].
  unfold gungnir.head, gungnir.tail, gungnir.op_index, gungnir.isEmpty,
    gungnir.size. cbn [gungnir.size_ gungnir.node_].
  split.
  - intros Hl.
    assert (Hpos : (0 < sz)%Z) by (destruct l; [congruence | simpl in Hs; lia]).
    destruct (sz =? 0)%Z eqn:E0; [apply Z.eqb_eq in E0; lia|].
    destruct (0 >=? sz)%Z eqn:E1; [apply Z.geb_le in E1; lia|].
    repeat split; reflexivity.
  - intros ->. simpl in Hs. subst sz. split; reflexivity.
Qed.

Lemma X24_witness :
  view (snd sample) (fst sample) = Some [1; 2; 4; 5; 6]%Z
  /\ gungnir.List_copy (fst sample) = fst sample
  /\ (forall this, gungnir.assign_copy this (fst sample) = fst sample)
  /\ gungnir.assign_move true (fst sample) (fst sample)
     = (fst sample, fst sample)
  /\ exists old,
       gungnir.List_move (fst sample) = (fst sample, old)
       /\ (forall this,
             gungnir.assign_move false this (fst sample) = (fst sample, old))
       /\ gungnir.size old = gungnir.size (fst sample)
       /\ gungnir.node_ old = None
       /\ view (snd sample) old = None
       /\ ~ handle_invariant (snd sample) old
       /\ (forall (U : Type) (f : Z -> U -> U) u,
             gungnir.foreach f old u (snd sample) = Undefined)
       /\ (forall (U : Type) (p : Z -> U -> bool * U) u,
             gungnir.exists_ p old u (snd sample) = Undefined
             /\ gungnir.forall_ p old u (snd sample) = Undefined)
       /\ gungnir.reverse old (snd sample) = Undefined
       /\ (forall p, gungnir.filter p old (snd sample) = Undefined)
       /\ ([1; 2; 4; 5; 6]%Z <> [] ->
             gungnir.head old (snd sample) = Undefined
             /\ gungnir.tail old (snd sample) = Undefined
             /\ gungnir.op_index old 0 (snd sample) = Undefined)
       /\ ([1; 2; 4; 5; 6]%Z = [] ->
             gungnir.head old (snd sample)
             = Throw (out_of_range "head of empty list")
             /\ gungnir.tail old (snd sample)
                = Throw (out_of_range "tail of empty list")).
Proof.
  split; [reflexivity|].
  apply (@X24_copy_and_move Z (snd sample) (fst sample)
           [1; 2; 4; 5; 6]%Z eq_refl).
Defined.

(** X25.  For a size [n], [xs.dropRight(n)] and [xs.takeRight(n)] split
    [xs] in two: [takeRight(n)] has [min(n, size)] elements, [dropRight(n)]
    the others, and [xs.dropRight(n).concat(xs.takeRight(n))] holds the
    elements of [xs] in their order.  It compares [==] to [xs] exactly when
    no element of [xs] is [!=] to itself: always, when [operator!=] is false
    of an element against itself. *)
Theorem X25_right_split {A : Type} (A_ne : A -> A -> bool) (h : heap A)
    (xs : gungnir.List A) (l : list A) (n : Z) :
  view h xs = Some l ->
  is_size_t n ->
  exists ys h1 zs h2 ws h3,
    gungnir.dropRight xs n h = Ok (ys, h1)
    /\ gungnir.takeRight xs n h1 = Ok (zs, h2)
    /\ gungnir.size zs = Z.min n (gungnir.size xs)
    /\ gungnir.size ys = (gungnir.size xs - Z.min n (gungnir.size xs))%Z
    /\ gungnir.concat ys zs h2 = Ok (ws, h3)
    /\ view h3 ws = Some l
    /\ gungnir.op_eq A_ne false ws xs h3 = Ok (all_eq A_ne l l)
    /\ ((forall x, A_ne x x = false) ->
          gungnir.op_eq A_ne false ws xs h3 = Ok true).
Proof.
  intros Hv [Hn _]. apply Repr_view in Hv.
  assert (Hs := Repr_size Hv). assert (Hb := Repr_size_t Hv).
  unfold gungnir.dropRight, gungnir.takeRight.
  rewrite (right_index Hv Hn).
  set (k := length l - Z.to_nat n).
  destruct (take_Repr Hv (n := Z.of_nat k)) as (ys & e1 & E1 & Hy & _); [lia|].
  assert (Hv1 := Repr_ext e1 Hv).
  destruct (drop_Repr Hv1 (n := Z.of_nat k)) as (zs & e2 & E2 & Hz & _); [lia|].
  rewrite Nat2Z.id in Hy, Hz.
  destruct (concat_Repr (Repr_ext e2 Hy) Hz) as (ws & e3 & E3 & Hw & _).
  rewrite <- length_app, firstn_skipn in Hw. specialize (Hw Hb).
  exists ys, (h ++ e1), zs, ((h ++ e1) ++ e2), ws, (((h ++ e1) ++ e2) ++ e3).
  split; [exact E1|]. split; [exact E2|].
  unfold gungnir.size. rewrite (Repr_size Hy), (Repr_size Hz), Hs.
  rewrite length_firstn, length_skipn.
  split; [unfold k; lia|]. split; [unfold k; lia|].
  split; [exact E3|]. split; [now apply Repr_view|].
  assert (Hx : Repr (((h ++ e1) ++ e2) ++ e3) xs l)
    by (do 3 apply Repr_ext; exact Hv).
  rewrite (op_eq_Repr A_ne Hw Hx), Nat.eqb_refl. cbn [andb].
  split; [reflexivity|]. intros Hne. now rewrite all_eq_refl.
Qed.

Lemma X25_witness :
  view (snd sample) (fst sample) = Some [1; 2; 4; 5; 6]%Z
  /\ is_size_t 2
  /\ exists ys h1 zs h2 ws h3,
       gungnir.dropRight (fst sample) 2 (snd sample) = Ok (ys, h1)
       /\ gungnir.takeRight (fst sample) 2 h1 = Ok (zs, h2)
       /\ gungnir.size zs = Z.min 2 (gungnir.size (fst sample))
       /\ gungnir.size ys
          = (gungnir.size (fst sample)
             - Z.min 2 (gungnir.size (fst sample)))%Z
       /\ gungnir.concat ys zs h2 = Ok (ws, h3)
       /\ view h3 ws = Some [1; 2; 4; 5; 6]%Z
       /\ gungnir.op_eq int_ne false ws (fst sample) h3
          = Ok (all_eq int_ne [1; 2; 4; 5; 6]%Z [1; 2; 4; 5; 6]%Z)
       /\ ((forall x, int_ne x x = false) ->
             gungnir.op_eq int_ne false ws (fst sample) h3 = Ok true).
Proof.
  assert (Hs : is_size_t 2) by (unfold is_size_t, size_t_modulus; lia).
  split; [reflexivity|]. split; [exact Hs|].
  apply (@X25_right_split Z int_ne (snd sample) (fst sample)
           [1; 2; 4; 5; 6]%Z 2%Z eq_refl Hs).
Defined.

(** X26.  On a list that is not empty, [xs.init()] followed by
    [xs.last()] is [xs] again: [xs.init().concat(List(xs.last()))] holds the
    elements of [xs], and [init()] has one element less than [xs]. *)
Theorem X26_init_last {A : Type} (h : heap A) (xs : gungnir.List A)
    (l : list A) :
  view h xs = Some l ->
  l <> [] ->
  exists ys h1 x s h2 ws h3,
    gungnir.init xs h = Ok (ys, h1)
    /\ gungnir.size ys = (gungnir.size xs - 1)%Z
    /\ gungnir.last xs h1 = Ok x
    /\ gungnir.List_single x h1 = (s, h2)
    /\ gungnir.concat ys s h2 = Ok (ws, h3)
    /\ view h3 ws = Some l.
Proof.
  intros Hv Hne. apply Repr_view in Hv.
  destruct l as [|a l]; [contradiction|].
  assert (Hb := Repr_size_t Hv).
  destruct (init_Repr Hv) as (ys & e1 & E1 & Hy).
  assert (Hl := last_Repr (Repr_ext e1 Hv)).
  destruct (List_single_Repr (last (a :: l) a) (h ++ e1))
    as (s & e2 & E2 & Hs & _).
  destruct (concat_Repr (Repr_ext e2 Hy) Hs) as (ws & e3 & E3 & Hw & _).
  rewrite <- app_removelast_last in Hw by discriminate.
  assert (Hlen : length (removelast (a :: l)) + length [last (a :: l) a]
                 = length (a :: l)).
  { rewrite <- length_app, <- app_removelast_last by discriminate.
    reflexivity. }
  rewrite Hlen in Hw. specialize (Hw Hb).
  exists ys, (h ++ e1), (last (a :: l) a), s, ((h ++ e1) ++ e2), ws,
    (((h ++ e1) ++ e2) ++ e3).
  split; [exact E1|]. split.
  { unfold gungnir.size. rewrite (Repr_size Hy), (Repr_size Hv).
    change (length [last (a :: l) a]) with 1 in Hlen. lia. }
  split; [exact Hl|]. split; [exact E2|]. split; [exact E3|].
  now apply Repr_view.
Qed.

Lemma X26_witness :
  view (snd sample) (fst sample) = Some [1; 2; 4; 5; 6]%Z
  /\ [1; 2; 4; 5; 6]%Z <> []
  /\ exists ys h1 x s h2 ws h3,
       gungnir.init (fst sample) (snd sample) = Ok (ys, h1)
       /\ gungnir.size ys = (gungnir.size (fst sample) - 1)%Z
       /\ gungnir.last (fst sample) h1 = Ok x
       /\ gungnir.List_single x h1 = (s, h2)
       /\ gungnir.concat ys s h2 = Ok (ws, h3)
       /\ view h3 ws = Some [1; 2; 4; 5; 6]%Z.
Proof.
  assert (Hne : [1; 2; 4; 5; 6]%Z <> []) by discriminate.
  split; [reflexivity|]. split; [exact Hne|].
  apply (@X26_init_last Z (snd sample) (fst sample) [1; 2; 4; 5; 6]%Z
           eq_refl Hne).
Defined.

(** Along a chain every Cons node is younger than the Nil node. *)
Lemma Chain_above_Nil {A : Type} (h : heap A) p (cs : list (addr * A)) z :
  Chain h p cs z -> Forall (fun c => z < fst c) cs.
Proof.
  induction 1 as [a t Hn | a x t cs z Hn Hlt Hc IH]; constructor; auto.
  destruct (Chain_root Hc) as (b & Eb & _ & _ & Hz). inversion Eb; subst.
  simpl. lia.
Qed.

(** X27.  [xs.take(n)] is a copy: it holds the first [min(n, size)]
    elements of [xs] in nodes that the call allocates, the Nil node too, and
    shares no node with [xs].  [take(0)] is empty and [take(n)] with
    [n >= xs.size()] holds all the elements of [xs]. *)
Theorem X27_take_copies {A : Type} (h : heap A) (xs : gungnir.List A)
    (l : list A) (n : Z) :
  view h xs = Some l ->
  (0 <= n)%Z ->
  exists ys e ns ms,
    gungnir.take xs n h = Ok (ys, h ++ e)
    /\ view (h ++ e) ys = Some (firstn (Z.to_nat n) l)
    /\ length e = S (Z.to_nat (Z.min n (gungnir.size xs)))
    /\ nodes h xs = Some ns
    /\ nodes (h ++ e) ys = Some ms
    /\ Forall (fun a => a < length h) ns
    /\ Forall (fun a => length h <= a) ms
    /\ (n = 0%Z -> gungnir.isEmpty ys = true)
    /\ ((n >= gungnir.size xs)%Z -> view (h ++ e) ys = Some l).
Proof.
  intros Hv Hn. apply Repr_view in Hv. assert (Hs := Repr_size Hv).
  destruct (take_Repr Hv Hn) as (ys & e & E & Hy & Hl).
  assert (Hr := Hv). destruct Hr as (cs & z & Hc & Hm & _).
  (* the chain of the result ends in the Nil node allocated at [length h] *)
  assert (Hc' : exists cs', Chain (h ++ e) (gungnir.node_ ys) cs' (length h)).
  { unfold gungnir.take in E. unfold gungnir.size in E. rewrite Hs in E.
    rewrite take_loop_Chain with (cs := cs) (z := z) in E; auto.
    2:{ rewrite <- Hm, length_map. lia. }
    cbn [bind app] in E.
    destruct (toList_Chain
                (firstn (Z.to_nat (Z.min n (Z.of_nat (length l)))) (map snd cs))
                (Z.of_nat
                   (length
                      (map Some
                         (firstn (Z.to_nat (Z.min n (Z.of_nat (length l))))
                            (map snd cs))))) h)
      as (ys' & e' & cs' & E' & _ & Hc' & _).
    rewrite E' in E. inversion E as [[Ey Ee]]. apply app_inv_head in Ee.
    subst ys' e'. eauto. }
  destruct Hc' as [cs' Hc'].
  exists ys, e, (map fst cs ++ [z]), (map fst cs' ++ [length h]).
  split; [exact E|]. split; [now apply Repr_view|].
  split.
  { rewrite Hl, length_firstn. unfold gungnir.size. rewrite Hs. f_equal. lia. }
  split; [apply (nodes_Chain xs Hc)|].
  split; [apply (nodes_Chain ys Hc')|].
  split.
  { destruct (Chain_root Hc) as (a & Ea & _ & Ha & Hz).
    apply Forall_app. split; [|constructor; [lia | constructor]].
    rewrite Ea in Hc. apply Forall_map.
    apply Forall_impl with (2 := Chain_below Hc). unfold addr. simpl.
    intros c Hle. exact (Nat.le_lt_trans _ _ _ Hle Ha). }
  split.
  { apply Forall_app. split; [|constructor; [lia | constructor]].
    apply Forall_map.
    apply Forall_impl with (2 := Chain_above_Nil Hc'). unfold addr. simpl.
    intros c Hlt. exact (Nat.lt_le_incl _ _ Hlt). }
  split.
  - intros ->. now rewrite (Repr_isEmpty Hy).
  - intros Hge. apply Repr_view. unfold gungnir.size in Hge.
    rewrite Hs in Hge. rewrite firstn_all2 in Hy by lia. exact Hy.
Qed.

Lemma X27_witness :
  view (snd sample) (fst sample) = Some [1; 2; 4; 5; 6]%Z
  /\ (0 <= 2)%Z
  /\ exists ys e ns ms,
       gungnir.take (fst sample) 2 (snd sample) = Ok (ys, snd sample ++ e)
       /\ view (snd sample ++ e) ys = Some (firstn (Z.to_nat 2) [1; 2; 4; 5; 6]%Z)
       /\ length e = S (Z.to_nat (Z.min 2 (gungnir.size (fst sample))))
       /\ nodes (snd sample) (fst sample) = Some ns
       /\ nodes (snd sample ++ e) ys = Some ms
       /\ Forall (fun a => a < length (snd sample)) ns
       /\ Forall (fun a => length (snd sample) <= a) ms
       /\ (2%Z = 0%Z -> gungnir.isEmpty ys = true)
       /\ ((2 >= gungnir.size (fst sample))%Z ->
           view (snd sample ++ e) ys = Some [1; 2; 4; 5; 6]%Z).
Proof.
  split; [reflexivity|]. split; [lia|].
  apply (@X27_take_copies Z (snd sample) (fst sample) [1; 2; 4; 5; 6]%Z 2%Z);
    [reflexivity | lia].
Defined.
